(** * Correlation candidate detection (handlers/correlationEngine.js)

    A shallow embedding of the correlation engine of the JMeter MCP server
    and the properties of its specification.

    JavaScript strings are sequences of UTF-16 code units: a string is a
    list of code units, a code unit is a number.  The parsed JMX document
    (the value xml2js resolves to) is a tree of strings, objects and arrays.
    Code that can throw returns an [outcome].  The objects that the engine
    creates and mutates are values passed on from step to step; the module
    [Stateful] has the engine with these objects on a heap, and the two are
    shown to agree. *)

From Stdlib Require Import List NArith Bool Arith Lia Permutation.
From Stdlib Require Ascii String DecimalString.
Import ListNotations Ascii.AsciiSyntax String.StringSyntax.

Delimit Scope char_scope with char.
Delimit Scope string_scope with string.

(** ** Strings *)

Definition char16 := N.
Definition jsstring := list char16.

Definition ch (a : Ascii.ascii) : char16 := Ascii.N_of_ascii a.

(** The string a source literal denotes (the literals of the source are ASCII). *)
Definition js (s : String.string) : jsstring := map ch (String.list_ascii_of_string s).

Definition inRange (lo hi : Ascii.ascii) (c : char16) : bool :=
  (ch lo <=? c)%N && (c <=? ch hi)%N.

Definition isChar (a : Ascii.ascii) (c : char16) : bool := (c =? ch a)%N.

Arguments ch a%_char.
Arguments js s%_string.
Arguments inRange (lo hi)%_char c.
Arguments isChar a%_char c.

Fixpoint str_eqb (a b : jsstring) : bool :=
  match a, b with
  | [], [] => true
  | x :: a', y :: b' => (x =? y)%N && str_eqb a' b'
  | _, _ => false
  end.

(** [s.startsWith(p)]; [stripPrefix] also gives what follows the prefix. *)
Fixpoint stripPrefix (p s : jsstring) : option jsstring :=
  match p with
  | [] => Some s
  | x :: p' =>
      match s with
      | y :: s' => if (x =? y)%N then stripPrefix p' s' else None
      | [] => None
      end
  end.

Definition startsWith (s p : jsstring) : bool :=
  match stripPrefix p s with Some _ => true | None => false end.

(** [s.split(sep)] for a separator of one code unit. *)
Fixpoint split (sep : char16) (s : jsstring) : list jsstring :=
  match s with
  | [] => [[]]
  | c :: s' =>
      if (c =? sep)%N then [] :: split sep s'
      else match split sep s' with
           | seg :: segs => (c :: seg) :: segs
           | [] => [[c]]
           end
  end.

(** WhiteSpace and LineTerminator of ECMAScript, the code units
    [String.prototype.trim] removes. *)
Definition isWhiteSpace (c : char16) : bool :=
  ((9 <=? c) && (c <=? 13) || (c =? 32) || (c =? 160) || (c =? 5760)
   || (8192 <=? c) && (c <=? 8202) || (c =? 8232) || (c =? 8233)
   || (c =? 8239) || (c =? 8287) || (c =? 12288) || (c =? 65279))%N.

Fixpoint trimStart (s : jsstring) : jsstring :=
  match s with
  | c :: s' => if isWhiteSpace c then trimStart s' else s
  | [] => []
  end.

Definition trim (s : jsstring) : jsstring := rev (trimStart (rev (trimStart s))).

(** Template literal [`${n}`] of a non-negative integer. *)
Definition numberToString (n : nat) : jsstring :=
  js (DecimalString.NilEmpty.string_of_uint (Nat.to_uint n)).

(** ** Regular expressions

    The fragment of ECMAScript patterns the engine uses: assertions, literal
    characters, and greedy quantifiers over a character class.  Matching is
    the backtracking matcher of the language definition: a matcher is run at
    a position, given by the code unit before it ([None] at index 0) and the
    rest of the input, and answers with the length of the match. *)

Inductive node :=
| AssertStart                       (* ^ *)
| AssertEnd                         (* $ *)
| WordBoundary                      (* \b *)
| Chars (l : jsstring)              (* literal characters *)
| Quant (cls : char16 -> bool) (lo : nat) (hi : option nat).
                                    (* [cls]{lo,hi}, [cls]+ when hi is None *)

Definition pattern := list node.

(** \d, [a-z], [A-Z], \w *)
Definition isDigit (c : char16) : bool := inRange "0" "9" c.
Definition isLower (c : char16) : bool := inRange "a" "z" c.
Definition isUpper (c : char16) : bool := inRange "A" "Z" c.
Definition isWordChar (c : char16) : bool :=
  isLower c || isUpper c || isDigit c || isChar "_" c.

Definition isWordCharAt (c : option char16) : bool :=
  match c with Some x => isWordChar x | None => false end.

(** The [i] flag.  Canonicalize maps a code unit to its upper case, and never
    a non-ASCII unit to an ASCII one; the classes of this file are ASCII. *)
Definition toUpperASCII (c : char16) : char16 := if isLower c then (c - 32)%N else c.
Definition toLowerASCII (c : char16) : char16 := if isUpper c then (c + 32)%N else c.
Definition ignoreCase (cls : char16 -> bool) (c : char16) : bool :=
  cls c || cls (toLowerASCII c) || cls (toUpperASCII c).

Definition lastOr (prev : option char16) (l : jsstring) : option char16 :=
  match rev l with c :: _ => Some c | [] => prev end.

Definition exhausted (hi : option nat) : bool :=
  match hi with Some 0 => true | _ => false end.

(** RepeatMatcher, greedy: one more iteration first, the continuation [k]
    when that fails and the minimum is reached. *)
Fixpoint repeatMatcher (cls : char16 -> bool) (lo : nat) (hi : option nat)
    (k : option char16 -> jsstring -> option nat)
    (prev : option char16) (s : jsstring) {struct s} : option nat :=
  if exhausted hi then k prev s
  else
    let stop := if (lo =? 0)%nat then k prev s else None in
    match s with
    | c :: s' =>
        if cls c then
          match repeatMatcher cls (pred lo) (option_map pred hi) k (Some c) s' with
          | Some n => Some (S n)
          | None => stop
          end
        else stop
    | [] => stop
    end.

Fixpoint matchNodes (p : pattern) (prev : option char16) (s : jsstring)
    {struct p} : option nat :=
  match p with
  | [] => Some 0
  | AssertStart :: p' =>
      match prev with None => matchNodes p' prev s | Some _ => None end
  | AssertEnd :: p' =>
      match s with [] => matchNodes p' prev s | _ :: _ => None end
  | WordBoundary :: p' =>
      if xorb (isWordCharAt prev) (isWordCharAt (hd_error s))
      then matchNodes p' prev s else None
  | Chars l :: p' =>
      match stripPrefix l s with
      | Some s' => option_map (Nat.add (length l)) (matchNodes p' (lastOr prev l) s')
      | None => None
      end
  | Quant cls lo hi :: p' => repeatMatcher cls lo hi (matchNodes p') prev s
  end.

(** [r.test(v)] for a pattern without the [g] flag: the first index, from 0,
    at which the pattern matches. *)
Fixpoint test (p : pattern) (prev : option char16) (s : jsstring) : bool :=
  match matchNodes p prev s with
  | Some _ => true
  | None =>
      match s with
      | [] => false
      | c :: s' => test p (Some c) s'
      end
  end.

(** [while ((m = r.exec(text)) !== null) literals.push(m[0])] for a pattern
    with the [g] flag: each [exec] searches from [lastIndex], the end of the
    match before.  [skip] counts the code units still covered by that match.
    (No pattern of the engine matches the empty string, see
    [matchNodes_nonempty] below, so [lastIndex] advances every turn.) *)
Fixpoint execAll (p : pattern) (prev : option char16) (s : jsstring)
    (skip : nat) : list jsstring :=
  match s with
  | [] => []
  | c :: s' =>
      match skip with
      | S k => execAll p (Some c) s' k
      | 0 =>
          match matchNodes p prev s with
          | Some n => firstn n s :: execAll p (Some c) s' (pred n)
          | None => execAll p (Some c) s' 0
          end
      end
  end.

(** ** Utilities *)

(** [0-9a-f] and [a-zA-Z0-9._-] *)
Definition isHexLower (c : char16) : bool := isDigit c || inRange "a" "f" c.
Definition isAlphaNum (c : char16) : bool := isLower c || isUpper c || isDigit c.
Definition isTokenChar (c : char16) : bool :=
  isAlphaNum c || isChar "." c || isChar "_" c || isChar "-" c.

Definition hex (n : nat) : node := Quant (ignoreCase isHexLower) n (Some n).
Definition dash : node := Chars (js "-").

Definition uuidBody : pattern :=
  [hex 8; dash; hex 4; dash; hex 4; dash; hex 4; dash; hex 12].

Definition uuidRegex : pattern := [WordBoundary] ++ uuidBody ++ [WordBoundary].
Definition jwtRegex : pattern :=
  [Chars (js "eyJ"); Quant isTokenChar 1 None; Chars (js ".");
   Quant isTokenChar 1 None; Chars (js "."); Quant isTokenChar 1 None].
Definition numRegex : pattern := [WordBoundary; Quant isDigit 6 (Some 14); WordBoundary].
Definition alphaNumRegex : pattern :=
  [WordBoundary; Quant isAlphaNum 6 (Some 20); WordBoundary].

Definition extractLiterals (text : jsstring) : list jsstring :=
  match text with
  | [] => []
  | _ :: _ =>
      flat_map (fun r => execAll r None text 0)
               [uuidRegex; jwtRegex; numRegex; alphaNumRegex]
  end.

Definition isIgnorable (value : jsstring) : bool :=
  match value with
  | [] => true
  | _ :: _ =>
      if startsWith value (js "${") then true
      else if str_eqb value (js "true") || str_eqb value (js "false") then true
      else if (length value <? 4)%nat then true
      else false
  end.

Definition looksLikeUUID (v : jsstring) : bool :=
  test ([AssertStart] ++ uuidBody ++ [AssertEnd]) None v.

Definition looksLikeJWT (v : jsstring) : bool :=
  startsWith v (js "eyJ") && (length (split (ch ".") v) =? 3)%nat.

Definition looksLikeNumericId (v : jsstring) : bool :=
  test [AssertStart; Quant isDigit 6 (Some 14); AssertEnd] None v.

Definition looksLikeAlphaNumeric (v : jsstring) : bool :=
  test [AssertStart; Quant isAlphaNum 6 (Some 20); AssertEnd] None v.

(** ** Heuristics *)

Inductive ValueType := JWT_TOKEN | UUID | NUMERIC_ID | GENERIC_DYNAMIC_VALUE | UNKNOWN.
Inductive Confidence := HIGH | MEDIUM | LOW.

Definition classifyValue (value : jsstring) : ValueType :=
  if looksLikeJWT value then JWT_TOKEN
  else if looksLikeUUID value then UUID
  else if looksLikeNumericId value then NUMERIC_ID
  else if looksLikeAlphaNumeric value then GENERIC_DYNAMIC_VALUE
  else UNKNOWN.

Section Heuristics.
Variable Occurrence : Type.

Definition calculateConfidence (value : jsstring) (occurrences : list Occurrence)
  : Confidence :=
  if (3 <=? length occurrences)%nat then HIGH
  else if looksLikeJWT value || looksLikeUUID value then HIGH
  else if looksLikeNumericId value then MEDIUM
  else LOW.
End Heuristics.

Arguments calculateConfidence {Occurrence} value occurrences.

Record Recommendation := {
  extractor : jsstring;
  variableName : jsstring;
  regex : option jsstring;
  jsonPath : option jsstring;
  usage : jsstring
}.

Definition buildRecommendation (value : jsstring) (type : ValueType) : Recommendation :=
  match type with
  | JWT_TOKEN =>
      {| extractor := js "Regex Extractor";
         variableName := js "jwt_token";
         regex := Some (js "eyJ[a-zA-Z0-9._-]+");
         jsonPath := None;
         usage := js "Extract token from login response and use in Authorization header" |}
  | UUID =>
      {| extractor := js "JSON Extractor";
         variableName := js "uuid_var";
         regex := None;
         jsonPath := Some (js "$..id");
         usage := js "Extract UUID from previous response" |}
  | NUMERIC_ID =>
      {| extractor := js "JSON Extractor";
         variableName := js "id_var";
         regex := None;
         jsonPath := Some (js "$..id");
         usage := js "Replace hardcoded numeric ID with extracted variable" |}
  | _ =>
      {| extractor := js "Regex / JSON Extractor";
         variableName := js "dynamic_var";
         regex := None;
         jsonPath := None;
         usage := js "Extract from previous response before reuse" |}
  end.

(** ** Query strings

    [new URLSearchParams(query).values()], as Node.js computes it.  The
    string is made well formed (a lone surrogate becomes U+FFFD) and read
    one code unit at a time: [&] ends a pair, the first [=] of a pair ends
    its name, [+] becomes a space.  A name or a value in which a [%] was
    followed by two hexadecimal digits is unescaped: by
    [decodeURIComponent], and when that throws, by the bytes of
    [querystring.unescapeBuffer] read as UTF-8. *)

Definition isHighSurrogate (c : N) : bool := (55296 <=? c)%N && (c <=? 56319)%N.
Definition isLowSurrogate (c : N) : bool := (56320 <=? c)%N && (c <=? 57343)%N.

Fixpoint toScalarValues (s : jsstring) : list N :=
  match s with
  | [] => []
  | c :: s' =>
      if isHighSurrogate c then
        match s' with
        | d :: s'' =>
            if isLowSurrogate d
            then (65536 + (c - 55296) * 1024 + (d - 56320))%N :: toScalarValues s''
            else 65533%N :: toScalarValues s'
        | [] => [65533%N]
        end
      else if isLowSurrogate c then 65533%N :: toScalarValues s'
      else c :: toScalarValues s'
  end.

Definition fromScalarValue (cp : N) : jsstring :=
  if (cp <? 65536)%N then [cp]
  else [(55296 + N.shiftr (cp - 65536) 10)%N; (56320 + N.land (cp - 65536) 1023)%N].

(** [String.prototype.toWellFormed] *)
Definition toWellFormed (s : jsstring) : jsstring :=
  flat_map fromScalarValue (toScalarValues s).

Definition utf8EncodeOne (cp : N) : list N :=
  let cont (sh : N) := (128 + N.land (N.shiftr cp sh) 63)%N in
  if (cp <? 128)%N then [cp]
  else if (cp <? 2048)%N then [(192 + N.shiftr cp 6)%N; cont 0%N]
  else if (cp <? 65536)%N then [(224 + N.shiftr cp 12)%N; cont 6%N; cont 0%N]
  else [(240 + N.land (N.shiftr cp 18) 7)%N; cont 12%N; cont 6%N; cont 0%N].

(** The UTF-8 decoder: an ill-formed sequence gives U+FFFD. *)
Record utf8state := {
  bytesNeeded : nat;
  codePoint : N;
  lowerBoundary : N;
  upperBoundary : N
}.

Definition utf8Lead (b : N) : option N * option utf8state :=
  if (b <=? 127)%N then (Some b, None)
  else if (194 <=? b)%N && (b <=? 223)%N then
    (None, Some {| bytesNeeded := 1; codePoint := N.land b 31;
                   lowerBoundary := 128; upperBoundary := 191 |})
  else if (224 <=? b)%N && (b <=? 239)%N then
    (None, Some {| bytesNeeded := 2; codePoint := N.land b 15;
                   lowerBoundary := if (b =? 224)%N then 160%N else 128%N;
                   upperBoundary := if (b =? 237)%N then 159%N else 191%N |})
  else if (240 <=? b)%N && (b <=? 244)%N then
    (None, Some {| bytesNeeded := 3; codePoint := N.land b 7;
                   lowerBoundary := if (b =? 240)%N then 144%N else 128%N;
                   upperBoundary := if (b =? 244)%N then 143%N else 191%N |})
  else (Some 65533%N, None).

Definition emit (e : option N) (rest : list N) : list N :=
  match e with Some cp => cp :: rest | None => rest end.

Fixpoint utf8Decode (st : option utf8state) (bs : list N) : list N :=
  match bs with
  | [] => match st with Some _ => [65533%N] | None => [] end
  | b :: bs' =>
      match st with
      | None => let (e, st') := utf8Lead b in emit e (utf8Decode st' bs')
      | Some t =>
          if (lowerBoundary t <=? b)%N && (b <=? upperBoundary t)%N then
            let cp := N.lor (N.shiftl (codePoint t) 6) (N.land b 63) in
            match bytesNeeded t with
            | S (S n) =>
                utf8Decode (Some {| bytesNeeded := S n; codePoint := cp;
                                    lowerBoundary := 128; upperBoundary := 191 |}) bs'
            | _ => cp :: utf8Decode None bs'
            end
          else
            (* the byte is put back and read again as a lead byte *)
            65533%N :: (let (e, st') := utf8Lead b in emit e (utf8Decode st' bs'))
      end
  end.

(** [buffer.toString()] *)
Definition utf8ToString (bytes : list N) : jsstring :=
  flat_map fromScalarValue (utf8Decode None bytes).

Definition isHexByte (b : N) : bool :=
  isDigit b || inRange "a" "f" b || inRange "A" "F" b.

Definition hexValue (b : N) : N :=
  if isDigit b then (b - 48)%N
  else if inRange "a" "f" b then (b - 87)%N
  else (b - 55)%N.

(** The octets of [n] escapes [%XX] at the head of [s]; [None] when one of
    them is cut short or is no escape. *)
Fixpoint escapes (n : nat) (s : jsstring) : option (list N) :=
  match n with
  | 0 => Some []
  | S n' =>
      match s with
      | p :: h1 :: h2 :: rest =>
          if isChar "%" p && isHexByte h1 && isHexByte h2 then
            option_map (cons (16 * hexValue h1 + hexValue h2)%N) (escapes n' rest)
          else None
      | _ => None
      end
  end.

(** The number of leading 1 bits of an octet; 5 for more than four. *)
Definition leadingOnes (b : N) : nat :=
  if (b <? 128)%N then 0
  else if (b <? 192)%N then 1
  else if (b <? 224)%N then 2
  else if (b <? 240)%N then 3
  else if (b <? 248)%N then 4
  else 5.

(** Decode of ECMAScript, with no character preserved: [None] is a
    URIError.  An escape of a lead octet is read with its continuation
    escapes, and the octets must be the UTF-8 encoding of a code point;
    [skip] counts the code units of the escapes already read. *)
Fixpoint decodeFrom (skip : nat) (s : jsstring) : option jsstring :=
  match s with
  | [] => Some []
  | c :: rest =>
      match skip with
      | S k => decodeFrom k rest
      | 0 =>
          if isChar "%" c then
            match escapes 1 s with
            | Some (B :: _) =>
                match leadingOnes B with
                | 0 => option_map (cons B) (decodeFrom 2 rest)
                | 1 => None
                | S (S (S (S (S _)))) => None
                | n =>
                    match escapes n s with
                    | Some octets =>
                        match utf8Decode None octets with
                        | [V] =>
                            if str_eqb (utf8EncodeOne V) octets
                            then option_map (app (fromScalarValue V))
                                            (decodeFrom (3 * n - 1) rest)
                            else None
                        | _ => None
                        end
                    | None => None
                    end
                end
            | _ => None
            end
          else option_map (cons c) (decodeFrom 0 rest)
      end
  end.

Definition decodeURIComponent (s : jsstring) : option jsstring := decodeFrom 0 s.

(** [querystring.unescapeBuffer(s)]: the code units are written to a
    buffer of bytes, an escape as its octet; a [%] that begins no escape
    stays. *)
Fixpoint unescapeBuffer (s : jsstring) : list N :=
  match s with
  | [] => []
  | c :: r =>
      if isChar "%" c then
        match r with
        | h :: ((l :: r'') as r') =>
            if isHexByte h then
              if isHexByte l then (16 * hexValue h + hexValue l)%N :: unescapeBuffer r''
              else ch "%" :: h :: unescapeBuffer r'
            else ch "%" :: unescapeBuffer r
        | _ => (c mod 256)%N :: unescapeBuffer r
        end
      else (c mod 256)%N :: unescapeBuffer r
  end.

(** [querystring.unescape(s)] *)
Definition unescape (s : jsstring) : jsstring :=
  match decodeURIComponent s with
  | Some decoded => decoded
  | None => utf8ToString (unescapeBuffer s)
  end.

Module URLSearchParams.

(** What [parseParams] keeps while it reads: the names and values found,
    alternately; the name or value being read; whether the [=] of the pair
    was seen; whether an escape was seen in [buf], and how much of one;
    whether the pair is still empty. *)
Record state := {
  out : list jsstring;
  buf : jsstring;
  seenSep : bool;
  encoded : bool;
  encodeCheck : nat;
  pairEmpty : bool
}.

Definition start : state :=
  {| out := []; buf := []; seenSep := false; encoded := false;
     encodeCheck := 0; pairEmpty := true |}.

Definition decoded (st : state) : jsstring :=
  if encoded st then unescape (buf st) else buf st.

(** The end of a pair: a name without [=] has the empty value. *)
Definition endOfPair (st : state) : list jsstring :=
  out st ++ [decoded st] ++ (if seenSep st then [] else [[]]).

Definition step (st : state) (code : char16) : state :=
  if isChar "&" code then
    if pairEmpty st then st
    else {| out := endOfPair st; buf := []; seenSep := false; encoded := false;
            encodeCheck := 0; pairEmpty := true |}
  else if negb (seenSep st) && isChar "=" code then
    {| out := out st ++ [decoded st]; buf := []; seenSep := true; encoded := false;
       encodeCheck := 0; pairEmpty := false |}
  else if isChar "+" code then
    {| out := out st; buf := buf st ++ [ch " "]; seenSep := seenSep st;
       encoded := encoded st; encodeCheck := encodeCheck st; pairEmpty := false |}
  else
    let check :=
      if encoded st then encodeCheck st
      else if isChar "%" code then 1
      else match encodeCheck st with
           | 0 => 0
           | S n => if isHexByte code then S (S n) else 0
           end in
    {| out := out st; buf := buf st ++ [code]; seenSep := seenSep st;
       encoded := encoded st || (check =? 3)%nat; encodeCheck := check;
       pairEmpty := false |}.

Definition parseParams (qs : jsstring) : list jsstring :=
  let st := fold_left step qs start in
  if pairEmpty st then out st else endOfPair st.

(** The values: every second entry of the list of names and values. *)
Fixpoint values (params : list jsstring) : list jsstring :=
  match params with
  | _ :: value :: rest => value :: values rest
  | _ => []
  end.

End URLSearchParams.

Definition URLSearchParams_values (init : jsstring) : list jsstring :=
  let init' := toWellFormed init in
  URLSearchParams.values
    (URLSearchParams.parseParams
       (match init' with
        | c :: rest => if isChar "?" c then rest else init'
        | [] => []
        end)).

(** ** Values, exceptions and containers *)

(** The parsed document: text, objects (their own enumerable properties, of
    distinct keys, in the order [for ... in] visits them) and arrays.
    [undefined] is the [None] of an [option jsval]. *)
#[local] Unset Elimination Schemes.
Inductive jsval :=
| JStr (s : jsstring)
| JObj (props : list (jsstring * jsval))
| JArr (elems : list jsval).
#[local] Set Elimination Schemes.

Inductive exn :=
| Error (message : jsstring)
| TypeError.

Inductive outcome (A : Type) :=
| Ok (a : A)
| Throw (e : exn).

Arguments Ok {A} a.
Arguments Throw {A} e.

Definition bind {A B : Type} (m : outcome A) (k : A -> outcome B) : outcome B :=
  match m with
  | Ok a => k a
  | Throw e => Throw e
  end.

Notation "x <- m ;; k" := (bind m (fun x => k))
  (at level 61, m at next level, right associativity).

(** [xs.forEach(x => ...)] over a body that can throw, threading what the
    body mutates. *)
Definition forEach {A S : Type} (body : S -> A -> outcome S)
  : list A -> S -> outcome S :=
  fix each (xs : list A) (st : S) : outcome S :=
    match xs with
    | [] => Ok st
    | x :: xs' => st' <- body st x ;; each xs' st'
    end.

Fixpoint lookup (k : jsstring) (props : list (jsstring * jsval)) : option jsval :=
  match props with
  | [] => None
  | (k', v) :: rest => if str_eqb k' k then Some v else lookup k rest
  end.

(** [v.k] and [v?.k], for the keys of this file: none is a property of a
    string or of an array. *)
Definition get (v : jsval) (k : jsstring) : option jsval :=
  match v with
  | JObj props => lookup k props
  | _ => None
  end.

Definition getOpt (v : option jsval) (k : jsstring) : option jsval :=
  match v with
  | Some x => get x k
  | None => None
  end.

Definition truthy (v : option jsval) : bool :=
  match v with
  | None => false
  | Some (JStr []) => false
  | Some _ => true
  end.

(** A [Set] of strings, in insertion order. *)
Definition SetAdd (values : list jsstring) (v : jsstring) : list jsstring :=
  if existsb (str_eqb v) values then values else values ++ [v].

Module Sampler.
Record t := mk {
  order : nat;
  name : jsval;
  requestValues : list jsstring
}.
End Sampler.

Module Occurrence.
Record t := mk {
  samplerName : jsval;
  order : nat
}.
End Occurrence.

(** A [Map] from strings to arrays of occurrences, in insertion order.
    [MapPush] is [if (!index.has(value)) index.set(value, []);
    index.get(value).push(o)]. *)
Definition ValueIndex := list (jsstring * list Occurrence.t).

Fixpoint MapPush (index : ValueIndex) (value : jsstring) (o : Occurrence.t) : ValueIndex :=
  match index with
  | [] => [(value, [o])]
  | (k, occurrences) :: rest =>
      if str_eqb k value then (k, occurrences ++ [o]) :: rest
      else (k, occurrences) :: MapPush rest value o
  end.

(** ** JMX parsing *)

(** [p.$?.name === name] *)
Definition hasName (name : jsstring) (p : jsval) : bool :=
  match getOpt (get p (js "$")) (js "name") with
  | Some (JStr s) => str_eqb s name
  | _ => false
  end.

(** [owner.stringProp?.find?.((p) => p.$?.name === name) ||
     owner.stringProp?.[name]].  An array has [find]; a string has none; an
    object has the one it owns, if any, which is no function. *)
Definition namedStringProp (owner : jsval) (name : jsstring) : outcome (option jsval) :=
  match get owner (js "stringProp") with
  | None => Ok None
  | Some stringProp =>
      found <- match stringProp with
               | JArr elems => Ok (find (hasName name) elems)
               | JStr _ => Ok None
               | JObj props =>
                   match lookup (js "find") props with
                   | None => Ok None
                   | Some _ => Throw TypeError
                   end
               end ;;
      Ok (if truthy found then found else get stringProp name)
  end.

(** [prop?._] when it is truthy, trimmed: [prop._.trim()].  Only a string
    has [trim]. *)
Definition trimmedText (prop : option jsval) : outcome (option jsstring) :=
  match getOpt prop (js "_") with
  | None => Ok None
  | Some (JStr []) => Ok None
  | Some (JStr s) => Ok (Some (trim s))
  | Some _ => Throw TypeError
  end.

Definition addLiterals (values : list jsstring) (text : jsstring) : list jsstring :=
  fold_left SetAdd (extractLiterals text) values.

Definition addQueryValues (values : list jsstring) (fullPath : jsstring) : list jsstring :=
  match split (ch "?") fullPath with
  | _ :: (_ :: _) as query :: _ =>
      fold_left (fun values val => if isIgnorable val then values else SetAdd values val)
                (URLSearchParams_values query) values
  | _ => values
  end.

Definition addArgument (values : list jsstring) (arg : jsval) : outcome (list jsstring) :=
  valProp <- namedStringProp arg (js "Argument.value") ;;
  text <- trimmedText valProp ;;
  match text with
  | None => Ok values
  | Some valText =>
      let values' :=
        match valText with
        | [] => values
        | _ :: _ => if isIgnorable valText then values else SetAdd values valText
        end in
      Ok (addLiterals values' valText)
  end.

Definition extractRequestValues (sampler : jsval) : outcome (list jsstring) :=
  pathProp <- namedStringProp sampler (js "HTTPSampler.path") ;;
  text <- trimmedText pathProp ;;
  let values :=
    match text with
    | None => []
    | Some fullPath => addLiterals (addQueryValues [] fullPath) fullPath
    end in
  let args :=
    getOpt (getOpt (get sampler (js "elementProp")) (js "collectionProp"))
           (js "elementProp") in
  let argList :=
    match args with
    | Some (JArr elems) => elems
    | Some arg => if truthy args then [arg] else []
    | None => []
    end in
  forEach addArgument argList values.

(** The walk mutates a counter and the result array. *)
Record walk := {
  index : nat;
  result : list Sampler.t
}.

Definition pushSampler (st : walk) (s : jsval) : outcome walk :=
  let i := S (index st) in
  let testname := getOpt (get s (js "$")) (js "testname") in
  let name :=
    match testname with
    | Some v => if truthy testname then v else JStr (js "Sampler-" ++ numberToString i)
    | None => JStr (js "Sampler-" ++ numberToString i)
    end in
  values <- extractRequestValues s ;;
  Ok {| index := i;
        result := result st ++ [Sampler.mk i name values] |}.

Fixpoint collectHTTPSamplers (node : jsval) (st : walk) {struct node} : outcome walk :=
  match node with
  | JStr _ => Ok st
  | JObj props =>
      let proxy := lookup (js "HTTPSamplerProxy") props in
      st1 <- match proxy with
             | Some (JArr samplers) => forEach pushSampler samplers st
             | Some s => if truthy proxy then pushSampler st s else Ok st
             | None => Ok st
             end ;;
      forEach (fun st kv => collectHTTPSamplers (snd kv) st) props st1
  | JArr elems => forEach (fun st child => collectHTTPSamplers child st) elems st
  end.

(** ** Detection logic *)

Definition occurrenceOf (sampler : Sampler.t) : Occurrence.t :=
  Occurrence.mk (Sampler.name sampler) (Sampler.order sampler).

Definition indexSampler (index : ValueIndex) (sampler : Sampler.t) : ValueIndex :=
  fold_left
    (fun index value =>
       if isIgnorable value then index
       else MapPush index value (occurrenceOf sampler))
    (Sampler.requestValues sampler) index.

Definition buildValueIndex (samplers : list Sampler.t) : ValueIndex :=
  fold_left indexSampler samplers [].

Record Suggestion := {
  detectedValue : jsstring;
  valueType : ValueType;
  confidence : Confidence;
  usedInSamplers : list jsval;
  recommendation : Recommendation
}.

Definition suggest (entry : jsstring * list Occurrence.t) : Suggestion :=
  let (value, occurrences) := entry in
  let confidence := calculateConfidence value occurrences in
  let type := classifyValue value in
  {| detectedValue := value;
     valueType := type;
     confidence := confidence;
     usedInSamplers := map Occurrence.samplerName occurrences;
     recommendation := buildRecommendation value type |}.

Definition buildCorrelationSuggestions (index : ValueIndex) : list Suggestion :=
  map suggest index.

(** ** Entry point *)

Record Report := {
  jmxFile : jsstring;
  samplersScanned : nat;
  correlationCandidates : nat;
  suggestions : list Suggestion
}.

Section EntryPoint.
(** The file system, the XML parser and [path.basename].  The parser
    resolves to a tree; for the [null] it resolves to when the file holds
    no document, the walk returns at once and the Report is empty. *)
Variable existsSync : jsstring -> bool.
Variable readFileSync : jsstring -> outcome jsstring.
Variable parseStringPromise : jsstring -> outcome jsval.
Variable basename : jsstring -> jsstring.

Definition analyzeJMXForCorrelation (jmxFilePath : jsstring) : outcome Report :=
  if negb (existsSync jmxFilePath)
  then Throw (Error (js "JMX file not found: " ++ jmxFilePath))
  else
    xml <- readFileSync jmxFilePath ;;
    parsed <- parseStringPromise xml ;;
    st <- collectHTTPSamplers parsed {| index := 0; result := [] |} ;;
    let samplers := result st in
    let valueIndex := buildValueIndex samplers in
    let suggestions := buildCorrelationSuggestions valueIndex in
    Ok {| jmxFile := basename jmxFilePath;
          samplersScanned := length samplers;
          correlationCandidates := length suggestions;
          suggestions := suggestions |}.
End EntryPoint.

(** * The engine and its objects

    The engine again, with the objects it creates and mutates kept in a
    heap that outlives an invocation: the counter [{ index: 0 }] and the
    array [result] that the walk passes on by reference, the [Set] of a
    request, the [Map] of the index and the arrays it holds, the arrays of
    literals and of suggestions, and the regular expressions, whose [exec]
    reads and writes [lastIndex].  The parsed document is only read. *)

Module Stateful.

Inductive object :=
| Order (index : nat)                             (* { index } *)
| Samplers (items : list Sampler.t)               (* result, samplers *)
| Literals (items : list jsstring)                (* literals *)
| SetObject (values : list jsstring)              (* new Set(), in insertion order *)
| MapObject (entries : list (jsstring * nat))     (* new Map(): each value an array *)
| Occurrences (items : list Occurrence.t)         (* the arrays of the index *)
| Suggestions (items : list Suggestion)           (* suggestions *)
| RegExp (source : pattern) (lastIndex : nat).    (* /source/g *)

(** An object is known by its address in the heap. *)
Definition ref := nat.
Definition heap := list object.

(** How a computation completes: it returns, it throws, or it does not
    terminate. *)
Inductive completion (A : Type) :=
| Returns (a : A)
| Throws (e : exn)
| Loops.

Arguments Returns {A} a.
Arguments Throws {A} e.
Arguments Loops {A}.

Definition M (A : Type) : Type := heap -> completion A * heap.

Definition ret {A : Type} (a : A) : M A := fun h => (Returns a, h).

Definition throw {A : Type} (e : exn) : M A := fun h => (Throws e, h).

Definition bindM {A B : Type} (m : M A) (k : A -> M B) : M B :=
  fun h =>
    match m h with
    | (Returns a, h') => k a h'
    | (Throws e, h') => (Throws e, h')
    | (Loops, h') => (Loops, h')
    end.

Notation "x <~ m ;; k" := (bindM m (fun x => k))
  (at level 61, m at next level, right associativity).

(** A computation that touches no object. *)
Definition completionOf {A : Type} (o : outcome A) : completion A :=
  match o with
  | Ok a => Returns a
  | Throw e => Throws e
  end.

Definition lift {A : Type} (o : outcome A) : M A := fun h => (completionOf o, h).

(** A new object, at the next free address. *)
Definition new (o : object) : M ref := fun h => (Returns (length h), h ++ [o]).

Definition load (r : ref) : M object :=
  fun h =>
    match nth_error h r with
    | Some o => (Returns o, h)
    | None => (Throws TypeError, h)
    end.

Definition store (r : ref) (o : object) : M unit :=
  fun h => (Returns tt, firstn r h ++ o :: skipn (S r) h).

(** [xs.forEach(x => ...)] *)
Definition forEachM {A : Type} (body : A -> M unit) : list A -> M unit :=
  fix each (xs : list A) : M unit :=
    match xs with
    | [] => ret tt
    | x :: xs' => _ <~ body x ;; each xs'
    end.

(** ** Regular expressions with the [g] flag *)

(** The code unit before index [i]. *)
Definition before (text : jsstring) (i : nat) : option char16 :=
  match i with
  | 0 => None
  | S j => nth_error text j
  end.

(** The first index from [i] on at which the pattern matches, and the
    length of the match there; [s] is the text from [i] on. *)
Fixpoint search (p : pattern) (prev : option char16) (s : jsstring) (i : nat)
  : option (nat * nat) :=
  match matchNodes p prev s with
  | Some n => Some (i, n)
  | None =>
      match s with
      | c :: s' => search p (Some c) s' (S i)
      | [] => None
      end
  end.

(** [r.exec(text)]: the search starts at [lastIndex]; a match moves
    [lastIndex] to its end, a failure resets it to 0. *)
Definition exec (r : ref) (text : jsstring) : M (option jsstring) :=
  o <~ load r ;;
  match o with
  | RegExp p lastIndex =>
      match (if (lastIndex <=? length text)%nat
             then search p (before text lastIndex) (skipn lastIndex text) lastIndex
             else None) with
      | Some (i, n) =>
          _ <~ store r (RegExp p (i + n)) ;;
          ret (Some (firstn n (skipn i text)))
      | None =>
          _ <~ store r (RegExp p 0) ;;
          ret None
      end
  | _ => throw TypeError
  end.

(** [literals.push(m)] *)
Definition pushLiteral (literals : ref) (m : jsstring) : M unit :=
  o <~ load literals ;;
  match o with
  | Literals items => store literals (Literals (items ++ [m]))
  | _ => throw TypeError
  end.

(** [while ((m = r.exec(text)) !== null) literals.push(m[0])].  A turn
    that matches moves [lastIndex] forward unless the match is empty, in
    which case every further turn is the same: the loop takes at most
    [length text] turns that match and one that fails, or does not
    terminate. *)
Fixpoint execLoop (turns : nat) (r literals : ref) (text : jsstring) : M unit :=
  match turns with
  | 0 => fun h => (Loops, h)
  | S turns' =>
      m <~ exec r text ;;
      match m with
      | Some m0 => _ <~ pushLiteral literals m0 ;; execLoop turns' r literals text
      | None => ret tt
      end
  end.

Definition extractLiterals (text : jsstring) : M ref :=
  literals <~ new (Literals []) ;;
  match text with
  | [] => ret literals
  | _ :: _ =>
      uuidRegex <~ new (RegExp uuidRegex 0) ;;
      jwtRegex <~ new (RegExp jwtRegex 0) ;;
      numRegex <~ new (RegExp numRegex 0) ;;
      alphaNumRegex <~ new (RegExp alphaNumRegex 0) ;;
      _ <~ forEachM (fun r => execLoop (S (length text)) r literals text)
                    [uuidRegex; jwtRegex; numRegex; alphaNumRegex] ;;
      ret literals
  end.

(** ** JMX parsing *)

(** [values.add(v)] *)
Definition add (values : ref) (v : jsstring) : M unit :=
  o <~ load values ;;
  match o with
  | SetObject items => store values (SetObject (SetAdd items v))
  | _ => throw TypeError
  end.

(** [extractLiterals(text).forEach(v => values.add(v))] *)
Definition addLiterals (values : ref) (text : jsstring) : M unit :=
  literals <~ extractLiterals text ;;
  o <~ load literals ;;
  match o with
  | Literals items => forEachM (add values) items
  | _ => throw TypeError
  end.

Definition addArgument (values : ref) (arg : jsval) : M unit :=
  valProp <~ lift (namedStringProp arg (js "Argument.value")) ;;
  text <~ lift (trimmedText valProp) ;;
  match text with
  | None => ret tt
  | Some valText =>
      _ <~ match valText with
           | [] => ret tt
           | _ :: _ => if isIgnorable valText then ret tt else add values valText
           end ;;
      addLiterals values valText
  end.

Definition extractRequestValues (sampler : jsval) : M (list jsstring) :=
  values <~ new (SetObject []) ;;
  pathProp <~ lift (namedStringProp sampler (js "HTTPSampler.path")) ;;
  text <~ lift (trimmedText pathProp) ;;
  _ <~ match text with
       | None => ret tt
       | Some fullPath =>
           _ <~ match split (ch "?") fullPath with
                | _ :: ((_ :: _) as query) :: _ =>
                    forEachM (fun val => if isIgnorable val then ret tt else add values val)
                             (URLSearchParams_values query)
                | _ => ret tt
                end ;;
           addLiterals values fullPath
       end ;;
  let args :=
    getOpt (getOpt (get sampler (js "elementProp")) (js "collectionProp"))
           (js "elementProp") in
  let argList :=
    match args with
    | Some (JArr elems) => elems
    | Some arg => if truthy args then [arg] else []
    | None => []
    end in
  _ <~ forEachM (addArgument values) argList ;;
  o <~ load values ;;
  match o with
  | SetObject items => ret items
  | _ => throw TypeError
  end.

(** [order.index++], and the new value. *)
Definition increment (order : ref) : M nat :=
  o <~ load order ;;
  match o with
  | Order index => _ <~ store order (Order (S index)) ;; ret (S index)
  | _ => throw TypeError
  end.

(** [result.push(sampler)] *)
Definition pushResult (result : ref) (sampler : Sampler.t) : M unit :=
  o <~ load result ;;
  match o with
  | Samplers items => store result (Samplers (items ++ [sampler]))
  | _ => throw TypeError
  end.

Definition pushSampler (result order : ref) (s : jsval) : M unit :=
  i <~ increment order ;;
  let testname := getOpt (get s (js "$")) (js "testname") in
  let name :=
    match testname with
    | Some v => if truthy testname then v else JStr (js "Sampler-" ++ numberToString i)
    | None => JStr (js "Sampler-" ++ numberToString i)
    end in
  values <~ extractRequestValues s ;;
  pushResult result (Sampler.mk i name values).

Fixpoint collectHTTPSamplers (node : jsval) (result order : ref) {struct node} : M unit :=
  match node with
  | JStr _ => ret tt
  | JObj props =>
      let proxy := lookup (js "HTTPSamplerProxy") props in
      _ <~ match proxy with
           | Some (JArr samplers) => forEachM (pushSampler result order) samplers
           | Some s => if truthy proxy then pushSampler result order s else ret tt
           | None => ret tt
           end ;;
      forEachM (fun kv => collectHTTPSamplers (snd kv) result order) props
  | JArr elems => forEachM (fun child => collectHTTPSamplers child result order) elems
  end.

(** ** Detection logic *)

(** [index.has(value)] and [index.get(value)] *)
Fixpoint entryOf (value : jsstring) (entries : list (jsstring * ref)) : option ref :=
  match entries with
  | [] => None
  | (k, a) :: rest => if str_eqb k value then Some a else entryOf value rest
  end.

(** [if (!index.has(value)) index.set(value, []);
     index.get(value).push(o)] *)
Definition pushOccurrence (index : ref) (value : jsstring) (o : Occurrence.t) : M unit :=
  m <~ load index ;;
  match m with
  | MapObject entries =>
      array <~ match entryOf value entries with
               | Some a => ret a
               | None =>
                   a <~ new (Occurrences []) ;;
                   _ <~ store index (MapObject (entries ++ [(value, a)])) ;;
                   ret a
               end ;;
      items <~ load array ;;
      match items with
      | Occurrences occurrences => store array (Occurrences (occurrences ++ [o]))
      | _ => throw TypeError
      end
  | _ => throw TypeError
  end.

Definition buildValueIndex (samplers : ref) : M ref :=
  index <~ new (MapObject []) ;;
  o <~ load samplers ;;
  match o with
  | Samplers items =>
      _ <~ forEachM
             (fun sampler =>
                forEachM
                  (fun value =>
                     if isIgnorable value then ret tt
                     else pushOccurrence index value (occurrenceOf sampler))
                  (Sampler.requestValues sampler))
             items ;;
      ret index
  | _ => throw TypeError
  end.

(** [suggestions.push(suggestion)] *)
Definition pushSuggestion (suggestions : ref) (suggestion : Suggestion) : M unit :=
  o <~ load suggestions ;;
  match o with
  | Suggestions items => store suggestions (Suggestions (items ++ [suggestion]))
  | _ => throw TypeError
  end.

Definition buildCorrelationSuggestions (index : ref) : M ref :=
  suggestions <~ new (Suggestions []) ;;
  m <~ load index ;;
  match m with
  | MapObject entries =>
      _ <~ forEachM
             (fun entry =>
                o <~ load (snd entry) ;;
                match o with
                | Occurrences occurrences =>
                    pushSuggestion suggestions (suggest (fst entry, occurrences))
                | _ => throw TypeError
                end)
             entries ;;
      ret suggestions
  | _ => throw TypeError
  end.

(** ** Entry point *)

Section EntryPoint.
Variable existsSync : jsstring -> bool.
Variable readFileSync : jsstring -> outcome jsstring.
Variable parseStringPromise : jsstring -> outcome jsval.
Variable basename : jsstring -> jsstring.

Definition analyzeJMXForCorrelation (jmxFilePath : jsstring) : M Report :=
  if negb (existsSync jmxFilePath)
  then throw (Error (js "JMX file not found: " ++ jmxFilePath))
  else
    xml <~ lift (readFileSync jmxFilePath) ;;
    parsed <~ lift (parseStringPromise xml) ;;
    samplers <~ new (Samplers []) ;;
    order <~ new (Order 0) ;;
    _ <~ collectHTTPSamplers parsed samplers order ;;
    valueIndex <~ buildValueIndex samplers ;;
    suggestions <~ buildCorrelationSuggestions valueIndex ;;
    scanned <~ load samplers ;;
    suggested <~ load suggestions ;;
    match scanned, suggested with
    | Samplers items, Suggestions list =>
        ret {| jmxFile := basename jmxFilePath;
               samplersScanned := length items;
               correlationCandidates := length list;
               suggestions := list |}
    | _, _ => throw TypeError
    end.
End EntryPoint.

(** What holds of the completion of [m] from the heap [h] and of the heap
    it leaves. *)
Definition wp {A : Type} (m : M A) (h : heap) (Q : completion A -> heap -> Prop) : Prop :=
  let (c, h') := m h in Q c h'.

(** The heap [h'] has the new object [o] at the next free address of [h],
    and the objects of [h] where they were. *)
Definition allocated (o : object) (h h' : heap) : Prop :=
  length h' = S (length h) /\
  nth_error h' (length h) = Some o /\
  forall a x, nth_error h a = Some x -> nth_error h' a = Some x.

(** The heap [h'] has [o] at the address [r], and the objects of [h] at the
    other addresses. *)
Definition stored (r : ref) (o : object) (h h' : heap) : Prop :=
  nth_error h' r = Some o /\
  forall a x, a <> r -> nth_error h a = Some x -> nth_error h' a = Some x.

(** The completion of a computation that refines [o], and what then holds
    of the value it returns and of the heap. *)
Definition post {S A : Type} (o : outcome S) (I : S -> A -> heap -> Prop)
  : completion A -> heap -> Prop :=
  fun c h' =>
    match o with
    | Ok st => exists a, c = Returns a /\ I st a h'
    | Throw e => c = Throws e
    end.

(** The array and the counter of the walk, at the addresses [r] and [o]. *)
Definition walkAt (r o : ref) (st : walk) (h : heap) : Prop :=
  nth_error h r = Some (Samplers (result st)) /\
  nth_error h o = Some (Order (index st)).

(** The [Map] of the index and its arrays. *)
Definition indexAt (entries : list (jsstring * ref)) (index : ValueIndex) (h : heap) : Prop :=
  Forall2 (fun entry pair =>
             fst entry = fst pair /\
             nth_error h (snd entry) = Some (Occurrences (snd pair)))
          entries index /\
  NoDup (map snd entries).

End Stateful.

(** * Specification-level definitions *)

(** ** Bounds on a match *)

Definition quantMin (lo : nat) (hi : option nat) : nat :=
  match hi with Some h => Nat.min lo h | None => lo end.

Fixpoint minLength (p : pattern) : nat :=
  match p with
  | [] => 0
  | Chars l :: p' => length l + minLength p'
  | Quant _ lo hi :: p' => quantMin lo hi + minLength p'
  | _ :: p' => minLength p'
  end.

(** The code units a non-empty match of [p] can begin with. *)
Fixpoint firstChar (p : pattern) (c : char16) : bool :=
  match p with
  | [] => false
  | Chars (x :: _) :: _ => (x =? c)%N
  | Quant cls _ _ :: p' => cls c || firstChar p' c
  | _ :: p' => firstChar p' c
  end.

(** ** Tactics for character classes *)

Ltac ascii_codes :=
  repeat match goal with
         | |- context [ch ?a] =>
             let v := eval vm_compute in (ch a) in change (ch a) with v
         | H : context [ch ?a] |- _ =>
             let v := eval vm_compute in (ch a) in change (ch a) with v in H
         end.

Ltac unfold_classes :=
  unfold ignoreCase, isHexLower, isTokenChar, isAlphaNum, isWordChar,
    toLowerASCII, toUpperASCII, isUpper, isLower, isDigit, isChar, inRange in *;
  ascii_codes.

Ltac to_props :=
  repeat match goal with
         | H : _ && _ = true |- _ => apply andb_true_iff in H; destruct H
         | H : _ || _ = false |- _ => apply orb_false_iff in H; destruct H
         | H : _ && _ = false |- _ => apply andb_false_iff in H; destruct H
         | H : _ || _ = true |- _ => apply orb_true_iff in H; destruct H
         | H : (_ <=? _)%N = true |- _ => apply N.leb_le in H
         | H : (_ <=? _)%N = false |- _ => apply N.leb_gt in H
         | H : (_ =? _)%N = true |- _ => apply N.eqb_eq in H
         | H : (_ =? _)%N = false |- _ => apply N.eqb_neq in H
         end.

(** ** Shapes of values *)

(** Under the [i] flag, [0-9a-f] is the class of hexadecimal digits. *)
Definition isHexDigit (c : char16) : bool :=
  isDigit c || inRange "a" "f" c || inRange "A" "F" c.

Definition isSome {A : Type} (o : option A) : bool :=
  match o with Some _ => true | None => false end.

(** Groups of hexadecimal digits of the given sizes, separated by dashes. *)
Fixpoint dashedHex (sizes : list nat) (v : jsstring) : bool :=
  match sizes with
  | [] => false
  | n :: sizes' =>
      (n <=? length v)%nat && forallb isHexDigit (firstn n v) &&
      match sizes' with
      | [] => (length v =? n)%nat
      | _ :: _ =>
          match skipn n v with
          | c :: rest => isChar "-" c && dashedHex sizes' rest
          | [] => false
          end
      end
  end.

Fixpoint dashed (sizes : list nat) : pattern :=
  match sizes with
  | [] => []
  | n :: sizes' =>
      match sizes' with
      | [] => [hex n]
      | _ :: _ => hex n :: dash :: dashed sizes'
      end
  end.

(** The shapes of the pattern suite, applied to a whole value. *)
Definition shapeUUID (v : jsstring) : bool := dashedHex [8; 4; 4; 4; 12] v.

Definition shapeNumeric (v : jsstring) : bool :=
  (6 <=? length v)%nat && (length v <=? 14)%nat && forallb isDigit v.

Definition shapeAlphaNumeric (v : jsstring) : bool :=
  (6 <=? length v)%nat && (length v <=? 20)%nat && forallb isAlphaNum v.

(** Three dot-separated segments of base64url characters, the whole token
    beginning with "eyJ". *)
Definition isBase64Url (c : char16) : bool :=
  isAlphaNum c || isChar "_" c || isChar "-" c.

Definition shapeJWT (v : jsstring) : bool :=
  startsWith v (js "eyJ") &&
  match split (ch ".") v with
  | [a; b; c] =>
      forallb (fun seg => negb (length seg =? 0)%nat && forallb isBase64Url seg) [a; b; c]
  | _ => false
  end.

(** The classifier as the specification words it: the first shape that the
    whole value has, in priority order. *)
Definition classifyByShape (v : jsstring) : ValueType :=
  if shapeJWT v then JWT_TOKEN
  else if shapeUUID v then UUID
  else if shapeNumeric v then NUMERIC_ID
  else if shapeAlphaNumeric v then GENERIC_DYNAMIC_VALUE
  else UNKNOWN.

(** What [looksLikeJWT] tests: the prefix, and exactly two dots. *)
Definition prefixAndTwoDots (v : jsstring) : bool :=
  startsWith v (js "eyJ") && (count_occ N.eq_dec v (ch ".") =? 2)%nat.

(** ** The index as a sequence of pushes *)

(** The distinct elements of a list, in the order of their first occurrence. *)
Fixpoint firstSeen (l : list jsstring) : list jsstring :=
  match l with
  | [] => []
  | x :: l' => x :: filter (fun y => negb (str_eqb x y)) (firstSeen l')
  end.

Definition keys (index : ValueIndex) : list jsstring := map fst index.

(** [index.get(value)], the empty array for an absent key. *)
Definition MapGet (index : ValueIndex) (value : jsstring) : list Occurrence.t :=
  match find (fun e => str_eqb (fst e) value) index with
  | Some e => snd e
  | None => []
  end.

Definition pushAll (index : ValueIndex) (events : list (jsstring * Occurrence.t)) : ValueIndex :=
  fold_left (fun index e => MapPush index (fst e) (snd e)) events index.

Definition significant (v : jsstring) : bool := negb (isIgnorable v).

(** The sequence of [push] calls of [buildValueIndex]. *)
Definition pushesOf (sampler : Sampler.t) : list (jsstring * Occurrence.t) :=
  map (fun v => (v, occurrenceOf sampler))
      (filter significant (Sampler.requestValues sampler)).

Definition pushes (samplers : list Sampler.t) : list (jsstring * Occurrence.t) :=
  flat_map pushesOf samplers.

(** [sampler.requestValues.includes(v)] *)
Definition uses (v : jsstring) (sampler : Sampler.t) : bool :=
  existsb (str_eqb v) (Sampler.requestValues sampler).

(** ** The walk *)

(** Induction on a document, through its properties and elements. *)
Fixpoint jsval_ind (P : jsval -> Prop)
    (HStr : forall s, P (JStr s))
    (HObj : forall props, Forall (fun kv => P (snd kv)) props -> P (JObj props))
    (HArr : forall elems, Forall P elems -> P (JArr elems))
    (v : jsval) {struct v} : P v :=
  match v with
  | JStr s => HStr s
  | JObj props =>
      HObj props
        ((fix all (ps : list (jsstring * jsval)) : Forall (fun kv => P (snd kv)) ps :=
            match ps with
            | [] => Forall_nil _
            | kv :: ps' => Forall_cons kv (jsval_ind P HStr HObj HArr (snd kv)) (all ps')
            end) props)
  | JArr elems =>
      HArr elems
        ((fix all (es : list jsval) : Forall P es :=
            match es with
            | [] => Forall_nil _
            | e :: es' => Forall_cons e (jsval_ind P HStr HObj HArr e) (all es')
            end) elems)
  end.

(** The samplers collected so far are numbered 1, 2, ... in order, and the
    values of each are a set. *)
Definition walkOk (st : walk) : Prop :=
  map Sampler.order (result st) = seq 1 (index st) /\
  Forall (fun s => NoDup (Sampler.requestValues s)) (result st).

Definition emptyWalk : walk := {| index := 0; result := [] |}.

(** ** Documents

    Parsed JMX documents, as xml2js builds them with [explicitArray: false]:
    the attributes of an element under [$], its text under [_], a child
    element under its name, and an array when the name occurs several times. *)

Open Scope string_scope.

Definition attributes (l : list (String.string * String.string)) : jsstring * jsval :=
  (js "$", JObj (map (fun kv => (js (fst kv), JStr (js (snd kv)))) l)).

Definition stringProp (name text : String.string) : jsval :=
  match text with
  | String.EmptyString => JObj [attributes [("name", name)]]
  | _ => JObj [(js "_", JStr (js text)); attributes [("name", name)]]
  end.

(** An [HTTPArgument] of the arguments of a sampler. *)
Definition argument (name value : String.string) : jsval :=
  JObj [attributes [("name", name); ("elementType", "HTTPArgument")];
        (js "boolProp",
         JObj [(js "_", JStr (js "false"));
               attributes [("name", "HTTPArgument.always_encode")]]);
        (js "stringProp",
         JArr [stringProp "Argument.name" name; stringProp "Argument.value" value])].

Definition arguments (args : list jsval) : jsstring * jsval :=
  (js "elementProp",
   JObj [attributes [("name", "HTTPsampler.Arguments"); ("elementType", "Arguments")];
         (js "collectionProp",
          match args with
          | [] => JObj [attributes [("name", "Arguments.arguments")]]
          | [arg] => JObj [attributes [("name", "Arguments.arguments")];
                           (js "elementProp", arg)]
          | _ => JObj [attributes [("name", "Arguments.arguments")];
                       (js "elementProp", JArr args)]
          end)]).

Definition httpSampler (testname method path : String.string) (args : list jsval) : jsval :=
  JObj [attributes [("testclass", "HTTPSamplerProxy"); ("testname", testname)];
        arguments args;
        (js "stringProp",
         JArr [stringProp "HTTPSampler.path" path;
               stringProp "HTTPSampler.method" method])].

(** A test plan whose samplers are siblings under one [hashTree]. *)
Definition testPlan (samplers : list jsval) : jsval :=
  JObj [(js "jmeterTestPlan",
         JObj [attributes [("version", "1.2")];
               (js "hashTree",
                JObj [(js "HTTPSamplerProxy",
                       match samplers with
                       | [s] => s
                       | _ => JArr samplers
                       end);
                      (js "hashTree",
                       match samplers with
                       | [_] => JStr []
                       | _ => JArr (map (fun _ => JStr []) samplers)
                       end)])])].

(** "Login" sends the token as a body argument, "GetProfile" as the
    Authorization header argument. *)
Definition loginDocument : jsval :=
  testPlan [httpSampler "Login" "POST" "" [argument "token" "eyJabc.def.ghi"];
            httpSampler "GetProfile" "GET" "" [argument "Authorization" "eyJabc.def.ghi"]].

(** One request, path "/orders/123" with query "?status=true", no arguments. *)
Definition ordersDocument : jsval :=
  testPlan [httpSampler "Orders" "GET" "/orders/123?status=true" []].

(** One request with a 16-digit argument value. *)
Definition cardDocument : jsval :=
  testPlan [httpSampler "Pay" "POST" "" [argument "card" "4111111111111111"]].

(** "Login" sends one value as two arguments; "Next" has it in its path and
    in its query. *)
Definition repeatDocument : jsval :=
  testPlan [httpSampler "Login" "POST" "/login"
              [argument "token" "abc12345"; argument "session" "abc12345"];
            httpSampler "Next" "GET" "/items/abc12345?ref=abc12345" []].

(** A sampler whose one string property has a child element [find]:
    [<HTTPSamplerProxy testname="Login"><stringProp><find>x</find></stringProp>
     </HTTPSamplerProxy>]. *)
Definition findDocument : jsval :=
  testPlan [JObj [attributes [("testname", "Login")];
                  (js "stringProp", JObj [(js "find", JStr (js "x"))])]].

(** A file system in which every path exists and parses to [doc]. *)
Definition analyzeDocument (doc : jsval) (jmxFilePath : jsstring) : outcome Report :=
  analyzeJMXForCorrelation (fun _ => true) (fun _ => Ok []) (fun _ => Ok doc)
                           (fun p => p) jmxFilePath.

Close Scope string_scope.

Definition suggestionFor (value : jsstring) (type : ValueType) (c : Confidence)
    (samplers : list String.string) : Suggestion :=
  {| detectedValue := value;
     valueType := type;
     confidence := c;
     usedInSamplers := map (fun n => JStr (js n)) samplers;
     recommendation := buildRecommendation value type |}.

(** What the entry point returns once the document is located and parsed. *)
Definition reportOf (file : jsstring) (parsed : jsval) : outcome Report :=
  st <- collectHTTPSamplers parsed emptyWalk ;;
  let suggestions := buildCorrelationSuggestions (buildValueIndex (result st)) in
  Ok {| jmxFile := file;
        samplersScanned := length (result st);
        correlationCandidates := length suggestions;
        suggestions := suggestions |}.

Definition repeatReport : Report :=
  {| jmxFile := js "repeat.jmx"; samplersScanned := 2; correlationCandidates := 1;
     suggestions :=
       [suggestionFor (js "abc12345") GENERIC_DYNAMIC_VALUE LOW ["Login"; "Next"]%string] |}.

(** ** Tolerated documents *)

(** No property [find] on an object, and no [_] that is not text: nothing
    is required to be present. *)
Definition textual (v : option jsval) : bool :=
  match v with
  | Some (JObj _) | Some (JArr _) => false
  | _ => true
  end.

Fixpoint tolerated (v : jsval) : bool :=
  match v with
  | JStr _ => true
  | JObj props =>
      negb (isSome (lookup (js "find") props)) && textual (lookup (js "_") props) &&
      forallb (fun kv => tolerated (snd kv)) props
  | JArr elems => forallb tolerated elems
  end.

Definition toleratedOpt (v : option jsval) : Prop :=
  forall x, v = Some x -> tolerated x = true.

(** * The rest of the repository *)

(** ** What a pattern recognizes *)

(** The strings a pattern can match, whatever surrounds them: assertions
    consume nothing, a quantifier consumes a run of its class. *)
Fixpoint recognizes (p : pattern) (m : jsstring) : Prop :=
  match p with
  | [] => m = []
  | Chars l :: p' => exists m', m = l ++ m' /\ recognizes p' m'
  | Quant cls lo hi :: p' =>
      exists a b,
        m = a ++ b /\ forallb cls a = true /\ quantMin lo hi <= length a /\
        (forall h, hi = Some h -> length a <= h) /\ recognizes p' b
  | _ :: p' => recognizes p' m
  end.

Definition dots (v : jsstring) : nat := count_occ N.eq_dec v (ch ".").

Definition rank (c : Confidence) : nat :=
  match c with LOW => 0 | MEDIUM => 1 | HIGH => 2 end.

(** ** handlers/listTests.js *)

(** [s.endsWith(suffix)] *)
Definition endsWith (s suffix : jsstring) : bool :=
  (length suffix <=? length s)%nat &&
  str_eqb (skipn (length s - length suffix) s) suffix.

(** [listTests], given what [fs.readdirSync(jmxDir)] returns. *)
Definition listTests (readdirSync : list jsstring) : list jsstring :=
  filter (fun f => endsWith f (js ".jmx")) readdirSync.

(** ** parseJMX (the second parser of JMX documents) *)

Module ParseJMX.

Record Argument := mkArgument {
  argName : jsval;
  argValue : jsval
}.

Record Descriptor := mk {
  order : nat;
  name : jsval;
  method : jsval;
  path : jsval;
  arguments : list Argument;
  raw : jsval
}.

(** [x] when it is truthy, the empty string otherwise. *)
Definition orEmpty (v : option jsval) : jsval :=
  match v with
  | Some x => if truthy v then x else JStr []
  | None => JStr []
  end.

(** [Array.isArray(props) ? props : [props]] *)
Definition asArray (props : jsval) : list jsval :=
  match props with
  | JArr elems => elems
  | _ => [props]
  end.

Definition findStringProp (node : jsval) (propName : jsstring) : jsval :=
  let props := get node (js "stringProp") in
  match props with
  | Some p =>
      if truthy props
      then orEmpty (getOpt (find (hasName propName) (asArray p)) (js "_"))
      else JStr []
  | None => JStr []
  end.

Definition getStringProp (sampler : jsval) (propName : jsstring) : jsval :=
  let props := get sampler (js "stringProp") in
  match props with
  | Some p =>
      if truthy props
      then orEmpty (getOpt (find (hasName propName) (asArray p)) (js "_"))
      else JStr []
  | None => JStr []
  end.

Definition extractArguments (sampler : jsval) : list Argument :=
  let elementProp := get sampler (js "elementProp") in
  match elementProp with
  | None => []
  | Some e =>
      if negb (truthy elementProp) then []
      else
        let argBlock :=
          match e with
          | JArr elems => find (hasName (js "HTTPsampler.Arguments")) elems
          | _ => if hasName (js "HTTPsampler.Arguments") e then Some e else None
          end in
        let params := getOpt (getOpt argBlock (js "collectionProp")) (js "elementProp") in
        match params with
        | None => []
        | Some ps =>
            if negb (truthy params) then []
            else
              flat_map
                (fun p =>
                   let name := findStringProp p (js "Argument.name") in
                   let value := findStringProp p (js "Argument.value") in
                   if truthy (Some value) then [mkArgument name value] else [])
                (asArray ps)
        end
  end.

(** The counter and the array [walk] closes over. *)
Record state := {
  counter : nat;
  samplers : list Descriptor
}.

Definition pushDescriptor (st : state) (sampler : jsval) : state :=
  let i := S (counter st) in
  let testname := getOpt (get sampler (js "$")) (js "testname") in
  let name :=
    match testname with
    | Some v => if truthy testname then v else JStr (js "Sampler-" ++ numberToString i)
    | None => JStr (js "Sampler-" ++ numberToString i)
    end in
  {| counter := i;
     samplers :=
       samplers st ++
       [mk i name (getStringProp sampler (js "HTTPSampler.method"))
           (getStringProp sampler (js "HTTPSampler.path"))
           (extractArguments sampler) sampler] |}.

Fixpoint walk (node : jsval) (st : state) {struct node} : state :=
  match node with
  | JStr _ => st
  | JObj props =>
      let proxy := lookup (js "HTTPSamplerProxy") props in
      let st1 :=
        match proxy with
        | Some s => if truthy proxy then fold_left pushDescriptor (asArray s) st else st
        | None => st
        end in
      fold_left (fun st kv => walk (snd kv) st) props st1
  | JArr elems => fold_left (fun st child => walk child st) elems st
  end.

Section EntryPoint.
(** [parseStringPromise] resolves to a tree, keyed by the root element, or
    to [null] ([None]) when the file holds no document. *)
Variable readFileSync : jsstring -> outcome jsstring.
Variable parseStringPromise : jsstring -> outcome (option jsval).

(** [jmx.jmeterTestPlan] throws on [null]; it is [undefined] unless [jmx]
    is an object that has the property, and [walk(undefined)] returns at
    once. *)
Definition parseJMX (jmxPath : jsstring) : outcome (list Descriptor) :=
  xml <- readFileSync jmxPath ;;
  parsed <- parseStringPromise xml ;;
  match parsed with
  | None => Throw TypeError
  | Some jmx =>
      Ok (samplers
            (match get jmx (js "jmeterTestPlan") with
             | Some plan => walk plan {| counter := 0; samplers := [] |}
             | None => {| counter := 0; samplers := [] |}
             end))
  end.
End EntryPoint.

(** A parser that resolves to a tree whenever it resolves. *)
Definition tree (parseStringPromise : jsstring -> outcome jsval)
  : jsstring -> outcome (option jsval) :=
  fun xml => jmx <- parseStringPromise xml ;; Ok (Some jmx).

End ParseJMX.

(** ** The Postman converter *)

Module Postman.

(** The double quote, code unit 34. *)
Definition quote : Ascii.ascii := Ascii.ascii_of_nat 34.

(** [str.replace(/c/g, by)] for a pattern of one literal character and a
    replacement without [$]. *)
Definition replaceAll (c : Ascii.ascii) (by_ : jsstring) (str : jsstring) : jsstring :=
  flat_map (fun x => if isChar c x then by_ else [x]) str.

Arguments replaceAll c%_char by_ str.

Definition escapeXml (str : jsstring) : jsstring :=
  replaceAll quote (js "&quot;")
    (replaceAll ">" (js "&gt;")
       (replaceAll "<" (js "&lt;")
          (replaceAll "&" (js "&amp;") str))).

(** The entity or character one character becomes: what the four
    replacements amount to for one character ([escapeXml_chars]). *)
Definition escapeChar (x : char16) : jsstring :=
  if isChar "&" x then js "&amp;"
  else if isChar "<" x then js "&lt;"
  else if isChar ">" x then js "&gt;"
  else if isChar quote x then js "&quot;"
  else [x].

(** Reading the four entities back.  The source has no such function; it
    is the inverse against which [escapeXml] is shown to lose nothing.
    [entityAt s] is the character an entity at the head of [s] stands for,
    and the number of code units that follow its [&]. *)
Definition entityAt (s : jsstring) : option (char16 * nat) :=
  if startsWith s (js "&amp;") then Some (ch "&", 4)
  else if startsWith s (js "&lt;") then Some (ch "<", 3)
  else if startsWith s (js "&gt;") then Some (ch ">", 3)
  else if startsWith s (js "&quot;") then Some (ch quote, 5)
  else None.

Fixpoint unescapeFrom (skip : nat) (s : jsstring) : jsstring :=
  match s with
  | [] => []
  | c :: r =>
      match skip with
      | S k => unescapeFrom k r
      | 0 =>
          match entityAt s with
          | Some (x, n) => x :: unescapeFrom n r
          | None => c :: unescapeFrom 0 r
          end
      end
  end.

Definition unescapeXml (s : jsstring) : jsstring := unescapeFrom 0 s.

End Postman.

(** ** handlers/runJMeter.js *)

Module RunJMeter.

Section Duplicates.
Variable A : Type.
(** [JSON.stringify] *)
Variable stringify : A -> jsstring.

(** [self.findIndex(p)], [None] for -1. *)
Fixpoint findIndex (p : A -> bool) (self : list A) : option nat :=
  match self with
  | [] => None
  | y :: rest => if p y then Some 0 else option_map S (findIndex p rest)
  end.

(** [i === self.findIndex((y) => JSON.stringify(y) === JSON.stringify(x))],
    for the element [x] at index [i]. *)
Definition firstOfItsText (self : list A) (ix : nat * A) : bool :=
  match findIndex (fun y => str_eqb (stringify y) (stringify (snd ix))) self with
  | Some j => (fst ix =? j)%nat
  | None => false
  end.

(** [suggestions.filter((x, i, self) => ...)] *)
Definition removeDuplicates (suggestions : list A) : list A :=
  map snd
      (filter (firstOfItsText suggestions)
              (combine (seq 0 (length suggestions)) suggestions)).
End Duplicates.

Arguments findIndex {A} p self.
Arguments firstOfItsText {A} stringify self ix.
Arguments removeDuplicates {A} stringify suggestions.

End RunJMeter.

Definition allSignificant (values : list jsstring) : Prop :=
  forall v, In v values -> isIgnorable v = false.

Definition valuesSignificant (st : walk) : Prop :=
  Forall (fun s => allSignificant (Sampler.requestValues s)) (result st).

Definition namesTruthy (st : walk) : Prop :=
  Forall (fun s => truthy (Some (Sampler.name s)) = true) (result st).

Definition labelOfSampler (s : Sampler.t) : nat * jsval :=
  (Sampler.order s, Sampler.name s).

Definition labelOfDescriptor (d : ParseJMX.Descriptor) : nat * jsval :=
  (ParseJMX.order d, ParseJMX.name d).

Definition agree (st : walk) (w : ParseJMX.state) : Prop :=
  ParseJMX.counter w = index st /\
  map labelOfDescriptor (ParseJMX.samplers w) = map labelOfSampler (result st).

Definition agrees (node : jsval) : Prop :=
  forall st st' w,
    collectHTTPSamplers node st = Ok st' -> agree st w -> agree st' (ParseJMX.walk node w).

(** The root element of a parsed test plan. *)
Definition planOf (doc : jsval) : jsval :=
  match get doc (js "jmeterTestPlan") with
  | Some plan => plan
  | None => JStr []
  end.

Definition descriptorOk (d : ParseJMX.Descriptor) : Prop :=
  truthy (Some (ParseJMX.name d)) = true /\
  ParseJMX.method d = ParseJMX.getStringProp (ParseJMX.raw d) (js "HTTPSampler.method") /\
  ParseJMX.path d = ParseJMX.getStringProp (ParseJMX.raw d) (js "HTTPSampler.path") /\
  ParseJMX.arguments d = ParseJMX.extractArguments (ParseJMX.raw d) /\
  forall a, In a (ParseJMX.arguments d) -> truthy (Some (ParseJMX.argValue a)) = true.

Definition stateOk (w : ParseJMX.state) : Prop :=
  map ParseJMX.order (ParseJMX.samplers w) = seq 1 (ParseJMX.counter w) /\
  Forall descriptorOk (ParseJMX.samplers w).

(** A sampler whose one string property is its path. *)
Definition loneProps : list (jsstring * jsval) :=
  [(js "_", JStr (js "/orders/1234567"));
   (js "$", JObj [(js "name", JStr (js "HTTPSampler.path"))])].

Definition loneSampler : jsval :=
  JObj [(js "$", JObj [(js "testname", JStr (js "Orders"))]);
        (js "stringProp", JObj loneProps)].

(** ** The samplers of a document *)

(** The samplers the walk pushes, in the order it pushes them: what a node
    holds under [HTTPSamplerProxy] when that is truthy, then what the walk
    pushes for each of its properties in turn. *)
Fixpoint proxiesOf (node : jsval) : list jsval :=
  match node with
  | JStr _ => []
  | JObj props =>
      match lookup (js "HTTPSamplerProxy") props with
      | Some (JArr samplers) => samplers
      | Some (JStr []) => []
      | Some s => [s]
      | None => []
      end ++ flat_map (fun kv => proxiesOf (snd kv)) props
  | JArr elems => flat_map proxiesOf elems
  end.

(** The children a field holds: none, one, or many (§4.1). *)
Definition childrenOf (field : jsstring) (node : jsval) : list jsval :=
  match get node field with
  | None => []
  | Some (JArr children) => children
  | Some child => [child]
  end.

(** The [HTTPSamplerProxy] elements of a parsed document in the order of
    the tree, depth first: the elements of that name among the children of
    an element, each followed by what its own children hold.  Attributes
    (under [$]) are no elements; an element without content is one. *)
Fixpoint requestNodes (node : jsval) : list jsval :=
  match node with
  | JStr _ => []
  | JObj props =>
      flat_map
        (fun kv =>
           if str_eqb (fst kv) (js "$") then []
           else (if str_eqb (fst kv) (js "HTTPSamplerProxy")
                 then ParseJMX.asArray (snd kv) else [])
                ++ requestNodes (snd kv))
        props
  | JArr elems => flat_map requestNodes elems
  end.

Fixpoint distinct (l : list jsstring) : bool :=
  match l with
  | [] => true
  | x :: l' => negb (existsb (str_eqb x) l') && distinct l'
  end.

Definition isText (v : jsval) : bool :=
  match v with JStr _ => true | _ => false end.

(** Attributes are text, and none is called [HTTPSamplerProxy]. *)
Definition plainAttributes (v : jsval) : bool :=
  match v with
  | JObj attrs =>
      forallb (fun kv => isText (snd kv)) attrs &&
      negb (isSome (lookup (js "HTTPSamplerProxy") attrs))
  | _ => false
  end.

(** A regular document: the keys of an object are distinct, its attributes
    are plain, and no element has one [HTTPSamplerProxy] child that is
    empty. *)
Fixpoint regular (node : jsval) : bool :=
  match node with
  | JStr _ => true
  | JObj props =>
      distinct (map fst props) &&
      match lookup (js "HTTPSamplerProxy") props with
      | Some (JStr []) => false
      | _ => true
      end &&
      forallb (fun kv => if str_eqb (fst kv) (js "$") then plainAttributes (snd kv)
                         else regular (snd kv))
              props
  | JArr elems => forallb regular elems
  end.

(** The name [pushSampler] gives the sampler it numbers [i]. *)
Definition samplerName (i : nat) (s : jsval) : jsval :=
  let testname := getOpt (get s (js "$")) (js "testname") in
  match testname with
  | Some v => if truthy testname then v else JStr (js "Sampler-" ++ numberToString i)
  | None => JStr (js "Sampler-" ++ numberToString i)
  end.

(** A sampler inside a controller that precedes two samplers of its
    parent, of which one is empty:
    [<hashTree><GenericController/><hashTree><HTTPSamplerProxy testname="First">
     ...</HTTPSamplerProxy><hashTree/></hashTree><HTTPSamplerProxy testname="Second">
     ...</HTTPSamplerProxy><hashTree/><HTTPSamplerProxy/><hashTree/></hashTree>]. *)
Definition nestedDocument : jsval :=
  JObj [(js "hashTree",
         JObj [(js "GenericController", JStr []);
               (js "hashTree",
                JArr [JObj [(js "HTTPSamplerProxy",
                             httpSampler "First"%string "GET"%string
                                         "/items/abc12345"%string []);
                            (js "hashTree", JStr [])];
                      JStr []; JStr []]);
               (js "HTTPSamplerProxy",
                JArr [httpSampler "Second"%string "GET"%string "/second"%string [];
                      JStr []])])].

(** A sampler inside a controller, ahead of a sampler of the parent:
    [<hashTree><hashTree><HTTPSamplerProxy>first</HTTPSamplerProxy></hashTree>
     <HTTPSamplerProxy>second</HTTPSamplerProxy></hashTree>], the root being
    the outer [hashTree]. *)
Definition controllerDocument (first second : jsval) : jsval :=
  JObj [(js "hashTree", JObj [(js "HTTPSamplerProxy", first)]);
        (js "HTTPSamplerProxy", second)].

Definition nestedPair : jsval :=
  controllerDocument
    (httpSampler "First"%string "GET"%string "/items/abc12345"%string [])
    (httpSampler "Second"%string "GET"%string "/second"%string []).

(** ** Requests as JMeter writes them *)

(** The arguments of a sampler: the [elementProp] children of the
    [collectionProp] children of its [elementProp] children. *)
Definition argumentNodes (sampler : jsval) : list jsval :=
  flat_map (fun block => flat_map (childrenOf (js "elementProp"))
                                  (childrenOf (js "collectionProp") block))
           (childrenOf (js "elementProp") sampler).

(** A field that holds exactly one child element, and one that holds a
    list of children. *)
Definition lone (field : jsstring) (owner : jsval) : bool :=
  match get owner field with Some (JObj _) => true | _ => false end.

Definition several (field : jsstring) (owner : jsval) : bool :=
  match get owner field with Some (JArr _) => true | _ => false end.

(** What [parseJMX] reads as the path of a sampler and as the values of its
    arguments, absent ones included. *)
Definition pathOf (sampler : jsval) : jsval :=
  ParseJMX.getStringProp sampler (js "HTTPSampler.path").

Definition valueOf (arg : jsval) : jsval :=
  ParseJMX.findStringProp arg (js "Argument.value").

(** A sampler the way JMeter writes it: its string properties are a list
    (there are several), it has at most one [elementProp] and that one at
    most one [collectionProp], each of its arguments has a list of string
    properties, and its path and the values of its arguments are text. *)
Definition listShaped (sampler : jsval) : bool :=
  negb (lone (js "stringProp") sampler) &&
  negb (several (js "elementProp") sampler) &&
  forallb (fun block => negb (several (js "collectionProp") block))
          (childrenOf (js "elementProp") sampler) &&
  forallb (fun arg => negb (lone (js "stringProp") arg)) (argumentNodes sampler) &&
  isText (pathOf sampler) &&
  forallb (fun arg => isText (valueOf arg)) (argumentNodes sampler).

(** The text the engine works on: trimmed, and none when it is empty. *)
Definition textOf (v : jsval) : option jsstring :=
  match v with
  | JStr (c :: s) => Some (trim (c :: s))
  | _ => None
  end.

(** The literal set of a request (§4.3), in the order of insertion: the
    values of the query that are not ignorable and the sub-matches of the
    path; then for each argument its value unless it is ignorable, and the
    sub-matches of the value. *)
Definition addText (values : list jsstring) (text : option jsstring) : list jsstring :=
  match text with
  | None => values
  | Some valText =>
      addLiterals
        (match valText with
         | [] => values
         | _ :: _ => if isIgnorable valText then values else SetAdd values valText
         end) valText
  end.

Definition literalSet (path : jsval) (argumentValues : list jsval) : list jsstring :=
  fold_left addText (map textOf argumentValues)
            (match textOf path with
             | Some fullPath => addLiterals (addQueryValues [] fullPath) fullPath
             | None => []
             end).

(** The path of a sampler as the engine takes it: trimmed, and empty when
    there is none; and the values of its arguments, trimmed, those that are
    absent or blank left out. *)
Definition pathText (sampler : jsval) : jsstring :=
  match textOf (pathOf sampler) with
  | Some text => text
  | None => []
  end.

Definition texts (values : list jsval) : list jsstring :=
  flat_map (fun v => match textOf v with
                     | Some (c :: text) => [c :: text]
                     | _ => []
                     end)
           values.

Definition argumentTexts (sampler : jsval) : list jsstring :=
  texts (map valueOf (argumentNodes sampler)).

(** The literal set of a path and of argument values (§4.3), in the order
    of insertion. *)
Definition literalsOf (path : jsstring) (argumentValues : list jsstring) : list jsstring :=
  fold_left (fun values text => addText values (Some text)) argumentValues
            (match path with
             | [] => []
             | _ :: _ => addLiterals (addQueryValues [] path) path
             end).

(** A sampler, written the way JMeter writes it, with the given path and
    the given argument values. *)
Definition isRequest (sampler : jsval) (path : jsstring) (argumentValues : list jsstring)
  : Prop :=
  listShaped sampler = true /\
  pathText sampler = path /\
  argumentTexts sampler = argumentValues.

(** The sampler is called [testname]. *)
Definition isNamed (sampler : jsval) (testname : jsstring) : Prop :=
  getOpt (get sampler (js "$")) (js "testname") = Some (JStr testname).

(** What follows the first [sep], nothing when there is none. *)
Fixpoint afterFirst (sep : char16) (s : jsstring) : jsstring :=
  match s with
  | [] => []
  | c :: s' => if (c =? sep)%N then s' else afterFirst sep s'
  end.

(** The values of the parameters of the query of a path: of what follows
    its first [?]. *)
Definition queryParameters (fullPath : jsstring) : list jsstring :=
  URLSearchParams_values (afterFirst (ch "?") fullPath).

(** The arguments [extractRequestValues] goes through, for comparison. *)
Definition argumentsOf (sampler : jsval) : list jsval :=
  let args :=
    getOpt (getOpt (get sampler (js "elementProp")) (js "collectionProp"))
           (js "elementProp") in
  match args with
  | Some (JArr elems) => elems
  | Some arg => if truthy args then [arg] else []
  | None => []
  end.

(** "Login" sends the token as an argument; "GetProfile" sends it as a
    header, which JMeter keeps in a [HeaderManager] beside the sampler:
    [<hashTree><HTTPSamplerProxy testname="Login">...</HTTPSamplerProxy><hashTree/>
     <HTTPSamplerProxy testname="GetProfile">...</HTTPSamplerProxy>
     <hashTree><HeaderManager>...</HeaderManager><hashTree/></hashTree></hashTree>]. *)
Definition headerDocument : jsval :=
  JObj [(js "jmeterTestPlan",
         JObj [attributes [("version", "1.2")]%string;
               (js "hashTree",
                JObj [(js "HTTPSamplerProxy",
                       JArr [httpSampler "Login"%string "POST"%string String.EmptyString
                                         [argument "token"%string "eyJabc.def.ghi"%string];
                             httpSampler "GetProfile"%string "GET"%string
                                         String.EmptyString []]);
                      (js "hashTree",
                       JArr [JStr [];
                             JObj [(js "HeaderManager",
                                    JObj [attributes [("testname", "Headers")]%string;
                                          (js "collectionProp",
                                           JObj [attributes [("name", "HeaderManager.headers")]%string;
                                                 (js "elementProp",
                                                  JObj [attributes [("name", "");
                                                                    ("elementType", "Header")]%string;
                                                        (js "stringProp",
                                                         JArr [stringProp "Header.name"%string
                                                                          "Authorization"%string;
                                                               stringProp "Header.value"%string
                                                                          "eyJabc.def.ghi"%string])])])]);
                                   (js "hashTree", JStr [])]])])])].

(** A sampler with a path, a query and two arguments, in spaces. *)
Definition nextSampler : jsval :=
  httpSampler "Next"%string "GET"%string " /orders/1234567?sid=k9x7&t=true"%string
              [argument "user"%string "alice smith 99x "%string;
               argument "card"%string "4111111111111"%string].

(** A sampler that uploads a file: it has two [elementProp] children, the
    files and the arguments. *)
Definition filesSampler : jsval :=
  JObj [attributes [("testclass", "HTTPSamplerProxy"); ("testname", "Upload")]%string;
        (js "elementProp",
         JArr [JObj [attributes [("name", "HTTPsampler.Files");
                                 ("elementType", "HTTPFileArgs")]%string];
               snd (arguments [argument "token"%string "eyJabc.def.ghi"%string])]);
        (js "stringProp",
         JArr [stringProp "HTTPSampler.path"%string String.EmptyString;
               stringProp "HTTPSampler.method"%string "POST"%string])].

(** What [parseJMX] returns for [repeatDocument]. *)
Definition repeatDescriptors : list ParseJMX.Descriptor :=
  [ParseJMX.mk 1 (JStr (js "Login")) (JStr (js "POST")) (JStr (js "/login"))
               [ParseJMX.mkArgument (JStr (js "token")) (JStr (js "abc12345"));
                ParseJMX.mkArgument (JStr (js "session")) (JStr (js "abc12345"))]
               (httpSampler "Login"%string "POST"%string "/login"%string
                            [argument "token"%string "abc12345"%string;
                             argument "session"%string "abc12345"%string]);
   ParseJMX.mk 2 (JStr (js "Next")) (JStr (js "GET"))
               (JStr (js "/items/abc12345?ref=abc12345")) []
               (httpSampler "Next"%string "GET"%string
                            "/items/abc12345?ref=abc12345"%string [])].

(** What pushing a list of samplers appends: one sampler for each, numbered
    from the counter on, with the name and the values of its node. *)
Definition pushedFrom (s : jsval) (sampler : Sampler.t) : Prop :=
  Sampler.name sampler = samplerName (Sampler.order sampler) s /\
  extractRequestValues s = Ok (Sampler.requestValues sampler).

(** * Properties *)

(** ** Strings *)

Lemma str_eqb_eq (a b : jsstring) : str_eqb a b = true <-> a = b.
Proof.
  revert b; induction a as [|x a IH]; intros [|y b]; simpl;
    try (split; congruence).
  rewrite andb_true_iff, N.eqb_eq, IH. split.
  - intros [-> ->]; reflexivity.
  - intros E; injection E; auto.
Qed.

Lemma str_eqb_refl (a : jsstring) : str_eqb a a = true.
Proof. apply str_eqb_eq; reflexivity. Qed.

Lemma str_eqb_neq (a b : jsstring) : str_eqb a b = false <-> a <> b.
Proof.
  rewrite <- str_eqb_eq. destruct (str_eqb a b); split; congruence.
Qed.

Lemma str_eqb_sym (a b : jsstring) : str_eqb a b = str_eqb b a.
Proof.
  destruct (str_eqb b a) eqn:E.
  - apply str_eqb_eq. apply str_eqb_eq in E. congruence.
  - apply str_eqb_neq. apply str_eqb_neq in E. congruence.
Qed.

Lemma stripPrefix_length (p s s' : jsstring) :
  stripPrefix p s = Some s' -> length s = length p + length s'.
Proof.
  revert s; induction p as [|x p IH]; intros s; simpl.
  - intros E; injection E as ->; reflexivity.
  - destruct s as [|y s]; [discriminate|].
    destruct (x =? y)%N; [|discriminate].
    intros E; simpl; rewrite (IH _ E); reflexivity.
Qed.

Lemma split_length (sep : char16) (s : jsstring) :
  length (split sep s) = S (count_occ N.eq_dec s sep).
Proof.
  induction s as [|c s IH]; simpl; [reflexivity|].
  destruct (N.eqb_spec c sep) as [->|NE].
  - destruct (N.eq_dec sep sep); [|congruence]. simpl; rewrite IH; reflexivity.
  - destruct (N.eq_dec c sep); [congruence|].
    destruct (split sep s); simpl in *; [discriminate|assumption].
Qed.

(** ** The matcher *)

Section Repeat.
Variable cls : char16 -> bool.
Variable k : option char16 -> jsstring -> option nat.

Lemma repeatMatcher_bounds (a : nat) :
  (forall prev s n, k prev s = Some n -> a <= n <= length s) ->
  forall s lo hi prev n,
    repeatMatcher cls lo hi k prev s = Some n ->
    quantMin lo hi + a <= n <= length s.
Proof.
  intros Hk. induction s as [|c s IH]; intros lo hi prev n; simpl.
  - destruct (exhausted hi) eqn:X.
    + destruct hi as [[|h]|]; try discriminate. intros E.
      apply Hk in E. simpl in *. lia.
    + destruct (Nat.eqb_spec lo 0) as [->|]; [|discriminate].
      intros E. apply Hk in E. destruct hi; simpl in *; lia.
  - destruct (exhausted hi) eqn:X.
    + destruct hi as [[|h]|]; try discriminate. intros E.
      apply Hk in E. simpl in *. lia.
    + assert (Stop : (if (lo =? 0)%nat then k prev (c :: s) else None) = Some n ->
                     quantMin lo hi + a <= n <= S (length s)).
      { destruct (Nat.eqb_spec lo 0) as [->|]; [|discriminate].
        intros E. apply Hk in E. destruct hi; simpl in *; lia. }
      destruct (cls c); [|exact Stop].
      destruct (repeatMatcher cls (pred lo) (option_map pred hi) k (Some c) s)
        as [m|] eqn:R; [|exact Stop].
      intros E; injection E as <-. apply IH in R.
      destruct hi as [h|]; simpl in *; lia.
Qed.

Lemma repeatMatcher_first (Q : Prop) (c : char16) (s : jsstring) :
  (forall prev n, k prev (c :: s) = Some n -> 0 < n -> Q) ->
  forall lo hi prev n,
    repeatMatcher cls lo hi k prev (c :: s) = Some n -> 0 < n ->
    cls c = true \/ Q.
Proof.
  intros Hk lo hi prev n. simpl.
  destruct (exhausted hi); [intros E L; right; eauto|].
  destruct (cls c); [left; reflexivity|].
  destruct (lo =? 0)%nat; [|discriminate].
  intros E L; right; eauto.
Qed.

(** A quantifier with an exact count. *)
Lemma repeatMatcher_exact (n : nat) :
  forall prev s,
    repeatMatcher cls n (Some n) k prev s =
    if (n <=? length s)%nat && forallb cls (firstn n s)
    then option_map (Nat.add n) (k (lastOr prev (firstn n s)) (skipn n s))
    else None.
Proof.
  induction n as [|n IH]; intros prev s.
  - unfold lastOr. destruct s; simpl; destruct (k prev _); reflexivity.
  - destruct s as [|c s]; simpl; [reflexivity|].
    destruct (cls c); simpl; [|rewrite andb_false_r; reflexivity].
    rewrite IH.
    destruct ((n <=? length s)%nat && forallb cls (firstn n s)); [|reflexivity].
    replace (lastOr prev (c :: firstn n s)) with (lastOr (Some c) (firstn n s)).
    + destruct (k _ _); reflexivity.
    + unfold lastOr. simpl. destruct (rev (firstn n s)); reflexivity.
Qed.
End Repeat.

Lemma matchNodes_bounds (p : pattern) :
  forall prev s n, matchNodes p prev s = Some n -> minLength p <= n <= length s.
Proof.
  induction p as [|[| | |l|cls lo hi] p IH]; intros prev s n; simpl.
  - intros E; injection E as <-; lia.
  - destruct prev; [discriminate|]. apply IH.
  - destruct s; [|discriminate]. apply IH.
  - destruct (xorb _ _); [|discriminate]. apply IH.
  - destruct (stripPrefix l s) as [s'|] eqn:P; [|discriminate].
    destruct (matchNodes p (lastOr prev l) s') as [m|] eqn:M; [|discriminate].
    simpl. intros E; injection E as <-.
    apply IH in M. apply stripPrefix_length in P. lia.
  - intros E. eapply repeatMatcher_bounds in E; [exact E|]. exact IH.
Qed.

Lemma matchNodes_first (p : pattern) (c : char16) (s : jsstring) :
  forall prev n, matchNodes p prev (c :: s) = Some n -> 0 < n -> firstChar p c = true.
Proof.
  induction p as [|[| | |l|cls lo hi] p IH]; intros prev n; simpl.
  - intros E; injection E as <-; lia.
  - destruct prev; [discriminate|]. apply IH.
  - discriminate.
  - destruct (xorb _ _); [|discriminate]. apply IH.
  - destruct l as [|x l].
    + simpl. destruct (matchNodes p (lastOr prev []) (c :: s)) eqn:M; [|discriminate].
      simpl. intros E L; injection E as <-. eapply IH; eassumption.
    + simpl. destruct (N.eqb_spec x c); [reflexivity|discriminate].
  - intros E L. eapply repeatMatcher_first in E; eauto.
    destruct E as [->| ->]; [reflexivity | apply orb_true_r].
Qed.

(** Every string the [exec] loop pushes is the text of some match. *)
Lemma execAll_In (p : pattern) (m : jsstring) :
  forall s prev skip,
    In m (execAll p prev s skip) ->
    exists prev' s' n, matchNodes p prev' s' = Some n /\ m = firstn n s'.
Proof.
  induction s as [|c s IH]; intros prev skip; simpl; [tauto|].
  destruct skip as [|k]; [|apply IH].
  destruct (matchNodes p prev (c :: s)) as [n|] eqn:M; [|apply IH].
  intros [<-|H]; [eauto | eapply IH; eassumption].
Qed.

(** No pattern of the engine matches the empty string. *)
Lemma matchNodes_nonempty (p : pattern) (prev : option char16) (s : jsstring) (n : nat) :
  In p [uuidRegex; jwtRegex; numRegex; alphaNumRegex] ->
  matchNodes p prev s = Some n -> 6 <= n.
Proof.
  intros Hp M. apply matchNodes_bounds in M.
  simpl in Hp. destruct Hp as [<-|[<-|[<-|[<-|[]]]]]; simpl in M; lia.
Qed.

Lemma literal_not_ignorable (p : pattern) (prev : option char16) (s : jsstring) (n : nat) :
  6 <= minLength p ->
  firstChar p (ch "$") = false ->
  matchNodes p prev s = Some n ->
  let m := firstn n s in
  6 <= length m /\ startsWith m (js "${") = false /\
  m <> js "true" /\ m <> js "false" /\ isIgnorable m = false.
Proof.
  intros Hmin Hfirst M m.
  pose proof (matchNodes_bounds _ _ _ _ M) as B.
  assert (L : length m = n) by (apply firstn_length_le; lia).
  assert (S1 : startsWith m (js "${") = false).
  { subst m. destruct s as [|c s]; [simpl in B; lia|].
    destruct n as [|n]; [lia|].
    apply matchNodes_first in M; [|lia].
    unfold startsWith. change (js "${") with (ch "$" :: js "{").
    cbn [firstn stripPrefix].
    destruct (N.eqb_spec (ch "$") c) as [<-|]; [congruence|reflexivity]. }
  assert (T : m <> js "true") by (intros E; rewrite E in L; simpl in L; lia).
  assert (F : m <> js "false") by (intros E; rewrite E in L; simpl in L; lia).
  repeat split; try assumption; try lia.
  unfold isIgnorable. destruct m as [|c m']; [simpl in L; lia|].
  rewrite S1.
  apply str_eqb_neq in T, F. rewrite T, F. simpl orb. cbv iota.
  destruct (Nat.ltb_spec (length (c :: m')) 4); [lia|reflexivity].
Qed.

(** ** Sub-matches of the pattern suite *)

Example extractLiterals_token :
  extractLiterals (js "eyJabc.def.ghi") = [js "eyJabc.def.ghi"; js "eyJabc"].
Proof. vm_compute. reflexivity. Qed.

Example extractLiterals_path :
  extractLiterals (js "/orders/123?status=true") = [js "orders"; js "status"].
Proof. vm_compute. reflexivity. Qed.

Example extractLiterals_mixed :
  extractLiterals (js "id=018EE423-7e8a-4c2e-9b1a-2f6e5d7c8b90&n=1234567890123456 12345678")
  = [js "018EE423-7e8a-4c2e-9b1a-2f6e5d7c8b90"; js "12345678"; js "018EE423";
     js "2f6e5d7c8b90"; js "1234567890123456"; js "12345678"].
Proof. vm_compute. reflexivity. Qed.

Example extractLiterals_word_bounds :
  extractLiterals (js "abcdefghijklmnopqrstuvwxyz 123456789012345 abc_defghi 12345-678901")
  = [js "678901"; js "123456789012345"; js "678901"].
Proof. vm_compute. reflexivity. Qed.

Example URLSearchParams_values_example :
  URLSearchParams_values (js "status=true&x=a+b%20c&&y&=z&c=%2B%zz&d=1=2")
  = [js "true"; js "a b c"; []; js "z"; js "+%zz"; js "1=2"].
Proof. vm_compute. reflexivity. Qed.

(** A value that [decodeURIComponent] rejects is read from a buffer of
    bytes: a code unit above 255 or outside ASCII loses what UTF-8 would
    have kept. *)
Example URLSearchParams_values_fallback :
  URLSearchParams_values (js "a=" ++ [233%N] ++ js "%C3%A9&b=" ++ [233%N] ++ js "%FF&c=%4+1")
  = [[233%N; 233%N]; [65533%N; 65533%N]; js "%4 1"].
Proof. vm_compute. reflexivity. Qed.

(** C10: every sub-match [extractLiterals] returns has at least 6 code
    units, does not begin with the parameter-substitution prefix and is
    neither "true" nor "false": [isIgnorable] rejects none of them. *)
Theorem extractLiterals_not_ignorable (text m : jsstring) :
  In m (extractLiterals text) ->
  6 <= length m /\ startsWith m (js "${") = false /\
  m <> js "true" /\ m <> js "false" /\ isIgnorable m = false.
Proof.
  unfold extractLiterals. destruct text as [|c text]; [contradiction|].
  intros H. apply in_flat_map in H. destruct H as (r & Hr & H).
  apply execAll_In in H. destruct H as (prev & s & n & M & ->).
  simpl in Hr.
  destruct Hr as [<-|[<-|[<-|[<-|[]]]]];
    (refine (literal_not_ignorable _ _ _ _ _ _ M); [simpl; lia | reflexivity]).
Qed.

Lemma extractLiterals_not_ignorable_witness :
  In (js "orders") (extractLiterals (js "/orders/123?status=true")) /\
  6 <= length (js "orders") /\ startsWith (js "orders") (js "${") = false /\
  js "orders" <> js "true" /\ js "orders" <> js "false" /\
  isIgnorable (js "orders") = false.
Proof.
  assert (H : In (js "orders") (extractLiterals (js "/orders/123?status=true")))
    by (vm_compute; auto).
  split; [exact H|].
  exact (extractLiterals_not_ignorable (js "/orders/123?status=true") (js "orders") H).
Defined.

(** ** Confidence *)

(** C6: the confidence is HIGH for three occurrences or more and for a value
    classified JWT_TOKEN or UUID, else MEDIUM for one classified NUMERIC_ID,
    else LOW. *)
Theorem calculateConfidence_by_class (O : Type) (v : jsstring) (occurrences : list O) :
  calculateConfidence v occurrences =
  if (3 <=? length occurrences)%nat then HIGH
  else match classifyValue v with
       | JWT_TOKEN | UUID => HIGH
       | NUMERIC_ID => MEDIUM
       | GENERIC_DYNAMIC_VALUE | UNKNOWN => LOW
       end.
Proof.
  unfold calculateConfidence, classifyValue.
  destruct (3 <=? length occurrences)%nat; [reflexivity|].
  destruct (looksLikeJWT v); [reflexivity|].
  destruct (looksLikeUUID v); [reflexivity|].
  destruct (looksLikeNumericId v); [reflexivity|].
  destruct (looksLikeAlphaNumeric v); reflexivity.
Qed.

(** ** Character classes *)

Lemma hex_ignoreCase (c : char16) : ignoreCase isHexLower c = isHexDigit c.
Proof.
  unfold isHexDigit. unfold_classes.
  destruct ((65 <=? c)%N && (c <=? 90)%N) eqn:U;
    destruct ((97 <=? c)%N && (c <=? 122)%N) eqn:L; to_props;
    apply eq_true_iff_eq;
    rewrite ?orb_true_iff, ?andb_true_iff, ?N.leb_le; lia.
Qed.

Lemma isDigit_isAlphaNum (c : char16) : isDigit c = true -> isAlphaNum c = true.
Proof. unfold isAlphaNum. intros ->. apply orb_true_r. Qed.

Lemma isDigit_isHexDigit (c : char16) : isDigit c = true -> isHexDigit c = true.
Proof. unfold isHexDigit. intros ->. reflexivity. Qed.

Lemma forallb_impl {A : Type} (f g : A -> bool) (l : list A) :
  (forall x, f x = true -> g x = true) -> forallb f l = true -> forallb g l = true.
Proof.
  intros H. rewrite !forallb_forall. auto.
Qed.

Lemma forallb_eq {A : Type} (f g : A -> bool) (l : list A) :
  (forall x, f x = g x) -> forallb f l = forallb g l.
Proof.
  intros H. induction l as [|x l IH]; simpl; [reflexivity|].
  rewrite H, IH; reflexivity.
Qed.

(** ** Anchored patterns *)

Lemma isSome_option_map {A B : Type} (f : A -> B) (o : option A) :
  isSome (option_map f o) = isSome o.
Proof. destruct o; reflexivity. Qed.

(** A pattern that begins with [^] matches at index 0 or nowhere. *)
Lemma test_anchored (p : pattern) (v : jsstring) :
  test (AssertStart :: p) None v = isSome (matchNodes (AssertStart :: p) None v).
Proof.
  assert (H : forall s c, test (AssertStart :: p) (Some c) s = false)
    by (induction s as [|d s IH]; intros c; simpl; auto).
  destruct v as [|c v]; simpl.
  - destruct (matchNodes p None []); reflexivity.
  - destruct (matchNodes p None (c :: v)); [reflexivity|apply H].
Qed.

(** [^[cls]{lo,hi}$] *)
Lemma repeatMatcher_whole (cls : char16 -> bool) :
  forall s lo hi prev,
    lo <= hi ->
    isSome (repeatMatcher cls lo (Some hi) (matchNodes [AssertEnd]) prev s) =
    (lo <=? length s)%nat && (length s <=? hi)%nat && forallb cls s.
Proof.
  induction s as [|c s IH]; intros lo hi prev Hle.
  - destruct hi as [|h]; simpl.
    + assert (lo = 0) as -> by lia. reflexivity.
    + destruct lo; reflexivity.
  - destruct hi as [|h].
    + simpl. rewrite andb_false_r. reflexivity.
    + cbn [repeatMatcher exhausted option_map pred matchNodes forallb length].
      replace (if (lo =? 0)%nat then None else None) with (@None nat)
        by (destruct lo; reflexivity).
      destruct (cls c).
      * specialize (IH (pred lo) h (Some c)).
        transitivity (isSome (repeatMatcher cls (pred lo) (Some h)
                                (matchNodes [AssertEnd]) (Some c) s)).
        { destruct (repeatMatcher cls (pred lo) (Some h) _ (Some c) s); reflexivity. }
        rewrite IH by lia. destruct lo; reflexivity.
      * rewrite andb_false_r. reflexivity.
Qed.

Lemma dashed_whole (sizes : list nat) :
  sizes <> [] ->
  forall prev s,
    isSome (matchNodes (dashed sizes ++ [AssertEnd]) prev s) = dashedHex sizes s.
Proof.
  induction sizes as [|n sizes IH]; [congruence|]. intros _ prev s.
  destruct sizes as [|m sizes].
  - cbn [dashed dashedHex app matchNodes hex].
    rewrite repeatMatcher_exact, (forallb_eq _ _ _ hex_ignoreCase).
    destruct ((n <=? length s)%nat && forallb isHexDigit (firstn n s)) eqn:C;
      [|reflexivity].
    rewrite isSome_option_map. cbn [matchNodes andb].
    apply andb_true_iff in C. destruct C as [C _]. apply Nat.leb_le in C.
    destruct (skipn n s) as [|d r] eqn:K.
    + apply (f_equal (@length _)) in K. rewrite length_skipn in K. simpl in K.
      symmetry. apply Nat.eqb_eq. lia.
    + apply (f_equal (@length _)) in K. rewrite length_skipn in K. simpl in K.
      symmetry. apply Nat.eqb_neq. lia.
  - change (dashed (n :: m :: sizes)) with (hex n :: dash :: dashed (m :: sizes)).
    change (dashedHex (n :: m :: sizes) s) with
      ((n <=? length s)%nat && forallb isHexDigit (firstn n s) &&
       match skipn n s with
       | c :: rest => isChar "-" c && dashedHex (m :: sizes) rest
       | [] => false
       end).
    cbn [app matchNodes hex].
    rewrite repeatMatcher_exact, (forallb_eq _ _ _ hex_ignoreCase).
    destruct ((n <=? length s)%nat && forallb isHexDigit (firstn n s)); [|reflexivity].
    rewrite isSome_option_map. cbn [andb].
    unfold dash. change (js "-") with [ch "-"]. cbn [matchNodes stripPrefix].
    destruct (skipn n s) as [|d r]; [reflexivity|].
    unfold isChar. rewrite N.eqb_sym.
    destruct (d =? ch "-")%N; [|reflexivity].
    rewrite isSome_option_map. cbn [andb]. apply IH. congruence.
Qed.

(** ** Classification *)

Lemma looksLikeUUID_shape (v : jsstring) : looksLikeUUID v = shapeUUID v.
Proof.
  unfold looksLikeUUID, shapeUUID.
  change ([AssertStart] ++ uuidBody ++ [AssertEnd])
    with (AssertStart :: dashed [8; 4; 4; 4; 12] ++ [AssertEnd]).
  rewrite test_anchored. cbn [matchNodes].
  apply dashed_whole. discriminate.
Qed.

Lemma looksLikeNumericId_shape (v : jsstring) : looksLikeNumericId v = shapeNumeric v.
Proof.
  unfold looksLikeNumericId, shapeNumeric. rewrite test_anchored.
  cbn [matchNodes]. apply repeatMatcher_whole. lia.
Qed.

Lemma looksLikeAlphaNumeric_shape (v : jsstring) :
  looksLikeAlphaNumeric v = shapeAlphaNumeric v.
Proof.
  unfold looksLikeAlphaNumeric, shapeAlphaNumeric. rewrite test_anchored.
  cbn [matchNodes]. apply repeatMatcher_whole. lia.
Qed.

Lemma looksLikeJWT_dots (v : jsstring) : looksLikeJWT v = prefixAndTwoDots v.
Proof.
  unfold looksLikeJWT, prefixAndTwoDots. rewrite split_length. reflexivity.
Qed.

Example classifyValue_examples :
  map classifyValue
      [js "eyJabc.def.ghi"; js "018ee423-7e8a-4c2e-9b1a-2f6e5d7c8b90"; js "12345678901234";
       js "123456789012345"; js "abc12"; js "eyJa.b.c.d"; js "eyJ.."]
  = [JWT_TOKEN; UUID; NUMERIC_ID; GENERIC_DYNAMIC_VALUE; UNKNOWN; UNKNOWN; JWT_TOKEN].
Proof. vm_compute. reflexivity. Qed.

(** C5, as the code has it: the tag is that of the first predicate the value
    satisfies, in the order JWT_TOKEN, UUID, NUMERIC_ID,
    GENERIC_DYNAMIC_VALUE, else UNKNOWN; the UUID, numeric and alphanumeric
    predicates are the shapes of the pattern suite on the whole value; the
    JWT predicate is the prefix "eyJ" and exactly two dots. *)
Theorem classifyValue_first_match (v : jsstring) :
  classifyValue v =
  if prefixAndTwoDots v then JWT_TOKEN
  else if shapeUUID v then UUID
  else if shapeNumeric v then NUMERIC_ID
  else if shapeAlphaNumeric v then GENERIC_DYNAMIC_VALUE
  else UNKNOWN.
Proof.
  unfold classifyValue.
  rewrite looksLikeJWT_dots, looksLikeUUID_shape, looksLikeNumericId_shape,
    looksLikeAlphaNumeric_shape.
  reflexivity.
Qed.

(** C5, as stated, fails: a value with the prefix and two dots is tagged
    JWT_TOKEN whatever its other characters, where the JWT shape of the
    pattern suite (also as the anchored pattern) does not hold. *)
Lemma classifyValue_not_by_shape :
  classifyValue (js "eyJ?.!.*") = JWT_TOKEN /\
  classifyByShape (js "eyJ?.!.*") = UNKNOWN /\
  test ([AssertStart] ++ jwtRegex ++ [AssertEnd]) None (js "eyJ?.!.*") = false.
Proof. vm_compute. auto. Qed.

(** ** Sets and maps in insertion order *)

Lemma existsb_str_eqb (v : jsstring) (l : list jsstring) :
  existsb (str_eqb v) l = true <-> In v l.
Proof.
  rewrite existsb_exists. split.
  - intros (x & Hx & E). apply str_eqb_eq in E. congruence.
  - intros H. exists v. split; [assumption|apply str_eqb_refl].
Qed.

Lemma SetAdd_NoDup (values : list jsstring) (v : jsstring) :
  NoDup values -> NoDup (SetAdd values v).
Proof.
  intros H. unfold SetAdd. destruct (existsb (str_eqb v) values) eqn:E; [assumption|].
  apply NoDup_app; [assumption| | ].
  - constructor; [simpl; tauto|constructor].
  - intros x Hx [<-|[]]. apply existsb_str_eqb in Hx. congruence.
Qed.

Lemma fold_SetAdd_NoDup (vs values : list jsstring) :
  NoDup values -> NoDup (fold_left SetAdd vs values).
Proof.
  revert values; induction vs as [|v vs IH]; intros values H; simpl; [assumption|].
  apply IH, SetAdd_NoDup, H.
Qed.

Lemma filter_filter {A : Type} (f g : A -> bool) (l : list A) :
  filter f (filter g l) = filter (fun x => g x && f x) l.
Proof.
  induction l as [|x l IH]; simpl; [reflexivity|].
  destruct (g x); simpl; [destruct (f x)|]; rewrite ?IH; reflexivity.
Qed.

Lemma fold_SetAdd_firstSeen (l acc : list jsstring) :
  fold_left SetAdd l acc =
  acc ++ filter (fun y => negb (existsb (str_eqb y) acc)) (firstSeen l).
Proof.
  revert acc; induction l as [|x l IH]; intros acc; simpl.
  - rewrite app_nil_r; reflexivity.
  - rewrite IH. unfold SetAdd. rewrite filter_filter.
    destruct (existsb (str_eqb x) acc) eqn:E; simpl.
    + f_equal. apply filter_ext. intros y.
      destruct (str_eqb x y) eqn:Exy; simpl; [|reflexivity].
      apply str_eqb_eq in Exy. subst y. rewrite E. reflexivity.
    + rewrite <- app_assoc. simpl. do 2 f_equal. apply filter_ext. intros y.
      rewrite existsb_app. simpl. rewrite orb_false_r, negb_orb.
      rewrite (str_eqb_sym y x). apply andb_comm.
Qed.

Lemma firstSeen_incl (l : list jsstring) (x : jsstring) : In x (firstSeen l) -> In x l.
Proof.
  induction l as [|y l IH]; simpl; [tauto|].
  intros [->|H]; [left; reflexivity|].
  apply filter_In in H. right. apply IH, H.
Qed.

Lemma keys_MapPush (index : ValueIndex) (v : jsstring) (o : Occurrence.t) :
  keys (MapPush index v o) = SetAdd (keys index) v.
Proof.
  unfold SetAdd, keys. induction index as [|[k occs] index IH]; simpl; [reflexivity|].
  rewrite (str_eqb_sym v k). destruct (str_eqb k v); simpl; [reflexivity|].
  rewrite IH. destruct (existsb (str_eqb v) (map fst index)); reflexivity.
Qed.

Lemma keys_pushAll (events : list (jsstring * Occurrence.t)) (index : ValueIndex) :
  keys (pushAll index events) = fold_left SetAdd (map fst events) (keys index).
Proof.
  revert index; induction events as [|e events IH]; intros index; simpl; [reflexivity|].
  unfold pushAll in *. simpl. rewrite IH, keys_MapPush. reflexivity.
Qed.

Lemma MapGet_MapPush (index : ValueIndex) (v v' : jsstring) (o : Occurrence.t) :
  MapGet (MapPush index v o) v' =
  if str_eqb v v' then MapGet index v' ++ [o] else MapGet index v'.
Proof.
  unfold MapGet. induction index as [|[k occs] index IH]; simpl.
  - destruct (str_eqb v v'); reflexivity.
  - destruct (str_eqb k v) eqn:Ekv; simpl.
    + apply str_eqb_eq in Ekv. subst k.
      destruct (str_eqb v v'); reflexivity.
    + destruct (str_eqb k v') eqn:Ekv'; simpl; [|exact IH].
      apply str_eqb_eq in Ekv'. subst k.
      rewrite str_eqb_sym, Ekv. reflexivity.
Qed.

Lemma MapGet_pushAll (events : list (jsstring * Occurrence.t)) (v : jsstring) :
  forall index,
    MapGet (pushAll index events) v =
    MapGet index v ++ map snd (filter (fun e => str_eqb (fst e) v) events).
Proof.
  induction events as [|e events IH]; intros index; simpl.
  - rewrite app_nil_r; reflexivity.
  - unfold pushAll in *. simpl. rewrite IH, MapGet_MapPush.
    destruct (str_eqb (fst e) v); simpl; [rewrite <- app_assoc|]; reflexivity.
Qed.

Lemma MapGet_In (index : ValueIndex) (v : jsstring) (occs : list Occurrence.t) :
  NoDup (keys index) -> In (v, occs) index -> MapGet index v = occs.
Proof.
  unfold MapGet, keys. induction index as [|[k o] index IH]; simpl; [tauto|].
  intros ND [E|H].
  - injection E as -> ->. rewrite str_eqb_refl. reflexivity.
  - inversion ND as [|? ? Hk ND']; subst.
    destruct (str_eqb k v) eqn:E; simpl.
    + apply str_eqb_eq in E. subst k. exfalso. apply Hk.
      apply (in_map fst) in H. exact H.
    + apply IH; assumption.
Qed.

(** ** The value index *)

Lemma indexSampler_pushAll (sampler : Sampler.t) (index : ValueIndex) :
  indexSampler index sampler = pushAll index (pushesOf sampler).
Proof.
  unfold indexSampler, pushesOf, pushAll, significant.
  revert index. induction (Sampler.requestValues sampler) as [|v vs IH];
    intros index; simpl; [reflexivity|].
  destruct (isIgnorable v); simpl; apply IH.
Qed.

Lemma buildValueIndex_pushAll (samplers : list Sampler.t) :
  buildValueIndex samplers = pushAll [] (pushes samplers).
Proof.
  unfold buildValueIndex, pushes. generalize (@nil (jsstring * list Occurrence.t)).
  induction samplers as [|s samplers IH]; intros index; simpl; [reflexivity|].
  rewrite IH, indexSampler_pushAll. unfold pushAll. rewrite fold_left_app. reflexivity.
Qed.

Lemma pushes_values (samplers : list Sampler.t) :
  map fst (pushes samplers) =
  filter significant (flat_map Sampler.requestValues samplers).
Proof.
  unfold pushes. induction samplers as [|s samplers IH]; simpl; [reflexivity|].
  rewrite map_app, filter_app, IH. f_equal.
  unfold pushesOf. rewrite map_map. simpl. apply map_id.
Qed.

(** The keys of the index: the significant values, in first-seen order. *)
Lemma buildValueIndex_keys (samplers : list Sampler.t) :
  keys (buildValueIndex samplers) =
  firstSeen (filter significant (flat_map Sampler.requestValues samplers)).
Proof.
  rewrite buildValueIndex_pushAll, keys_pushAll, fold_SetAdd_firstSeen, pushes_values.
  simpl. induction (firstSeen _) as [|x l IH]; simpl; congruence.
Qed.

Lemma buildValueIndex_keys_NoDup (samplers : list Sampler.t) :
  NoDup (keys (buildValueIndex samplers)).
Proof.
  rewrite buildValueIndex_pushAll, keys_pushAll.
  apply fold_SetAdd_NoDup. constructor.
Qed.

Lemma buildValueIndex_significant (samplers : list Sampler.t) (v : jsstring) :
  In v (keys (buildValueIndex samplers)) -> isIgnorable v = false.
Proof.
  rewrite buildValueIndex_keys. intros H. apply firstSeen_incl, filter_In in H.
  destruct H as [_ H]. unfold significant in H. destruct (isIgnorable v); [discriminate|reflexivity].
Qed.

Lemma pushesOf_entry (sampler : Sampler.t) (v : jsstring) :
  isIgnorable v = false ->
  NoDup (Sampler.requestValues sampler) ->
  map snd (filter (fun e => str_eqb (fst e) v) (pushesOf sampler)) =
  if uses v sampler then [occurrenceOf sampler] else [].
Proof.
  intros Hv. unfold pushesOf, uses.
  induction (Sampler.requestValues sampler) as [|x l IH]; intros ND; simpl; [reflexivity|].
  inversion ND as [|? ? Hx ND']; subst.
  rewrite (str_eqb_sym v x).
  destruct (str_eqb x v) eqn:E.
  - apply str_eqb_eq in E. subst x. unfold significant at 1. rewrite Hv. simpl.
    rewrite str_eqb_refl. simpl. rewrite (IH ND').
    destruct (existsb (str_eqb v) l) eqn:X; [|reflexivity].
    apply existsb_str_eqb in X. contradiction.
  - destruct (significant x); simpl; [rewrite E|]; apply IH, ND'.
Qed.

Lemma pushes_entry (samplers : list Sampler.t) (v : jsstring) :
  isIgnorable v = false ->
  Forall (fun s => NoDup (Sampler.requestValues s)) samplers ->
  map snd (filter (fun e => str_eqb (fst e) v) (pushes samplers)) =
  map occurrenceOf (filter (uses v) samplers).
Proof.
  intros Hv. unfold pushes. induction 1 as [|s samplers Hs _ IH]; simpl; [reflexivity|].
  rewrite filter_app, map_app, IH, (pushesOf_entry _ _ Hv Hs).
  destruct (uses v s); reflexivity.
Qed.

(** The entry of a value: one occurrence for each sampler that uses it, in
    the order of the samplers. *)
Lemma buildValueIndex_entry (samplers : list Sampler.t) (v : jsstring)
    (occurrences : list Occurrence.t) :
  Forall (fun s => NoDup (Sampler.requestValues s)) samplers ->
  In (v, occurrences) (buildValueIndex samplers) ->
  occurrences = map occurrenceOf (filter (uses v) samplers).
Proof.
  intros ND H.
  assert (Hv : isIgnorable v = false).
  { apply (buildValueIndex_significant samplers). apply (in_map fst) in H. exact H. }
  rewrite <- (MapGet_In _ _ _ (buildValueIndex_keys_NoDup samplers) H).
  rewrite buildValueIndex_pushAll, MapGet_pushAll. simpl.
  apply pushes_entry; assumption.
Qed.

Lemma filter_orders_NoDup (f : Sampler.t -> bool) (samplers : list Sampler.t) :
  NoDup (map Sampler.order samplers) ->
  NoDup (map Occurrence.order (map occurrenceOf (filter f samplers))).
Proof.
  rewrite map_map. simpl.
  induction samplers as [|s samplers IH]; simpl; intros ND; [constructor|].
  inversion ND as [|? ? Hs ND']; subst.
  destruct (f s); simpl; [|auto].
  constructor; [|auto].
  intros H. apply Hs. apply in_map_iff in H. destruct H as (x & <- & Hx).
  apply filter_In in Hx. apply in_map, Hx.
Qed.

(** ** The walk *)

Lemma forEach_invariant {A S : Type} (I : S -> Prop) (body : S -> A -> outcome S)
    (xs : list A) :
  (forall st x st', I st -> body st x = Ok st' -> I st') ->
  forall st st', I st -> forEach body xs st = Ok st' -> I st'.
Proof.
  intros Hb. induction xs as [|x xs IH]; intros st st' H; simpl.
  - intros E; injection E as <-; assumption.
  - destruct (body st x) as [st1|] eqn:B; simpl; [|discriminate].
    apply IH. eapply Hb; eassumption.
Qed.

Lemma addQueryValues_NoDup (values : list jsstring) (fullPath : jsstring) :
  NoDup values -> NoDup (addQueryValues values fullPath).
Proof.
  unfold addQueryValues.
  destruct (split (ch "?") fullPath) as [|a [|[|c q] rest]]; try (intros; assumption).
  generalize (URLSearchParams_values (c :: q)). intros vs. revert values.
  induction vs as [|v vs IH]; intros values ND; simpl; [assumption|].
  apply IH. destruct (isIgnorable v); [assumption|apply SetAdd_NoDup, ND].
Qed.

Lemma addArgument_NoDup (values : list jsstring) (arg : jsval) (values' : list jsstring) :
  NoDup values -> addArgument values arg = Ok values' -> NoDup values'.
Proof.
  intros ND. unfold addArgument.
  destruct (namedStringProp arg _) as [valProp|]; simpl; [|discriminate].
  destruct (trimmedText valProp) as [[valText|]|]; simpl; try discriminate.
  - intros E; injection E as <-. apply fold_SetAdd_NoDup.
    destruct valText; [assumption|].
    destruct (isIgnorable _); [assumption|apply SetAdd_NoDup, ND].
  - intros E; injection E as <-; assumption.
Qed.

Lemma extractRequestValues_NoDup (sampler : jsval) (values : list jsstring) :
  extractRequestValues sampler = Ok values -> NoDup values.
Proof.
  unfold extractRequestValues.
  destruct (namedStringProp sampler _) as [pathProp|]; simpl; [|discriminate].
  destruct (trimmedText pathProp) as [text|]; simpl; [|discriminate].
  apply (forEach_invariant (@NoDup jsstring)); [apply addArgument_NoDup|].
  destruct text as [fullPath|]; [|constructor].
  apply fold_SetAdd_NoDup, addQueryValues_NoDup. constructor.
Qed.

Lemma pushSampler_ok (st : walk) (s : jsval) (st' : walk) :
  walkOk st -> pushSampler st s = Ok st' -> walkOk st'.
Proof.
  intros [Ho Hv]. unfold pushSampler.
  destruct (extractRequestValues s) as [values|] eqn:E; simpl; [|discriminate].
  intros X; injection X as <-. split; cbn [result index].
  - rewrite map_app, Ho, seq_S. reflexivity.
  - apply Forall_app. split; [assumption|].
    constructor; [|constructor]. simpl. eapply extractRequestValues_NoDup, E.
Qed.

Lemma forEach_invariant_each {A S : Type} (I : S -> Prop) (body : S -> A -> outcome S)
    (xs : list A) :
  Forall (fun x => forall st st', I st -> body st x = Ok st' -> I st') xs ->
  forall st st', I st -> forEach body xs st = Ok st' -> I st'.
Proof.
  induction 1 as [|x xs Hx _ IH]; intros st st' H; simpl.
  - intros E; injection E as <-; assumption.
  - destruct (body st x) as [st1|] eqn:B; simpl; [|discriminate].
    apply IH. eapply Hx; eassumption.
Qed.

Lemma collectHTTPSamplers_ok (node : jsval) :
  forall st st', walkOk st -> collectHTTPSamplers node st = Ok st' -> walkOk st'.
Proof.
  induction node as [s|props IH|elems IH] using jsval_ind; intros st st' H;
    cbn [collectHTTPSamplers].
  - intros E; injection E as <-; assumption.
  - match goal with |- bind ?m _ = _ -> _ => destruct m as [st1|] eqn:P end;
      cbn [bind]; [|discriminate].
    apply (forEach_invariant_each walkOk); [exact IH|].
    destruct (lookup (js "HTTPSamplerProxy") props) as [[x|ps|samplers]|];
      cbn [truthy] in P.
    + destruct x; [injection P as <-; assumption|]. eapply pushSampler_ok; eassumption.
    + eapply pushSampler_ok; eassumption.
    + eapply (forEach_invariant walkOk); [apply pushSampler_ok| |]; eassumption.
    + injection P as <-; assumption.
  - apply (forEach_invariant_each walkOk); assumption.
Qed.

Lemma walkOk_orders_NoDup (st : walk) :
  walkOk st -> NoDup (map Sampler.order (result st)).
Proof. intros [-> _]. apply seq_NoDup. Qed.

Lemma isIgnorable_false (v : jsstring) :
  isIgnorable v = false ->
  4 <= length v /\ v <> js "true" /\ v <> js "false" /\ startsWith v (js "${") = false.
Proof.
  unfold isIgnorable. destruct v as [|c v]; [discriminate|].
  destruct (startsWith (c :: v) (js "${")); [discriminate|].
  destruct (str_eqb (c :: v) (js "true")) eqn:T; [discriminate|].
  destruct (str_eqb (c :: v) (js "false")) eqn:F; [discriminate|].
  cbn [orb]. destruct (Nat.ltb_spec (length (c :: v)) 4); [discriminate|].
  intros _. apply str_eqb_neq in T, F. auto.
Qed.

(** ** The report *)

Lemma emptyWalk_ok : walkOk emptyWalk.
Proof. split; simpl; constructor. Qed.

Section Report.
Variable existsSync : jsstring -> bool.
Variable readFileSync : jsstring -> outcome jsstring.
Variable parseStringPromise : jsstring -> outcome jsval.
Variable basename : jsstring -> jsstring.

Let analyze := analyzeJMXForCorrelation existsSync readFileSync parseStringPromise basename.

(** A report is that of the samplers collected from the parsed document. *)
Lemma analyze_Ok (jmxFilePath : jsstring) (report : Report) :
  analyze jmxFilePath = Ok report ->
  exists xml parsed st,
    existsSync jmxFilePath = true /\
    readFileSync jmxFilePath = Ok xml /\
    parseStringPromise xml = Ok parsed /\
    collectHTTPSamplers parsed emptyWalk = Ok st /\
    report = {| jmxFile := basename jmxFilePath;
                samplersScanned := length (result st);
                correlationCandidates :=
                  length (buildCorrelationSuggestions (buildValueIndex (result st)));
                suggestions := buildCorrelationSuggestions (buildValueIndex (result st)) |}.
Proof.
  unfold analyze, analyzeJMXForCorrelation.
  destruct (existsSync jmxFilePath); cbn [negb]; [|discriminate].
  destruct (readFileSync jmxFilePath) as [xml|]; cbn [bind]; [|discriminate].
  destruct (parseStringPromise xml) as [parsed|] eqn:P; cbn [bind]; [|discriminate].
  fold emptyWalk.
  destruct (collectHTTPSamplers parsed emptyWalk) as [st|] eqn:C; cbn [bind]; [|discriminate].
  intros E; injection E as <-. exists xml, parsed, st. auto.
Qed.
End Report.

Lemma analyze_located (existsSync : jsstring -> bool)
    (readFileSync : jsstring -> outcome jsstring)
    (parseStringPromise : jsstring -> outcome jsval)
    (basename : jsstring -> jsstring)
    (jmxFilePath xml : jsstring) (parsed : jsval) :
  existsSync jmxFilePath = true ->
  readFileSync jmxFilePath = Ok xml ->
  parseStringPromise xml = Ok parsed ->
  analyzeJMXForCorrelation existsSync readFileSync parseStringPromise basename jmxFilePath
  = reportOf (basename jmxFilePath) parsed.
Proof.
  intros E R P. unfold analyzeJMXForCorrelation. rewrite E, R. cbn [negb bind].
  rewrite P. reflexivity.
Qed.

(** ** The samplers the walk finds *)

Lemma bind_Ok {A : Type} (m : outcome A) : (x <- m ;; Ok x) = m.
Proof. destruct m; reflexivity. Qed.

Lemma forEach_app {A S : Type} (body : S -> A -> outcome S) (xs ys : list A) (st : S) :
  forEach body (xs ++ ys) st = (st1 <- forEach body xs st ;; forEach body ys st1).
Proof.
  revert st. induction xs as [|x xs IH]; intros st; simpl; [reflexivity|].
  destruct (body st x); simpl; [apply IH|reflexivity].
Qed.

Lemma forEach_flat_map {A B S : Type} (body : S -> B -> outcome S) (inner : S -> A -> outcome S)
    (f : A -> list B) (xs : list A) :
  Forall (fun x => forall st, inner st x = forEach body (f x) st) xs ->
  forall st, forEach inner xs st = forEach body (flat_map f xs) st.
Proof.
  induction 1 as [|x xs Hx _ IH]; intros st; simpl; [reflexivity|].
  rewrite forEach_app, Hx. destruct (forEach body (f x) st); simpl; [apply IH|reflexivity].
Qed.

(** The walk is one pass over the samplers it finds. *)
Lemma collectHTTPSamplers_proxies (node : jsval) :
  forall st, collectHTTPSamplers node st = forEach pushSampler (proxiesOf node) st.
Proof.
  induction node as [s|props IH|elems IH] using jsval_ind; intros st;
    cbn [collectHTTPSamplers proxiesOf].
  - reflexivity.
  - rewrite forEach_app.
    assert (D : match lookup (js "HTTPSamplerProxy") props with
                | Some (JArr samplers) => forEach pushSampler samplers st
                | Some s => if truthy (lookup (js "HTTPSamplerProxy") props)
                            then pushSampler st s else Ok st
                | None => Ok st
                end
                = forEach pushSampler
                    match lookup (js "HTTPSamplerProxy") props with
                    | Some (JArr samplers) => samplers
                    | Some (JStr []) => []
                    | Some s => [s]
                    | None => []
                    end st).
    { destruct (lookup (js "HTTPSamplerProxy") props) as [[[|c x]|ps|samplers]|];
        cbn [truthy forEach]; try reflexivity; symmetry; apply bind_Ok. }
    rewrite D. destruct (forEach pushSampler _ st) as [st1|]; cbn [bind]; [|reflexivity].
    apply (forEach_flat_map pushSampler). exact IH.
  - apply (forEach_flat_map pushSampler). exact IH.
Qed.

Lemma forEach_pushSampler (l : list jsval) :
  forall st st',
    forEach pushSampler l st = Ok st' ->
    exists new,
      result st' = result st ++ new /\
      index st' = index st + length l /\
      map Sampler.order new = seq (S (index st)) (length l) /\
      Forall2 pushedFrom l new.
Proof.
  induction l as [|s l IH]; intros st st'; simpl.
  - intros E; injection E as <-. exists []. rewrite app_nil_r, Nat.add_0_r.
    repeat split. constructor.
  - destruct (pushSampler st s) as [st1|] eqn:P; cbn [bind]; [|discriminate].
    intros E. apply IH in E. destruct E as (new & R & I & O & F).
    unfold pushSampler in P.
    destruct (extractRequestValues s) as [values|] eqn:V; cbn [bind] in P; [|discriminate].
    injection P as <-. cbn [result index] in R, I, O.
    exists (Sampler.mk (S (index st)) (samplerName (S (index st)) s) values :: new).
    rewrite R, <- app_assoc. repeat split.
    + rewrite I. lia.
    + cbn [map Sampler.order]. rewrite O. reflexivity.
    + constructor; [|exact F]. split; [reflexivity|exact V].
Qed.

(** ** Regular documents *)

Lemma flat_map_Permutation {A B : Type} (f g : A -> list B) (l : list A) :
  Forall (fun x => Permutation (f x) (g x)) l ->
  Permutation (flat_map f l) (flat_map g l).
Proof.
  induction 1 as [|x l Hx _ IH]; simpl; [constructor|].
  apply Permutation_app; assumption.
Qed.

Lemma flat_map_app_Permutation {A B : Type} (f g : A -> list B) (l : list A) :
  Permutation (flat_map f l ++ flat_map g l) (flat_map (fun x => f x ++ g x) l).
Proof.
  induction l as [|x l IH]; simpl; [constructor|].
  rewrite <- !app_assoc. apply Permutation_app_head.
  rewrite (app_assoc (flat_map f l)).
  etransitivity; [apply Permutation_app_tail, Permutation_app_comm|].
  rewrite <- app_assoc. apply Permutation_app_head. exact IH.
Qed.

Lemma lookup_absent (k : jsstring) (props : list (jsstring * jsval)) :
  existsb (str_eqb k) (map fst props) = false -> lookup k props = None.
Proof.
  induction props as [|[k' v] props IH]; simpl; [reflexivity|].
  rewrite (str_eqb_sym k k'). destruct (str_eqb k' k); simpl; [discriminate|exact IH].
Qed.

(** With distinct keys, the children called [HTTPSamplerProxy] are those of
    the one property of that name. *)
Lemma direct_lookup (props : list (jsstring * jsval)) :
  distinct (map fst props) = true ->
  flat_map (fun kv => if str_eqb (fst kv) (js "HTTPSamplerProxy")
                      then ParseJMX.asArray (snd kv) else [])
           props
  = match lookup (js "HTTPSamplerProxy") props with
    | Some v => ParseJMX.asArray v
    | None => []
    end.
Proof.
  induction props as [|[k v] props IH]; [reflexivity|].
  cbn [map fst distinct flat_map snd lookup]. intros D.
  apply andb_true_iff in D. destruct D as [N D].
  destruct (str_eqb k (js "HTTPSamplerProxy")) eqn:K.
  - apply str_eqb_eq in K. subst k. apply negb_true_iff in N.
    rewrite (IH D), (lookup_absent _ _ N), app_nil_r. reflexivity.
  - apply IH, D.
Qed.

Lemma proxiesOf_attributes (v : jsval) : plainAttributes v = true -> proxiesOf v = [].
Proof.
  destruct v as [s|attrs|elems]; try discriminate. cbn [plainAttributes proxiesOf].
  intros H. apply andb_true_iff in H. destruct H as [T N].
  destruct (lookup (js "HTTPSamplerProxy") attrs); [discriminate|]. cbn [app].
  induction attrs as [|[k a] attrs IH]; [reflexivity|].
  cbn [forallb snd] in T. apply andb_true_iff in T. destruct T as [Ta T].
  cbn [flat_map snd]. rewrite (IH T), app_nil_r.
  destruct a; try discriminate. reflexivity.
Qed.

(** In a regular document the walk finds the [HTTPSamplerProxy] elements,
    each once. *)
Lemma proxiesOf_requestNodes (node : jsval) :
  regular node = true -> Permutation (proxiesOf node) (requestNodes node).
Proof.
  induction node as [s|props IH|elems IH] using jsval_ind;
    cbn [regular proxiesOf requestNodes]; intros H.
  - constructor.
  - apply andb_true_iff in H. destruct H as [H F].
    apply andb_true_iff in H. destruct H as [D E].
    set (d := fun kv : jsstring * jsval =>
                if str_eqb (fst kv) (js "HTTPSamplerProxy")
                then ParseJMX.asArray (snd kv) else []).
    set (d' := fun kv : jsstring * jsval => if str_eqb (fst kv) (js "$") then [] else d kv).
    set (R' := fun kv : jsstring * jsval =>
                 if str_eqb (fst kv) (js "$") then [] else requestNodes (snd kv)).
    assert (X : match lookup (js "HTTPSamplerProxy") props with
                | Some (JArr samplers) => samplers
                | Some (JStr []) => []
                | Some s => [s]
                | None => []
                end = flat_map d' props).
    { rewrite (flat_map_ext d' d).
      - unfold d. rewrite (direct_lookup props D).
        destruct (lookup (js "HTTPSamplerProxy") props) as [[[|c x]|ps|samplers]|];
          try reflexivity; discriminate.
      - intros [k v]. unfold d', d. cbn [fst snd].
        destruct (str_eqb k (js "$")) eqn:K; [|reflexivity].
        apply str_eqb_eq in K. subst k. reflexivity. }
    rewrite X.
    transitivity (flat_map d' props ++ flat_map R' props).
    { apply Permutation_app_head. apply flat_map_Permutation.
      rewrite Forall_forall in IH |- *. intros [k v] I.
      rewrite forallb_forall in F. specialize (F _ I). specialize (IH _ I).
      unfold R'. cbn [fst snd] in *.
      destruct (str_eqb k (js "$")); [rewrite (proxiesOf_attributes _ F); constructor|].
      apply IH, F. }
    etransitivity; [apply flat_map_app_Permutation|].
    erewrite flat_map_ext; [reflexivity|].
    intros [k v]. unfold d', R', d. cbn [fst snd].
    destruct (str_eqb k (js "$")); reflexivity.
  - apply flat_map_Permutation. rewrite Forall_forall in IH |- *. intros x I.
    rewrite forallb_forall in H. apply IH; auto.
Qed.

(** In a regular document with one [HTTPSamplerProxy] element, that
    element is the sampler the walk finds. *)
Lemma proxiesOf_single (node s : jsval) :
  regular node = true -> requestNodes node = [s] -> proxiesOf node = [s].
Proof.
  intros R E. apply proxiesOf_requestNodes in R. rewrite E in R.
  apply Permutation_sym, Permutation_length_1_inv in R. exact R.
Qed.

(** ** Requests as JMeter writes them *)

Lemma hasName_object (name : jsstring) (p : jsval) :
  hasName name p = true -> exists props, p = JObj props.
Proof.
  destruct p as [s|props|elems]; try discriminate. intros _. exists props. reflexivity.
Qed.

(** Where the string properties are a list, the engine reads the text
    [parseJMX] reads. *)
Lemma namedStringProp_read (owner : jsval) (name : jsstring) :
  lone (js "stringProp") owner = false ->
  isText (ParseJMX.findStringProp owner name) = true ->
  (prop <- namedStringProp owner name ;; trimmedText prop)
  = Ok (textOf (ParseJMX.findStringProp owner name)).
Proof.
  unfold lone, namedStringProp, ParseJMX.findStringProp.
  destruct (get owner (js "stringProp")) as [[s|props|elems]|]; try discriminate;
    intros _; cbn [bind].
  - intros _. destruct s as [|c s]; reflexivity.
  - cbn [truthy ParseJMX.asArray].
    destruct (find (hasName name) elems) as [q|] eqn:F; [|reflexivity].
    apply find_some in F. destruct F as [_ F].
    apply hasName_object in F. destruct F as [qp ->].
    cbn [truthy getOpt trimmedText]. unfold trimmedText. cbn [getOpt].
    destruct (get (JObj qp) (js "_")) as [[[|c t]|o|a]|]; try reflexivity; discriminate.
  - reflexivity.
Qed.

Lemma addArgument_read (values : list jsstring) (arg : jsval) :
  lone (js "stringProp") arg = false ->
  isText (valueOf arg) = true ->
  addArgument values arg = Ok (addText values (textOf (valueOf arg))).
Proof.
  intros L T. pose proof (namedStringProp_read arg (js "Argument.value") L T) as R.
  fold (valueOf arg) in R. unfold addArgument.
  destruct (namedStringProp arg (js "Argument.value")) as [prop|]; cbn [bind] in *;
    [|discriminate].
  rewrite R. cbn [bind]. destruct (textOf (valueOf arg)); reflexivity.
Qed.

Lemma forEach_addArgument_read (args : list jsval) :
  forallb (fun arg => negb (lone (js "stringProp") arg)) args = true ->
  forallb (fun arg => isText (valueOf arg)) args = true ->
  forall values,
    forEach addArgument args values
    = Ok (fold_left addText (map textOf (map valueOf args)) values).
Proof.
  induction args as [|arg args IH]; cbn [forallb]; intros L T values; [reflexivity|].
  apply andb_true_iff in L, T. destruct L as [L Ls], T as [T Ts].
  apply negb_true_iff in L. cbn [forEach map fold_left].
  rewrite (addArgument_read values arg L T). cbn [bind]. apply IH; assumption.
Qed.

(** With at most one [elementProp] and at most one [collectionProp], the
    arguments the engine goes through are the arguments of the sampler; an
    empty argument is the one it skips. *)
Lemma argumentsOf_nodes (sampler : jsval) :
  several (js "elementProp") sampler = false ->
  forallb (fun block => negb (several (js "collectionProp") block))
          (childrenOf (js "elementProp") sampler) = true ->
  argumentsOf sampler = argumentNodes sampler \/
  (argumentsOf sampler = [] /\ argumentNodes sampler = [JStr []]).
Proof.
  unfold several, argumentsOf, argumentNodes, childrenOf.
  destruct (get sampler (js "elementProp")) as [[s|block|blocks]|]; try discriminate;
    intros _; cbn [getOpt get flat_map forallb]; auto.
  unfold several. cbn [get].
  destruct (lookup (js "collectionProp") block) as [[s|coll|colls]|]; try discriminate;
    intros _; cbn [getOpt get flat_map]; auto.
  rewrite !app_nil_r.
  destruct (lookup (js "elementProp") coll) as [[[|c s]|arg|args]|]; cbn [truthy]; auto.
Qed.

(** The values of a sampler that JMeter wrote are the literal set of its
    path and of the values of its arguments. *)
Lemma extractRequestValues_listShaped (sampler : jsval) :
  listShaped sampler = true ->
  extractRequestValues sampler
  = Ok (literalSet (pathOf sampler) (map valueOf (argumentNodes sampler))).
Proof.
  unfold listShaped. intros H.
  repeat (apply andb_true_iff in H; let X := fresh "X" in destruct H as [H X]).
  apply negb_true_iff in H, X3.
  pose proof (namedStringProp_read sampler (js "HTTPSampler.path") H) as R.
  change (ParseJMX.findStringProp sampler (js "HTTPSampler.path"))
    with (pathOf sampler) in R.
  specialize (R X0). unfold extractRequestValues, literalSet.
  destruct (namedStringProp sampler (js "HTTPSampler.path")) as [prop|]; cbn [bind] in *;
    [|discriminate].
  rewrite R. cbn [bind]. fold (argumentsOf sampler).
  destruct (argumentsOf_nodes sampler X3 X2) as [E|[E1 E2]].
  - rewrite E. apply forEach_addArgument_read; assumption.
  - rewrite E1, E2. reflexivity.
Qed.

Lemma pushSampler_listShaped (st : walk) (s : jsval) :
  listShaped s = true ->
  pushSampler st s
  = Ok {| index := S (index st);
          result := result st ++
                    [Sampler.mk (S (index st)) (samplerName (S (index st)) s)
                                (literalSet (pathOf s) (map valueOf (argumentNodes s)))] |}.
Proof.
  intros L. unfold pushSampler. rewrite (extractRequestValues_listShaped s L). reflexivity.
Qed.

Lemma fold_addText_texts (values : list jsval) :
  forall init,
    fold_left addText (map textOf values) init
    = fold_left (fun values text => addText values (Some text)) (texts values) init.
Proof.
  unfold texts. induction values as [|v values IH]; intros init; [reflexivity|].
  cbn [map fold_left flat_map]. rewrite fold_left_app, IH.
  destruct (textOf v) as [[|c text]|]; reflexivity.
Qed.

Lemma literalSet_texts (sampler : jsval) :
  literalSet (pathOf sampler) (map valueOf (argumentNodes sampler))
  = literalsOf (pathText sampler) (argumentTexts sampler).
Proof.
  unfold literalSet, literalsOf, pathText, argumentTexts.
  rewrite fold_addText_texts. f_equal.
  destruct (textOf (pathOf sampler)) as [[|c text]|]; reflexivity.
Qed.

Lemma pushSampler_request (st : walk) (s : jsval) (path : jsstring)
    (argumentValues : list jsstring) :
  isRequest s path argumentValues ->
  pushSampler st s
  = Ok {| index := S (index st);
          result := result st ++
                    [Sampler.mk (S (index st)) (samplerName (S (index st)) s)
                                (literalsOf path argumentValues)] |}.
Proof.
  intros (L & <- & <-). rewrite (pushSampler_listShaped st s L), literalSet_texts.
  reflexivity.
Qed.

Lemma samplerName_testname (i : nat) (s : jsval) (c : char16) (testname : jsstring) :
  isNamed s (c :: testname) -> samplerName i s = JStr (c :: testname).
Proof. unfold isNamed, samplerName. intros ->. reflexivity. Qed.

(** Once the file is located and parsed, the Report is that of the samplers
    the walk finds. *)
Lemma analyze_proxies (existsSync : jsstring -> bool)
    (readFileSync : jsstring -> outcome jsstring)
    (parseStringPromise : jsstring -> outcome jsval)
    (basename : jsstring -> jsstring)
    (jmxFilePath xml : jsstring) (parsed : jsval) :
  existsSync jmxFilePath = true ->
  readFileSync jmxFilePath = Ok xml ->
  parseStringPromise xml = Ok parsed ->
  analyzeJMXForCorrelation existsSync readFileSync parseStringPromise basename jmxFilePath
  = (st <- forEach pushSampler (proxiesOf parsed) emptyWalk ;;
     let suggestions := buildCorrelationSuggestions (buildValueIndex (result st)) in
     Ok {| jmxFile := basename jmxFilePath;
           samplersScanned := length (result st);
           correlationCandidates := length suggestions;
           suggestions := suggestions |}).
Proof.
  intros E R P. rewrite (analyze_located _ _ _ _ _ _ _ E R P).
  unfold reportOf. rewrite collectHTTPSamplers_proxies. reflexivity.
Qed.

(** ** End-to-end scenarios *)

(** C1, as the code has it.  The walk finds two samplers, "Login" then
    "GetProfile", each written the way JMeter writes it, without a path
    text and with the token as its one argument value.  The Report has
    two suggestions.  The first is the token: JWT_TOKEN, HIGH, used in
    Login and GetProfile, to be extracted with "Regex Extractor".  The
    second is the alphanumeric run "eyJabc" the pattern suite finds inside
    the token: GENERIC_DYNAMIC_VALUE, LOW, used in the same two samplers. *)
Theorem login_scenario (existsSync : jsstring -> bool)
    (readFileSync : jsstring -> outcome jsstring)
    (parseStringPromise : jsstring -> outcome jsval)
    (basename : jsstring -> jsstring) (jmxFilePath xml : jsstring)
    (parsed login getProfile : jsval) :
  existsSync jmxFilePath = true ->
  readFileSync jmxFilePath = Ok xml ->
  parseStringPromise xml = Ok parsed ->
  proxiesOf parsed = [login; getProfile] ->
  isNamed login (js "Login") ->
  isRequest login [] [js "eyJabc.def.ghi"] ->
  isNamed getProfile (js "GetProfile") ->
  isRequest getProfile [] [js "eyJabc.def.ghi"] ->
  exists token run,
    analyzeJMXForCorrelation existsSync readFileSync parseStringPromise basename jmxFilePath
    = Ok {| jmxFile := basename jmxFilePath; samplersScanned := 2;
            correlationCandidates := 2; suggestions := [token; run] |} /\
    detectedValue token = js "eyJabc.def.ghi" /\
    valueType token = JWT_TOKEN /\
    confidence token = HIGH /\
    usedInSamplers token = [JStr (js "Login"); JStr (js "GetProfile")] /\
    extractor (recommendation token) = js "Regex Extractor" /\
    detectedValue run = js "eyJabc" /\
    valueType run = GENERIC_DYNAMIC_VALUE /\
    confidence run = LOW /\
    usedInSamplers run = [JStr (js "Login"); JStr (js "GetProfile")].
Proof.
  intros E R P F N1 Q1 N2 Q2.
  rewrite (analyze_proxies _ _ _ _ _ _ _ E R P), F.
  cbn [forEach]. rewrite (pushSampler_request _ _ _ _ Q1). cbn [bind].
  rewrite (pushSampler_request _ _ _ _ Q2). cbn [bind result index emptyWalk app].
  rewrite (samplerName_testname _ _ _ _ N1), (samplerName_testname _ _ _ _ N2).
  exists (suggestionFor (js "eyJabc.def.ghi") JWT_TOKEN HIGH ["Login"; "GetProfile"]%string),
         (suggestionFor (js "eyJabc") GENERIC_DYNAMIC_VALUE LOW ["Login"; "GetProfile"]%string).
  split; [|repeat split].
  generalize (basename jmxFilePath). intros file. vm_compute. reflexivity.
Qed.

Lemma login_scenario_witness :
  exists token run,
    analyzeDocument loginDocument (js "login.jmx")
    = Ok {| jmxFile := js "login.jmx"; samplersScanned := 2;
            correlationCandidates := 2; suggestions := [token; run] |} /\
    detectedValue token = js "eyJabc.def.ghi" /\
    valueType token = JWT_TOKEN /\
    confidence token = HIGH /\
    usedInSamplers token = [JStr (js "Login"); JStr (js "GetProfile")] /\
    extractor (recommendation token) = js "Regex Extractor" /\
    detectedValue run = js "eyJabc" /\
    valueType run = GENERIC_DYNAMIC_VALUE /\
    confidence run = LOW /\
    usedInSamplers run = [JStr (js "Login"); JStr (js "GetProfile")].
Proof.
  apply (login_scenario (fun _ => true) (fun _ => Ok []) (fun _ => Ok loginDocument)
                        (fun p => p) (js "login.jmx") [] loginDocument
                        (httpSampler "Login"%string "POST"%string String.EmptyString
                                     [argument "token"%string "eyJabc.def.ghi"%string])
                        (httpSampler "GetProfile"%string "GET"%string String.EmptyString
                                     [argument "Authorization"%string
                                               "eyJabc.def.ghi"%string]));
    try reflexivity; repeat split; vm_compute; reflexivity.
Defined.

(** C1, as stated, fails: the Report of the document has two suggestions,
    not one. *)
Lemma login_scenario_two_suggestions :
  exists report,
    analyzeDocument loginDocument (js "login.jmx") = Ok report /\
    correlationCandidates report = 2 /\
    length (suggestions report) <> 1 /\
    map detectedValue (suggestions report) = [js "eyJabc.def.ghi"; js "eyJabc"].
Proof.
  eexists. split; [vm_compute; reflexivity|]. cbn [correlationCandidates suggestions].
  repeat split. simpl. discriminate.
Qed.

(** A header of a [HeaderManager] is no argument of the sampler: the engine
    does not read it, and the token is used in "Login" only. *)
Example header_manager_example :
  exists token run,
    analyzeDocument headerDocument (js "header.jmx")
    = Ok {| jmxFile := js "header.jmx"; samplersScanned := 2;
            correlationCandidates := 2; suggestions := [token; run] |} /\
    detectedValue token = js "eyJabc.def.ghi" /\
    usedInSamplers token = [JStr (js "Login")] /\
    detectedValue run = js "eyJabc" /\
    usedInSamplers run = [JStr (js "Login")].
Proof. do 2 eexists. split; [vm_compute; reflexivity|]. repeat split. Qed.

(** C3, as the code has it.  The walk finds one sampler, written the way
    JMeter writes it, whose path is "/orders/123?status=true" and which has
    no argument value.  The Report is not empty: it has a suggestion for the
    alphanumeric run "orders" of the path, GENERIC_DYNAMIC_VALUE with
    confidence LOW, used in that sampler; neither "123" nor "true" is
    detected. *)
Theorem orders_scenario (existsSync : jsstring -> bool)
    (readFileSync : jsstring -> outcome jsstring)
    (parseStringPromise : jsstring -> outcome jsval)
    (basename : jsstring -> jsstring) (jmxFilePath xml : jsstring)
    (parsed sampler : jsval) :
  existsSync jmxFilePath = true ->
  readFileSync jmxFilePath = Ok xml ->
  parseStringPromise xml = Ok parsed ->
  proxiesOf parsed = [sampler] ->
  isRequest sampler (js "/orders/123?status=true") [] ->
  exists report orders,
    analyzeJMXForCorrelation existsSync readFileSync parseStringPromise basename jmxFilePath
    = Ok report /\
    samplersScanned report = 1 /\
    correlationCandidates report <> 0 /\
    In orders (suggestions report) /\
    detectedValue orders = js "orders" /\
    valueType orders = GENERIC_DYNAMIC_VALUE /\
    confidence orders = LOW /\
    usedInSamplers orders = [samplerName 1 sampler] /\
    forall suggestion,
      In suggestion (suggestions report) ->
      detectedValue suggestion <> js "123" /\ detectedValue suggestion <> js "true".
Proof.
  intros E R P F Q.
  rewrite (analyze_proxies _ _ _ _ _ _ _ E R P), F.
  cbn [forEach]. rewrite (pushSampler_request _ _ _ _ Q). cbn [bind result index emptyWalk app].
  generalize (samplerName 1 sampler). intros name.
  replace (literalsOf (js "/orders/123?status=true") [])
    with [js "orders"; js "status"] by (vm_compute; reflexivity).
  eexists. exists {| detectedValue := js "orders"; valueType := GENERIC_DYNAMIC_VALUE;
                     confidence := LOW; usedInSamplers := [name];
                     recommendation :=
                       buildRecommendation (js "orders") GENERIC_DYNAMIC_VALUE |}.
  split; [reflexivity|]. cbn [samplersScanned correlationCandidates suggestions].
  split; [reflexivity|]. split; [vm_compute; discriminate|].
  split; [left; vm_compute; reflexivity|]. repeat (split; [reflexivity|]).
  intros suggestion [<-|[<-|[]]]; split; vm_compute; discriminate.
Qed.

Lemma orders_scenario_witness :
  exists report orders,
    analyzeDocument ordersDocument (js "orders.jmx") = Ok report /\
    samplersScanned report = 1 /\
    correlationCandidates report <> 0 /\
    In orders (suggestions report) /\
    detectedValue orders = js "orders" /\
    valueType orders = GENERIC_DYNAMIC_VALUE /\
    confidence orders = LOW /\
    usedInSamplers orders = [JStr (js "Orders")] /\
    forall suggestion,
      In suggestion (suggestions report) ->
      detectedValue suggestion <> js "123" /\ detectedValue suggestion <> js "true".
Proof.
  apply (orders_scenario (fun _ => true) (fun _ => Ok []) (fun _ => Ok ordersDocument)
                         (fun p => p) (js "orders.jmx") [] ordersDocument
                         (httpSampler "Orders"%string "GET"%string
                                      "/orders/123?status=true"%string []));
    try reflexivity. repeat split; vm_compute; reflexivity.
Defined.

(** C3, as stated, fails: the Report of the document has two suggestions,
    not zero. *)
Lemma orders_scenario_two_suggestions :
  exists report,
    analyzeDocument ordersDocument (js "orders.jmx") = Ok report /\
    correlationCandidates report = 2 /\
    suggestions report <> [] /\
    map detectedValue (suggestions report) = [js "orders"; js "status"].
Proof.
  eexists. split; [vm_compute; reflexivity|]. cbn [correlationCandidates suggestions].
  repeat split. discriminate.
Qed.

(** ** Invariants of the report *)

Lemma suggestions_keys (index : ValueIndex) :
  map detectedValue (buildCorrelationSuggestions index) = keys index.
Proof.
  unfold buildCorrelationSuggestions, keys. rewrite map_map.
  apply map_ext. intros [v occs]. reflexivity.
Qed.

(** C2: no value shorter than 4 code units, equal to "true" or "false", or
    beginning with the parameter-substitution prefix is the detectedValue of
    a suggestion of a Report. *)
Theorem detectedValue_not_ignorable (existsSync : jsstring -> bool)
    (readFileSync : jsstring -> outcome jsstring)
    (parseStringPromise : jsstring -> outcome jsval)
    (basename : jsstring -> jsstring) (jmxFilePath : jsstring)
    (report : Report) (suggestion : Suggestion) :
  analyzeJMXForCorrelation existsSync readFileSync parseStringPromise basename jmxFilePath
  = Ok report ->
  In suggestion (suggestions report) ->
  4 <= length (detectedValue suggestion) /\
  detectedValue suggestion <> js "true" /\
  detectedValue suggestion <> js "false" /\
  startsWith (detectedValue suggestion) (js "${") = false.
Proof.
  intros A H. apply analyze_Ok in A.
  destruct A as (xml & parsed & st & _ & _ & _ & _ & ->). cbn [suggestions] in H.
  apply isIgnorable_false, (buildValueIndex_significant (result st)).
  rewrite <- suggestions_keys. apply in_map, H.
Qed.

Lemma detectedValue_not_ignorable_witness :
  4 <= length (js "orders") /\ js "orders" <> js "true" /\
  js "orders" <> js "false" /\ startsWith (js "orders") (js "${") = false.
Proof.
  apply (detectedValue_not_ignorable
           (fun _ => true) (fun _ => Ok []) (fun _ => Ok ordersDocument) (fun p => p)
           (js "orders.jmx")
           {| jmxFile := js "orders.jmx"; samplersScanned := 1; correlationCandidates := 2;
              suggestions :=
                [suggestionFor (js "orders") GENERIC_DYNAMIC_VALUE LOW ["Orders"%string];
                 suggestionFor (js "status") GENERIC_DYNAMIC_VALUE LOW ["Orders"%string]] |}
           (suggestionFor (js "orders") GENERIC_DYNAMIC_VALUE LOW ["Orders"%string])).
  - vm_compute. reflexivity.
  - simpl. left. reflexivity.
Defined.

(** C7: for every document, the entry of a value in the index holds one
    occurrence for each sampler that uses the value, in the order of the
    samplers, so no two of its occurrences are of the same sampler; the
    values of a sampler are a set; and the suggestions follow the keys of the
    index, which are the values in the order they were first seen. *)
Theorem index_entries_and_order (existsSync : jsstring -> bool)
    (readFileSync : jsstring -> outcome jsstring)
    (parseStringPromise : jsstring -> outcome jsval)
    (basename : jsstring -> jsstring) (jmxFilePath : jsstring) (report : Report) :
  analyzeJMXForCorrelation existsSync readFileSync parseStringPromise basename jmxFilePath
  = Ok report ->
  exists xml parsed st,
    readFileSync jmxFilePath = Ok xml /\
    parseStringPromise xml = Ok parsed /\
    collectHTTPSamplers parsed emptyWalk = Ok st /\
    let samplers := result st in
    let index := buildValueIndex samplers in
    suggestions report = buildCorrelationSuggestions index /\
    Forall (fun s => NoDup (Sampler.requestValues s)) samplers /\
    (forall v occurrences,
        In (v, occurrences) index ->
        occurrences = map occurrenceOf (filter (uses v) samplers) /\
        NoDup (map Occurrence.order occurrences) /\
        forall s, In s samplers -> uses v s = true ->
                  count_occ Nat.eq_dec (map Occurrence.order occurrences)
                            (Sampler.order s) = 1) /\
    map detectedValue (suggestions report) = keys index /\
    keys index = firstSeen (filter significant (flat_map Sampler.requestValues samplers)).
Proof.
  intros A. apply analyze_Ok in A.
  destruct A as (xml & parsed & st & _ & R & P & C & ->).
  exists xml, parsed, st. repeat split; try assumption; cbn [suggestions].
  - apply (collectHTTPSamplers_ok parsed emptyWalk st emptyWalk_ok C).
  - apply buildValueIndex_entry; [|assumption].
    apply (collectHTTPSamplers_ok parsed emptyWalk st emptyWalk_ok C).
  - pose proof (collectHTTPSamplers_ok parsed emptyWalk st emptyWalk_ok C) as W.
    rewrite (buildValueIndex_entry (result st) v occurrences (proj2 W) H).
    apply filter_orders_NoDup, walkOk_orders_NoDup, W.
  - intros s Hs U.
    pose proof (collectHTTPSamplers_ok parsed emptyWalk st emptyWalk_ok C) as W.
    rewrite (buildValueIndex_entry (result st) v occurrences (proj2 W) H).
    apply NoDup_count_occ'.
    + apply filter_orders_NoDup, walkOk_orders_NoDup, W.
    + rewrite map_map. apply (in_map (fun x => Occurrence.order (occurrenceOf x))).
      apply filter_In. auto.
  - apply suggestions_keys.
  - apply buildValueIndex_keys.
Qed.

Lemma index_entries_and_order_witness :
  exists xml parsed st,
    (fun _ : jsstring => Ok (@nil char16)) (js "repeat.jmx") = Ok xml /\
    (fun _ : jsstring => Ok repeatDocument) xml = Ok parsed /\
    collectHTTPSamplers parsed emptyWalk = Ok st /\
    let samplers := result st in
    let index := buildValueIndex samplers in
    suggestions repeatReport = buildCorrelationSuggestions index /\
    Forall (fun s => NoDup (Sampler.requestValues s)) samplers /\
    (forall v occurrences,
        In (v, occurrences) index ->
        occurrences = map occurrenceOf (filter (uses v) samplers) /\
        NoDup (map Occurrence.order occurrences) /\
        forall s, In s samplers -> uses v s = true ->
                  count_occ Nat.eq_dec (map Occurrence.order occurrences)
                            (Sampler.order s) = 1) /\
    map detectedValue (suggestions repeatReport) = keys index /\
    keys index = firstSeen (filter significant (flat_map Sampler.requestValues samplers)).
Proof.
  apply (index_entries_and_order
           (fun _ => true) (fun _ => Ok []) (fun _ => Ok repeatDocument) (fun p => p)
           (js "repeat.jmx") repeatReport).
  vm_compute. reflexivity.
Defined.

Example repeatDocument_index :
  buildValueIndex
    [Sampler.mk 1 (JStr (js "Login")) [js "abc12345"];
     Sampler.mk 2 (JStr (js "Next")) [js "abc12345"]]
  = [(js "abc12345",
      [Occurrence.mk (JStr (js "Login")) 1; Occurrence.mk (JStr (js "Next")) 2])].
Proof. vm_compute. reflexivity. Qed.

(** ** Sixteen digits *)

Lemma dashedHex_length (sizes : list nat) :
  forall v, dashedHex sizes v = true ->
            length v = list_sum sizes + pred (length sizes).
Proof.
  induction sizes as [|n sizes IH]; intros v; [discriminate|].
  cbn [dashedHex]. intros H.
  apply andb_true_iff in H. destruct H as [H T].
  apply andb_true_iff in H. destruct H as [L _]. apply Nat.leb_le in L.
  destruct sizes as [|m sizes].
  - apply Nat.eqb_eq in T. simpl. lia.
  - destruct (skipn n v) as [|c rest] eqn:K; [discriminate|].
    apply andb_true_iff in T. destruct T as [_ T]. apply IH in T.
    apply (f_equal (@length _)) in K. rewrite length_skipn in K.
    simpl in *. lia.
Qed.

Lemma digit_first (c : char16) (v p : jsstring) (a : Ascii.ascii) :
  isDigit c = true -> isDigit (ch a) = false ->
  startsWith (c :: v) (ch a :: p) = false.
Proof.
  intros D A. unfold startsWith. cbn [stripPrefix].
  destruct (N.eqb_spec (ch a) c) as [<-|]; [congruence|reflexivity].
Qed.

Section SixteenDigits.
Variable v : jsstring.
Hypothesis Hlength : length v = 16.
Hypothesis Hdigits : forallb isDigit v = true.

Lemma sixteen_digits_not_JWT : looksLikeJWT v = false.
Proof.
  unfold looksLikeJWT. destruct v as [|c v']; [discriminate|].
  cbn [forallb] in Hdigits. apply andb_true_iff in Hdigits.
  change (js "eyJ") with (ch "e" :: js "yJ").
  rewrite digit_first; [reflexivity|tauto|reflexivity].
Qed.

Lemma sixteen_digits_not_UUID : looksLikeUUID v = false.
Proof.
  rewrite looksLikeUUID_shape.
  destruct (shapeUUID v) eqn:U; [|reflexivity].
  apply dashedHex_length in U. simpl in U. lia.
Qed.

Lemma sixteen_digits_not_numeric : looksLikeNumericId v = false.
Proof.
  rewrite looksLikeNumericId_shape. unfold shapeNumeric.
  rewrite Hlength. reflexivity.
Qed.

Lemma sixteen_digits_alphanumeric : looksLikeAlphaNumeric v = true.
Proof.
  rewrite looksLikeAlphaNumeric_shape. unfold shapeAlphaNumeric.
  rewrite Hlength. cbn [Nat.leb andb].
  exact (forallb_impl _ _ _ isDigit_isAlphaNum Hdigits).
Qed.

Lemma sixteen_digits_classify : classifyValue v = GENERIC_DYNAMIC_VALUE.
Proof.
  unfold classifyValue.
  rewrite sixteen_digits_not_JWT, sixteen_digits_not_UUID,
    sixteen_digits_not_numeric, sixteen_digits_alphanumeric.
  reflexivity.
Qed.

Lemma sixteen_digits_confidence (O : Type) (occurrences : list O) :
  calculateConfidence v occurrences =
  if (3 <=? length occurrences)%nat then HIGH else LOW.
Proof.
  unfold calculateConfidence.
  rewrite sixteen_digits_not_JWT, sixteen_digits_not_UUID, sixteen_digits_not_numeric.
  reflexivity.
Qed.

Lemma sixteen_digits_significant : isIgnorable v = false.
Proof.
  unfold isIgnorable. destruct v as [|c v'] eqn:V; [discriminate|].
  cbn [forallb] in Hdigits. apply andb_true_iff in Hdigits.
  change (js "${") with (ch "$" :: js "{").
  rewrite digit_first; [|tauto|reflexivity].
  assert (T : str_eqb (c :: v') (js "true") = false).
  { apply str_eqb_neq. intros E. rewrite E in Hlength. discriminate. }
  assert (F : str_eqb (c :: v') (js "false") = false).
  { apply str_eqb_neq. intros E. rewrite E in Hlength. discriminate. }
  rewrite T, F, Hlength. reflexivity.
Qed.
End SixteenDigits.

Lemma firstSeen_In (l : list jsstring) (x : jsstring) : In x l -> In x (firstSeen l).
Proof.
  induction l as [|y l IH]; simpl; [tauto|].
  destruct (str_eqb y x) eqn:E.
  - apply str_eqb_eq in E. auto.
  - intros [->|H]; [rewrite str_eqb_refl in E; discriminate|].
    right. apply filter_In. rewrite E. auto.
Qed.

Lemma buildValueIndex_has_key (samplers : list Sampler.t) (v : jsstring) :
  isIgnorable v = false ->
  filter (uses v) samplers <> [] ->
  exists occurrences, In (v, occurrences) (buildValueIndex samplers).
Proof.
  intros Hv Hu.
  assert (K : In v (keys (buildValueIndex samplers))).
  { rewrite buildValueIndex_keys. apply firstSeen_In, filter_In.
    split; [|unfold significant; rewrite Hv; reflexivity].
    destruct (filter (uses v) samplers) as [|s l] eqn:F; [congruence|].
    assert (Hs : In s (filter (uses v) samplers)) by (rewrite F; left; reflexivity).
    apply filter_In in Hs. destruct Hs as [Hs U].
    apply in_flat_map. exists s. split; [assumption|].
    apply existsb_str_eqb, U. }
  unfold keys in K. apply in_map_iff in K. destruct K as ([k occs] & E & H).
  simpl in E. subst k. eauto.
Qed.

(** C4, as the code has it: a value of exactly 16 decimal digits is beyond
    the 14 digits of the numeric pattern; its suggestion has valueType
    GENERIC_DYNAMIC_VALUE, and confidence LOW when fewer than 3 requests use
    it (so for exactly one request), HIGH when 3 or more do. *)
Theorem sixteen_digits_suggestion (parsed : jsval) (st : walk) (v : jsstring) (n : nat) :
  collectHTTPSamplers parsed emptyWalk = Ok st ->
  length v = 16 ->
  forallb isDigit v = true ->
  length (filter (uses v) (result st)) = n ->
  0 < n ->
  let suggested := buildCorrelationSuggestions (buildValueIndex (result st)) in
  (exists suggestion, In suggestion suggested /\ detectedValue suggestion = v) /\
  (forall suggestion,
      In suggestion suggested -> detectedValue suggestion = v ->
      valueType suggestion = GENERIC_DYNAMIC_VALUE /\
      confidence suggestion = (if (3 <=? n)%nat then HIGH else LOW) /\
      usedInSamplers suggestion = map Sampler.name (filter (uses v) (result st))).
Proof.
  intros C L D N P suggested.
  pose proof (collectHTTPSamplers_ok parsed emptyWalk st emptyWalk_ok C) as [_ W].
  split.
  - destruct (buildValueIndex_has_key (result st) v) as [occs H].
    + apply sixteen_digits_significant; assumption.
    + intros E. rewrite E in N. simpl in N. lia.
    + exists (suggest (v, occs)). split; [|reflexivity].
      apply (in_map suggest) in H. exact H.
  - intros sg H E. unfold suggested, buildCorrelationSuggestions in H.
    apply in_map_iff in H. destruct H as ([k occs] & <- & H).
    simpl in E. subst k. cbn [suggest valueType confidence usedInSamplers].
    rewrite (buildValueIndex_entry _ _ _ W H).
    rewrite (sixteen_digits_confidence v L D), (sixteen_digits_classify v L D).
    rewrite !length_map, N, !map_map. auto.
Qed.

Lemma sixteen_digits_suggestion_witness :
  let suggested :=
    buildCorrelationSuggestions
      (buildValueIndex [Sampler.mk 1 (JStr (js "Pay")) [js "4111111111111111"]]) in
  (exists suggestion,
      In suggestion suggested /\ detectedValue suggestion = js "4111111111111111") /\
  (forall suggestion,
      In suggestion suggested -> detectedValue suggestion = js "4111111111111111" ->
      valueType suggestion = GENERIC_DYNAMIC_VALUE /\
      confidence suggestion = LOW /\
      usedInSamplers suggestion = [JStr (js "Pay")]).
Proof.
  apply (sixteen_digits_suggestion cardDocument
           {| index := 1;
              result := [Sampler.mk 1 (JStr (js "Pay")) [js "4111111111111111"]] |}
           (js "4111111111111111") 1).
  - vm_compute. reflexivity.
  - reflexivity.
  - vm_compute. reflexivity.
  - vm_compute. reflexivity.
  - lia.
Defined.

(** C4, as stated, fails: the one suggestion of a document whose one request
    has a 16-digit argument value is GENERIC_DYNAMIC_VALUE with confidence
    LOW, neither NUMERIC_ID nor MEDIUM. *)
Lemma sixteen_digits_not_numeric_id :
  analyzeDocument cardDocument (js "card.jmx") =
  Ok {| jmxFile := js "card.jmx"; samplersScanned := 1; correlationCandidates := 1;
        suggestions :=
          [suggestionFor (js "4111111111111111") GENERIC_DYNAMIC_VALUE LOW ["Pay"%string]] |} /\
  classifyValue (js "4111111111111111") <> NUMERIC_ID /\
  calculateConfidence (js "4111111111111111") [occurrenceOf (Sampler.mk 1 (JStr (js "Pay")) [])]
  <> MEDIUM.
Proof.
  split; [vm_compute; reflexivity|]. split; vm_compute; discriminate.
Qed.

(** ** Errors *)

Lemma lookup_In (k : jsstring) (props : list (jsstring * jsval)) (v : jsval) :
  lookup k props = Some v -> exists k', In (k', v) props.
Proof.
  induction props as [|[k' x] props IH]; simpl; [discriminate|].
  destruct (str_eqb k' k).
  - intros E; injection E as ->. eauto.
  - intros H. destruct (IH H) as [k'' ?]. eauto.
Qed.

Lemma get_tolerated (v : jsval) (k : jsstring) :
  tolerated v = true -> toleratedOpt (get v k).
Proof.
  intros T x. destruct v as [s|props|elems]; simpl; try discriminate.
  intros L. apply lookup_In in L. destruct L as [k' L].
  cbn [tolerated] in T. apply andb_true_iff in T. destruct T as [_ T].
  rewrite forallb_forall in T. apply (T (k', x) L).
Qed.

Lemma getOpt_tolerated (v : option jsval) (k : jsstring) :
  toleratedOpt v -> toleratedOpt (getOpt v k).
Proof.
  intros T. destruct v as [x|]; simpl; [|discriminate].
  apply get_tolerated, T. reflexivity.
Qed.

Lemma namedStringProp_tolerated (owner : jsval) (name : jsstring) :
  tolerated owner = true ->
  exists prop, namedStringProp owner name = Ok prop /\ toleratedOpt prop.
Proof.
  intros T. unfold namedStringProp.
  pose proof (get_tolerated owner (js "stringProp") T) as S.
  destruct (get owner (js "stringProp")) as [stringProp|]; [|exists None; split; [reflexivity|discriminate]].
  specialize (S _ eq_refl).
  destruct stringProp as [s|props|elems]; cbn [bind].
  - exists None. split; [reflexivity|discriminate].
  - cbn [tolerated] in S. apply andb_true_iff in S. destruct S as [S F].
    apply andb_true_iff in S. destruct S as [S X].
    destruct (lookup (js "find") props) eqn:L; [discriminate|]. cbn [bind truthy].
    eexists. split; [reflexivity|].
    apply (get_tolerated (JObj props)). cbn [tolerated].
    rewrite L, X, F. reflexivity.
  - eexists. split; [reflexivity|].
    destruct (find (hasName name) elems) as [p|] eqn:F.
    + apply find_some in F. destruct F as [F _].
      cbn [tolerated] in S. rewrite forallb_forall in S.
      destruct (truthy (Some p)); intros x E; [injection E as <-; auto|discriminate].
    + simpl. discriminate.
Qed.

Lemma trimmedText_tolerated (prop : option jsval) :
  toleratedOpt prop -> exists text, trimmedText prop = Ok text.
Proof.
  intros T. unfold trimmedText. destruct prop as [p|]; simpl; [|eauto].
  specialize (T p eq_refl). destruct p as [s|props|elems]; simpl; eauto.
  cbn [tolerated] in T. apply andb_true_iff in T. destruct T as [T _].
  apply andb_true_iff in T. destruct T as [_ T].
  cbn [get]. destruct (lookup (js "_") props) as [[[|c s]|ps|es]|];
    try discriminate; eauto.
Qed.

Lemma forEach_total {A S : Type} (body : S -> A -> outcome S) (xs : list A) :
  Forall (fun x => forall st, exists st', body st x = Ok st') xs ->
  forall st, exists st', forEach body xs st = Ok st'.
Proof.
  induction 1 as [|x xs Hx _ IH]; intros st; simpl; [eauto|].
  destruct (Hx st) as [st1 ->]. simpl. apply IH.
Qed.

Lemma addArgument_tolerated (arg : jsval) :
  tolerated arg = true -> forall values, exists values', addArgument values arg = Ok values'.
Proof.
  intros T values. unfold addArgument.
  destruct (namedStringProp_tolerated arg (js "Argument.value") T) as (prop & -> & P).
  cbn [bind]. destruct (trimmedText_tolerated prop P) as [[text|] ->]; cbn [bind]; eauto.
Qed.

Lemma extractRequestValues_tolerated (sampler : jsval) :
  tolerated sampler = true -> exists values, extractRequestValues sampler = Ok values.
Proof.
  intros T. unfold extractRequestValues.
  destruct (namedStringProp_tolerated sampler (js "HTTPSampler.path") T) as (prop & -> & P).
  cbn [bind]. destruct (trimmedText_tolerated prop P) as [text ->]. cbn [bind].
  apply forEach_total.
  pose proof (getOpt_tolerated _ (js "elementProp")
                (getOpt_tolerated _ (js "collectionProp")
                   (get_tolerated sampler (js "elementProp") T))) as A.
  destruct (getOpt _ (js "elementProp")) as [args|]; [|constructor].
  specialize (A _ eq_refl).
  destruct args as [s|props|elems].
  - destruct (truthy _); repeat constructor. apply addArgument_tolerated, A.
  - cbn [truthy]. repeat constructor. apply addArgument_tolerated, A.
  - cbn [tolerated] in A. rewrite forallb_forall in A. apply Forall_forall.
    intros arg H. apply addArgument_tolerated, A, H.
Qed.

Lemma pushSampler_tolerated (s : jsval) :
  tolerated s = true -> forall st, exists st', pushSampler st s = Ok st'.
Proof.
  intros T st. unfold pushSampler.
  destruct (extractRequestValues_tolerated s T) as [values ->]. cbn [bind]. eauto.
Qed.

(** Every step has a default for absent data: on a tree in which no object
    has a property [find] and every [_] is text, nothing throws, whatever
    else is absent. *)
Lemma collectHTTPSamplers_tolerated (node : jsval) :
  tolerated node = true -> forall st, exists st', collectHTTPSamplers node st = Ok st'.
Proof.
  induction node as [s|props IH|elems IH] using jsval_ind; intros T st;
    cbn [collectHTTPSamplers].
  - eauto.
  - pose proof (get_tolerated (JObj props) (js "HTTPSamplerProxy") T) as P.
    cbn [get] in P.
    cbn [tolerated] in T. apply andb_true_iff in T. destruct T as [_ T].
    rewrite forallb_forall in T.
    assert (H1 : exists st1,
               match lookup (js "HTTPSamplerProxy") props with
               | Some (JArr samplers) => forEach pushSampler samplers st
               | Some s =>
                   if truthy (lookup (js "HTTPSamplerProxy") props)
                   then pushSampler st s else Ok st
               | None => Ok st
               end = Ok st1).
    { destruct (lookup (js "HTTPSamplerProxy") props) as [[x|ps|samplers]|]; [| | |eauto].
      - destruct (truthy _); [|eauto]. apply pushSampler_tolerated, P. reflexivity.
      - cbn [truthy]. apply pushSampler_tolerated, P. reflexivity.
      - apply forEach_total. specialize (P _ eq_refl). cbn [tolerated] in P.
        rewrite forallb_forall in P. apply Forall_forall.
        intros s H. apply pushSampler_tolerated, P, H. }
    destruct H1 as [st1 ->]. cbn [bind].
    apply forEach_total. rewrite Forall_forall in *.
    intros kv H st0. apply IH; auto.
  - apply forEach_total. cbn [tolerated] in T. rewrite forallb_forall in T.
    rewrite Forall_forall in *. intros child H st0. apply IH; auto.
Qed.

(** A sampler with nothing in it: its name defaults to its number, it has no
    values, and the Report has no candidates. *)
Example empty_sampler_report :
  analyzeDocument (testPlan [JStr (js "x")]) (js "empty.jmx") =
  Ok {| jmxFile := js "empty.jmx"; samplersScanned := 1; correlationCandidates := 0;
        suggestions := [] |} /\
  collectHTTPSamplers (testPlan [JStr (js "x")]) emptyWalk =
  Ok {| index := 1; result := [Sampler.mk 1 (JStr (js "Sampler-1")) []] |}.
Proof. split; vm_compute; reflexivity. Qed.

(** C9 fails on the code: the document exists and is a well-formed tree, and
    the engine throws.  [sampler.stringProp?.find?.(...)] calls the [find]
    property of the one [stringProp] object, which is its child element
    [find] and no function. *)
Theorem findDocument_throws :
  analyzeDocument findDocument (js "find.jmx") = Throw TypeError.
Proof. vm_compute. reflexivity. Qed.

(** * Determinism

    The engine with its objects on a heap completes as the pure engine
    says, from every heap: what an invocation reads, it has created or
    written itself. *)

(** ** Computations on the heap *)

Lemma wp_bind {A B : Type} (m : Stateful.M A) (k : A -> Stateful.M B)
    (h : Stateful.heap) (Q : Stateful.completion B -> Stateful.heap -> Prop) :
  Stateful.wp m h
    (fun c h' =>
       match c with
       | Stateful.Returns a => Stateful.wp (k a) h' Q
       | Stateful.Throws e => Q (Stateful.Throws e) h'
       | Stateful.Loops => Q Stateful.Loops h'
       end) ->
  Stateful.wp (Stateful.bindM m k) h Q.
Proof.
  unfold Stateful.wp, Stateful.bindM. destruct (m h) as [[a|e|] h']; auto.
Qed.

Lemma wp_mono {A : Type} (m : Stateful.M A) (h : Stateful.heap)
    (P Q : Stateful.completion A -> Stateful.heap -> Prop) :
  Stateful.wp m h P -> (forall c h', P c h' -> Q c h') -> Stateful.wp m h Q.
Proof.
  unfold Stateful.wp. destruct (m h) as [c h']. auto.
Qed.

Lemma wp_ret {A : Type} (a : A) (h : Stateful.heap)
    (Q : Stateful.completion A -> Stateful.heap -> Prop) :
  Q (Stateful.Returns a) h -> Stateful.wp (Stateful.ret a) h Q.
Proof. exact (fun H => H). Qed.

Lemma wp_throw {A : Type} (e : exn) (h : Stateful.heap)
    (Q : Stateful.completion A -> Stateful.heap -> Prop) :
  Q (Stateful.Throws e) h -> Stateful.wp (Stateful.throw e) h Q.
Proof. exact (fun H => H). Qed.

Lemma wp_lift {A : Type} (o : outcome A) (h : Stateful.heap)
    (Q : Stateful.completion A -> Stateful.heap -> Prop) :
  Q (Stateful.completionOf o) h -> Stateful.wp (Stateful.lift o) h Q.
Proof. exact (fun H => H). Qed.

Lemma wp_load (r : Stateful.ref) (o : Stateful.object) (h : Stateful.heap)
    (Q : Stateful.completion Stateful.object -> Stateful.heap -> Prop) :
  nth_error h r = Some o -> Q (Stateful.Returns o) h -> Stateful.wp (Stateful.load r) h Q.
Proof.
  unfold Stateful.wp, Stateful.load. intros ->. auto.
Qed.

Lemma wp_store (r : Stateful.ref) (old o : Stateful.object) (h : Stateful.heap)
    (Q : Stateful.completion unit -> Stateful.heap -> Prop) :
  nth_error h r = Some old ->
  (forall h', Stateful.stored r o h h' -> Q (Stateful.Returns tt) h') ->
  Stateful.wp (Stateful.store r o) h Q.
Proof.
  intros H K. apply K.
  assert (L : r < length h) by (apply nth_error_Some; congruence).
  assert (F : length (firstn r h) = r) by (rewrite length_firstn; lia).
  split.
  - rewrite nth_error_app2, F, Nat.sub_diag by lia. reflexivity.
  - intros a x N E0. rewrite <- E0. destruct (Nat.lt_ge_cases a r) as [Lt|Ge].
    + rewrite nth_error_app1 by lia. rewrite nth_error_firstn.
      destruct (Nat.ltb_spec a r); [reflexivity|lia].
    + rewrite nth_error_app2, F by lia.
      destruct (a - r) as [|k] eqn:E; [lia|]. cbn [nth_error].
      rewrite nth_error_skipn. f_equal. lia.
Qed.

Lemma wp_new (o : Stateful.object) (h : Stateful.heap)
    (Q : Stateful.completion Stateful.ref -> Stateful.heap -> Prop) :
  (forall h', Stateful.allocated o h h' -> Q (Stateful.Returns (length h)) h') ->
  Stateful.wp (Stateful.new o) h Q.
Proof.
  intros K. apply K. split; [|split].
  - rewrite length_app. simpl. lia.
  - rewrite nth_error_app2, Nat.sub_diag by lia. reflexivity.
  - intros a x H. assert (a < length h) by (apply nth_error_Some; congruence).
    rewrite nth_error_app1 by lia. assumption.
Qed.

Lemma cell_lt (h : Stateful.heap) (a : Stateful.ref) (o : Stateful.object) :
  nth_error h a = Some o -> a < length h.
Proof. intros H. apply nth_error_Some. congruence. Qed.

(** ** Regular expressions

    The loop over [exec], which keeps the place of the search in
    [lastIndex], pushes the matches of [execAll]. *)

Lemma skipn_cons_next (text : jsstring) :
  forall i c s, skipn i text = c :: s ->
    skipn (S i) text = s /\ Stateful.before text (S i) = Some c /\ S i <= length text.
Proof.
  induction text as [|x text IH]; intros i c s.
  - rewrite skipn_nil. discriminate.
  - destruct i as [|i].
    + simpl. intros E; injection E as -> ->. repeat split. lia.
    + intros E. change (skipn i text = c :: s) in E.
      destruct (IH _ _ _ E) as (A & B & C).
      repeat split; [exact A | exact B | simpl; lia].
Qed.

Lemma search_execAll (p : pattern) (text : jsstring) :
  forall s i, skipn i text = s -> i <= length text ->
    match Stateful.search p (Stateful.before text i) s i with
    | None => execAll p (Stateful.before text i) s 0 = []
    | Some (j, n) =>
        i <= j /\ j <= length text /\
        matchNodes p (Stateful.before text j) (skipn j text) = Some n /\
        execAll p (Stateful.before text i) s 0 =
        execAll p (Stateful.before text j) (skipn j text) 0
    end.
Proof.
  induction s as [|c s IH]; intros i E L; simpl.
  - destruct (matchNodes p (Stateful.before text i) []) eqn:M.
    + rewrite E. repeat split; auto.
    + reflexivity.
  - destruct (matchNodes p (Stateful.before text i) (c :: s)) eqn:M.
    + rewrite E. cbn [execAll]. rewrite M. repeat split; auto.
    + destruct (skipn_cons_next _ _ _ _ E) as (A & B & C).
      specialize (IH (S i) A C). rewrite B in IH.
      destruct (Stateful.search p (Some c) s (S i)) as [[j n]|].
      * destruct IH as (I1 & I2 & I3 & I4). repeat split; auto; lia.
      * exact IH.
Qed.

Lemma execAll_skip (p : pattern) (text : jsstring) :
  forall k i, i + k <= length text ->
    execAll p (Stateful.before text i) (skipn i text) k =
    execAll p (Stateful.before text (i + k)) (skipn (i + k) text) 0.
Proof.
  induction k as [|k IH]; intros i L.
  - rewrite Nat.add_0_r. reflexivity.
  - destruct (skipn i text) as [|c s] eqn:E.
    + pose proof (length_skipn i text) as Len. rewrite E in Len. simpl in Len. lia.
    + destruct (skipn_cons_next _ _ _ _ E) as (A & B & C).
      simpl. rewrite <- A, <- B, IH by lia. rewrite <- Nat.add_succ_comm. reflexivity.
Qed.

Lemma execAll_match (p : pattern) (text : jsstring) (j n : nat) :
  matchNodes p (Stateful.before text j) (skipn j text) = Some n ->
  1 <= n ->
  j + n <= length text /\
  execAll p (Stateful.before text j) (skipn j text) 0 =
  firstn n (skipn j text) ::
  execAll p (Stateful.before text (j + n)) (skipn (j + n) text) 0.
Proof.
  intros M N. pose proof (matchNodes_bounds _ _ _ _ M) as [_ B].
  pose proof B as B2. rewrite length_skipn in B2. split; [lia|].
  destruct (skipn j text) as [|c s] eqn:E; [simpl in B; lia|].
  destruct (skipn_cons_next _ _ _ _ E) as (A & B' & C).
  cbn [execAll]. rewrite M. f_equal.
  rewrite <- A, <- B', execAll_skip by lia. 
  replace (S j + pred n) with (j + n) by lia. reflexivity.
Qed.

Lemma execLoop_execAll (p : pattern) (text : jsstring) (r literals : Stateful.ref) :
  (forall prev s n, matchNodes p prev s = Some n -> 1 <= n) ->
  forall turns lastIndex items h (Q : Stateful.completion unit -> Stateful.heap -> Prop),
    lastIndex <= length text ->
    length text - lastIndex < turns ->
    nth_error h r = Some (Stateful.RegExp p lastIndex) ->
    nth_error h literals = Some (Stateful.Literals items) ->
    (forall h',
        nth_error h' literals =
          Some (Stateful.Literals
                  (items ++
                   execAll p (Stateful.before text lastIndex) (skipn lastIndex text) 0)) ->
        (forall a x, a <> r -> a <> literals ->
                     nth_error h a = Some x -> nth_error h' a = Some x) ->
        Q (Stateful.Returns tt) h') ->
    Stateful.wp (Stateful.execLoop turns r literals text) h Q.
Proof.
  intros NE. induction turns as [|turns IH]; intros li items h Q L T R Lit K; [lia|].
  assert (D : r <> literals) by congruence.
  cbn [Stateful.execLoop]. apply wp_bind. unfold Stateful.exec.
  apply wp_bind. eapply wp_load; [exact R|]. cbv beta iota.
  destruct (Nat.leb_spec li (length text)) as [_|]; [|lia].
  pose proof (search_execAll p text _ li eq_refl L) as S.
  destruct (Stateful.search p (Stateful.before text li) (skipn li text) li) as [[j n]|].
  - destruct S as (S1 & S2 & S3 & S4).
    pose proof (NE _ _ _ S3) as N1.
    destruct (execAll_match p text j n S3 N1) as (S5 & S6).
    apply wp_bind. eapply wp_store; [exact R|]. intros h1 [R1 F1].
    apply wp_ret. apply wp_bind. unfold Stateful.pushLiteral.
    apply wp_bind. eapply wp_load; [apply F1; eauto|]. cbv beta iota.
    eapply wp_store; [apply F1; eauto|]. intros h2 [R2 F2].
    eapply IH; [exact S5 | lia | apply F2; eauto | exact R2 |].
    intros h3 Lit3 F3. apply K.
    + rewrite Lit3, S4, S6, <- app_assoc. reflexivity.
    + intros a x A1 A2 H. apply F3, F2, F1; auto.
  - apply wp_bind. eapply wp_store; [exact R|]. intros h1 [R1 F1].
    apply wp_ret. apply wp_ret. apply K.
    + rewrite S, app_nil_r. apply F1; auto.
    + intros a x A1 A2. apply F1, A1.
Qed.

Lemma nonempty_match (p : pattern) :
  In p [uuidRegex; jwtRegex; numRegex; alphaNumRegex] ->
  forall prev s n, matchNodes p prev s = Some n -> 1 <= n.
Proof.
  intros Hp prev s n M. pose proof (matchNodes_nonempty p prev s n Hp M). lia.
Qed.

(** [extractLiterals] leaves the array of the literals at a new address and
    every object that was there as it was. *)
Lemma extractLiterals_heap (text : jsstring) (h : Stateful.heap)
    (Q : Stateful.completion Stateful.ref -> Stateful.heap -> Prop) :
  (forall literals h',
      nth_error h' literals = Some (Stateful.Literals (extractLiterals text)) ->
      (forall a o, nth_error h a = Some o -> nth_error h' a = Some o) ->
      Q (Stateful.Returns literals) h') ->
  Stateful.wp (Stateful.extractLiterals text) h Q.
Proof.
  intros K. unfold Stateful.extractLiterals.
  apply wp_bind, wp_new. intros h0 (N0 & L0 & F0).
  destruct text as [|c text].
  { apply wp_ret, K; [exact L0|exact F0]. }
  set (txt := c :: text).
  apply wp_bind, wp_new. intros h1 (N1 & L1 & F1).
  apply wp_bind, wp_new. intros h2 (N2 & L2 & F2).
  apply wp_bind, wp_new. intros h3 (N3 & L3 & F3).
  apply wp_bind, wp_new. intros h4 (N4 & L4 & F4).
  assert (T : length txt - 0 < S (length txt)) by lia.
  apply wp_bind. cbn [Stateful.forEachM].
  apply wp_bind.
  eapply (execLoop_execAll uuidRegex txt _ _ (nonempty_match uuidRegex ltac:(simpl; auto 6)) _ 0);
    [lia | exact T | apply F4, F3, F2, L1 | apply F4, F3, F2, F1, L0 |].
  intros k1 B1 G1.
  apply wp_bind.
  eapply (execLoop_execAll jwtRegex txt _ _ (nonempty_match jwtRegex ltac:(simpl; auto 6)) _ 0);
    [lia | exact T | apply G1; [lia | lia | apply F4, F3, L2] | exact B1 |].
  intros k2 B2 G2.
  apply wp_bind.
  eapply (execLoop_execAll numRegex txt _ _ (nonempty_match numRegex ltac:(simpl; auto 6)) _ 0);
    [lia | exact T | apply G2, G1; try lia; apply F4, L3 | exact B2 |].
  intros k3 B3 G3.
  apply wp_bind.
  eapply (execLoop_execAll alphaNumRegex txt _ _ (nonempty_match alphaNumRegex ltac:(simpl; auto 6)) _ 0);
    [lia | exact T | apply G3, G2, G1; try lia; exact L4 | exact B3 |].
  intros k4 B4 G4.
  apply wp_ret, wp_ret. apply K.
  - rewrite B4. unfold extractLiterals. subst txt. simpl.
    rewrite app_nil_r, <- !app_assoc. reflexivity.
  - intros a o H. pose proof (cell_lt _ _ _ H).
    apply G4, G3, G2, G1; try lia. apply F4, F3, F2, F1, F0, H.
Qed.

(** ** The values of a request *)

Lemma stored_trans (r : Stateful.ref) (o o' : Stateful.object) (h h1 h2 : Stateful.heap) :
  Stateful.stored r o h h1 -> Stateful.stored r o' h1 h2 -> Stateful.stored r o' h h2.
Proof.
  intros [_ F1] [R2 F2]. split; [exact R2|]. intros a x N H. apply F2, F1; auto.
Qed.

Lemma stored_refl (r : Stateful.ref) (o : Stateful.object) (h : Stateful.heap) :
  nth_error h r = Some o -> Stateful.stored r o h h.
Proof. intros H. split; auto. Qed.

(** A loop whose body keeps an invariant of the heap and of what the pure
    loop has computed so far. *)
Lemma forEachM_fold {A S : Type} (I : S -> Stateful.heap -> Prop)
    (body : A -> Stateful.M unit) (f : S -> A -> S) (xs : list A) :
  (forall x st h, In x xs -> I st h ->
     Stateful.wp (body x) h (fun c h' => c = Stateful.Returns tt /\ I (f st x) h')) ->
  forall st h, I st h ->
    Stateful.wp (Stateful.forEachM body xs) h
      (fun c h' => c = Stateful.Returns tt /\ I (fold_left f xs st) h').
Proof.
  induction xs as [|x xs IH]; intros B st h H; cbn [Stateful.forEachM fold_left].
  - apply wp_ret. auto.
  - apply wp_bind. eapply wp_mono; [apply B; [left; reflexivity | exact H]|].
    intros c h' [-> H']. apply IH; [|exact H'].
    intros y st' k Y. apply B. right. exact Y.
Qed.

Lemma forEachM_forEach {A S : Type} (I : S -> Stateful.heap -> Prop)
    (body : A -> Stateful.M unit) (f : S -> A -> outcome S) (xs : list A) :
  (forall x st h, In x xs -> I st h ->
     Stateful.wp (body x) h (Stateful.post (f st x) (fun st' _ h' => I st' h'))) ->
  forall st h, I st h ->
    Stateful.wp (Stateful.forEachM body xs) h
      (Stateful.post (forEach f xs st) (fun st' _ h' => I st' h')).
Proof.
  induction xs as [|x xs IH]; intros B st h H; cbn [Stateful.forEachM forEach].
  - apply wp_ret. exists tt. auto.
  - apply wp_bind. eapply wp_mono; [apply B; [left; reflexivity | exact H]|].
    intros c h'. unfold Stateful.post at 1.
    destruct (f st x) as [st'|e]; cbn [bind].
    + intros ([] & -> & H'). apply IH; [|exact H'].
      intros y st'' k Y. apply B. right. exact Y.
    + intros ->. reflexivity.
Qed.

Lemma add_set (values : Stateful.ref) (items : list jsstring) (v : jsstring)
    (h : Stateful.heap) :
  nth_error h values = Some (Stateful.SetObject items) ->
  Stateful.wp (Stateful.add values v) h
    (fun c h' => c = Stateful.Returns tt /\
                 Stateful.stored values (Stateful.SetObject (SetAdd items v)) h h').
Proof.
  intros H. unfold Stateful.add. apply wp_bind. eapply wp_load; [exact H|].
  cbv beta iota. eapply wp_store; [exact H|]. auto.
Qed.

Lemma addLiterals_set (values : Stateful.ref) (items : list jsstring) (text : jsstring)
    (h : Stateful.heap) :
  nth_error h values = Some (Stateful.SetObject items) ->
  Stateful.wp (Stateful.addLiterals values text) h
    (fun c h' => c = Stateful.Returns tt /\
                 Stateful.stored values (Stateful.SetObject (addLiterals items text)) h h').
Proof.
  intros H. unfold Stateful.addLiterals. apply wp_bind.
  apply extractLiterals_heap. intros literals h1 L1 F1.
  apply wp_bind. eapply wp_load; [exact L1|]. cbv beta iota.
  eapply wp_mono.
  - apply (forEachM_fold
             (fun items' h' => Stateful.stored values (Stateful.SetObject items') h h')
             (Stateful.add values) SetAdd).
    + intros x st k _ K. eapply wp_mono; [apply add_set, (proj1 K)|].
      intros c h' [-> S]. split; [reflexivity|]. eapply stored_trans; eassumption.
    + split; [apply F1, H|]. intros a x _. apply F1.
  - intros c h' [-> S]. split; [reflexivity|exact S].
Qed.

Lemma addArgument_set (values : Stateful.ref) (items : list jsstring) (arg : jsval)
    (h : Stateful.heap) :
  nth_error h values = Some (Stateful.SetObject items) ->
  Stateful.wp (Stateful.addArgument values arg) h
    (Stateful.post (addArgument items arg)
       (fun items' _ h' => Stateful.stored values (Stateful.SetObject items') h h')).
Proof.
  intros H. unfold Stateful.addArgument, addArgument, Stateful.post.
  apply wp_bind, wp_lift.
  destruct (namedStringProp arg (js "Argument.value")) as [valProp|e];
    cbn [Stateful.completionOf bind]; [|reflexivity].
  apply wp_bind, wp_lift.
  destruct (trimmedText valProp) as [[valText|]|e];
    cbn [Stateful.completionOf bind]; [| |reflexivity].
  - apply wp_bind.
    assert (W : Stateful.wp
                  match valText with
                  | [] => Stateful.ret tt
                  | _ :: _ => if isIgnorable valText then Stateful.ret tt
                              else Stateful.add values valText
                  end h
                  (fun c h' =>
                     c = Stateful.Returns tt /\
                     Stateful.stored values
                       (Stateful.SetObject
                          match valText with
                          | [] => items
                          | _ :: _ => if isIgnorable valText then items
                                      else SetAdd items valText
                          end) h h')).
    { destruct valText as [|c0 v0].
      - apply wp_ret. split; [reflexivity|]. apply stored_refl, H.
      - destruct (isIgnorable (c0 :: v0)).
        + apply wp_ret. split; [reflexivity|]. apply stored_refl, H.
        + apply add_set, H. }
    eapply wp_mono; [exact W|]. intros c h1 [-> S1].
    eapply wp_mono; [apply addLiterals_set, (proj1 S1)|].
    intros c h2 [-> S2]. exists tt. split; [reflexivity|].
    eapply stored_trans; eassumption.
  - apply wp_ret. exists tt. split; [reflexivity|]. apply stored_refl, H.
Qed.

(** The values of a request: what the pure function gives; the objects
    that were on the heap are as they were. *)
Lemma extractRequestValues_heap (sampler : jsval) (h : Stateful.heap) :
  Stateful.wp (Stateful.extractRequestValues sampler) h
    (Stateful.post (extractRequestValues sampler)
       (fun values a h' =>
          a = values /\ forall r o, nth_error h r = Some o -> nth_error h' r = Some o)).
Proof.
  unfold Stateful.extractRequestValues, extractRequestValues, Stateful.post.
  apply wp_bind, wp_new. intros h0 (N0 & L0 & F0).
  apply wp_bind, wp_lift.
  destruct (namedStringProp sampler (js "HTTPSampler.path")) as [pathProp|e];
    cbn [Stateful.completionOf bind]; [|reflexivity].
  apply wp_bind, wp_lift.
  destruct (trimmedText pathProp) as [text|e];
    cbn [Stateful.completionOf bind]; [|reflexivity].
  apply wp_bind.
  set (values := match text with
                 | Some fullPath => addLiterals (addQueryValues [] fullPath) fullPath
                 | None => []
                 end).
  assert (W : Stateful.wp
                match text with
                | Some fullPath =>
                    Stateful.bindM
                      match split (ch "?") fullPath with
                      | _ :: ((_ :: _) as query) :: _ =>
                          Stateful.forEachM
                            (fun val => if isIgnorable val then Stateful.ret tt
                                        else Stateful.add (length h) val)
                            (URLSearchParams_values query)
                      | _ => Stateful.ret tt
                      end
                      (fun _ => Stateful.addLiterals (length h) fullPath)
                | None => Stateful.ret tt
                end h0
                (fun c h' =>
                   c = Stateful.Returns tt /\
                   Stateful.stored (length h) (Stateful.SetObject values) h0 h')).
  { subst values. destruct text as [fullPath|].
    - apply wp_bind.
      assert (V : Stateful.wp
                    match split (ch "?") fullPath with
                    | _ :: ((_ :: _) as query) :: _ =>
                        Stateful.forEachM
                          (fun val => if isIgnorable val then Stateful.ret tt
                                      else Stateful.add (length h) val)
                          (URLSearchParams_values query)
                    | _ => Stateful.ret tt
                    end h0
                    (fun c h' =>
                       c = Stateful.Returns tt /\
                       Stateful.stored (length h)
                         (Stateful.SetObject (addQueryValues [] fullPath)) h0 h')).
      { unfold addQueryValues.
        destruct (split (ch "?") fullPath) as [|x [|[|q0 q] rest]];
          try (apply wp_ret; split; [reflexivity|]; apply stored_refl, L0).
        apply (forEachM_fold
                 (fun items' h' =>
                    Stateful.stored (length h) (Stateful.SetObject items') h0 h')
                 _ (fun values val => if isIgnorable val then values
                                      else SetAdd values val)).
        - intros val st k _ K. destruct (isIgnorable val).
          + apply wp_ret. auto.
          + eapply wp_mono; [apply add_set, (proj1 K)|].
            intros c h' [-> S]. split; [reflexivity|].
            eapply stored_trans; eassumption.
        - apply stored_refl, L0. }
      eapply wp_mono; [exact V|]. intros c h1 [-> S1].
      eapply wp_mono; [apply addLiterals_set, (proj1 S1)|].
      intros c h2 [-> S2]. split; [reflexivity|]. eapply stored_trans; eassumption.
    - apply wp_ret. split; [reflexivity|]. apply stored_refl, L0. }
  eapply wp_mono; [exact W|]. intros c h1 [-> S1]. clear W.
  apply wp_bind.
  eapply wp_mono.
  - apply (forEachM_forEach
             (fun items' h' => Stateful.stored (length h) (Stateful.SetObject items') h0 h')
             (Stateful.addArgument (length h)) addArgument).
    + intros arg st k _ K. eapply wp_mono; [apply addArgument_set, (proj1 K)|].
      intros c h'. unfold Stateful.post. destruct (addArgument st arg); [|auto].
      intros ([] & -> & S). exists tt. split; [reflexivity|].
      eapply stored_trans; eassumption.
    + exact S1.
  - intros c h2. unfold Stateful.post.
    match goal with |- context [forEach addArgument ?l ?v] =>
      destruct (forEach addArgument l v) as [items|e] end; [|intros ->; reflexivity].
    intros ([] & -> & S2).
    apply wp_bind. eapply wp_load; [apply (proj1 S2)|]. cbv beta iota.
    apply wp_ret. exists items. split; [reflexivity|]. split; [reflexivity|].
    intros r o H. pose proof (cell_lt _ _ _ H).
    apply (proj2 S2); [lia|]. apply F0, H.
Qed.

(** ** The walk *)

Lemma pushSampler_heap (result order : Stateful.ref) (s : jsval) (st : walk)
    (h : Stateful.heap) :
  Stateful.walkAt result order st h ->
  Stateful.wp (Stateful.pushSampler result order s) h
    (Stateful.post (pushSampler st s)
       (fun st' _ h' => Stateful.walkAt result order st' h')).
Proof.
  intros [R O]. assert (D : result <> order) by congruence.
  unfold Stateful.pushSampler, pushSampler, Stateful.post.
  apply wp_bind. unfold Stateful.increment.
  apply wp_bind. eapply wp_load; [exact O|]. cbv beta iota.
  apply wp_bind. eapply wp_store; [exact O|]. intros h1 [O1 F1].
  apply wp_ret, wp_bind.
  eapply wp_mono; [apply extractRequestValues_heap|].
  intros c h2. unfold Stateful.post.
  destruct (extractRequestValues s) as [values|e]; cbn [bind]; [|intros ->; reflexivity].
  intros (a & -> & -> & F2).
  unfold Stateful.pushResult.
  apply wp_bind. eapply wp_load; [apply F2, F1; eauto|]. cbv beta iota.
  eapply wp_store; [apply F2, F1; eauto|]. intros h3 [R3 F3].
  exists tt. split; [reflexivity|]. split; [exact R3|].
  apply F3; [auto|]. apply F2, O1.
Qed.

Lemma collectHTTPSamplers_heap (result order : Stateful.ref) (node : jsval) :
  forall st h,
    Stateful.walkAt result order st h ->
    Stateful.wp (Stateful.collectHTTPSamplers node result order) h
      (Stateful.post (collectHTTPSamplers node st)
         (fun st' _ h' => Stateful.walkAt result order st' h')).
Proof.
  induction node as [s|props IH|elems IH] using jsval_ind; intros st h W;
    cbn [Stateful.collectHTTPSamplers collectHTTPSamplers].
  - apply wp_ret. exists tt. auto.
  - apply wp_bind.
    assert (P : Stateful.wp
                  match lookup (js "HTTPSamplerProxy") props with
                  | Some (JArr samplers) =>
                      Stateful.forEachM (Stateful.pushSampler result order) samplers
                  | Some s =>
                      if truthy (lookup (js "HTTPSamplerProxy") props)
                      then Stateful.pushSampler result order s else Stateful.ret tt
                  | None => Stateful.ret tt
                  end h
                  (Stateful.post
                     match lookup (js "HTTPSamplerProxy") props with
                     | Some (JArr samplers) => forEach pushSampler samplers st
                     | Some s =>
                         if truthy (lookup (js "HTTPSamplerProxy") props)
                         then pushSampler st s else Ok st
                     | None => Ok st
                     end
                     (fun st' _ h' => Stateful.walkAt result order st' h'))).
    { destruct (lookup (js "HTTPSamplerProxy") props) as [[[|c x]|ps|samplers]|];
        cbn [truthy];
        try (apply wp_ret; exists tt; auto);
        try (apply pushSampler_heap, W).
      apply (forEachM_forEach (fun st' h' => Stateful.walkAt result order st' h'));
        [|exact W].
      intros x st' k _ K. apply pushSampler_heap, K. }
    eapply wp_mono; [exact P|]. clear P. intros c h1. unfold Stateful.post at 1.
    match goal with |- match ?o with _ => _ end -> _ => destruct o as [st1|e] end;
      cbn [bind]; [|intros ->; reflexivity].
    intros ([] & -> & W1).
    apply (forEachM_forEach (fun st' h' => Stateful.walkAt result order st' h')
             (fun kv => Stateful.collectHTTPSamplers (snd kv) result order)
             (fun st kv => collectHTTPSamplers (snd kv) st)); [|exact W1].
    intros kv st' k I K. rewrite Forall_forall in IH. apply (IH kv I), K.
  - apply (forEachM_forEach (fun st' h' => Stateful.walkAt result order st' h')
             (fun child => Stateful.collectHTTPSamplers child result order)
             (fun st child => collectHTTPSamplers child st)); [|exact W].
    intros child st' k I K. rewrite Forall_forall in IH. apply (IH child I), K.
Qed.

(** ** The index and the suggestions *)

Lemma entryOf_In (value : jsstring) (entries : list (jsstring * Stateful.ref))
    (a : Stateful.ref) :
  Stateful.entryOf value entries = Some a -> In a (map snd entries).
Proof.
  induction entries as [|[k a0] entries IH]; cbn [Stateful.entryOf map snd]; [discriminate|].
  destruct (str_eqb k value).
  - intros E; injection E as ->. left. reflexivity.
  - intros E. right. apply IH, E.
Qed.

Lemma entries_kept (h h' : Stateful.heap) (entries : list (jsstring * Stateful.ref))
    (index : ValueIndex) :
  Forall2 (fun entry pair =>
             fst entry = fst pair /\
             nth_error h (snd entry) = Some (Stateful.Occurrences (snd pair)))
          entries index ->
  (forall a x, In a (map snd entries) -> nth_error h a = Some x -> nth_error h' a = Some x) ->
  Forall2 (fun entry pair =>
             fst entry = fst pair /\
             nth_error h' (snd entry) = Some (Stateful.Occurrences (snd pair)))
          entries index.
Proof.
  induction 1 as [|entry pair entries index [K C] _ IH]; intros F; constructor.
  - split; [exact K|]. apply F; [left; reflexivity|exact C].
  - apply IH. intros a x I. apply F. right. exact I.
Qed.

(** Pushing to the array of a value that the [Map] has. *)
Lemma MapPush_found (h : Stateful.heap) (value : jsstring) (o : Occurrence.t)
    (a : Stateful.ref) (entries : list (jsstring * Stateful.ref)) (index : ValueIndex) :
  Forall2 (fun entry pair =>
             fst entry = fst pair /\
             nth_error h (snd entry) = Some (Stateful.Occurrences (snd pair)))
          entries index ->
  NoDup (map snd entries) ->
  Stateful.entryOf value entries = Some a ->
  exists occurrences,
    nth_error h a = Some (Stateful.Occurrences occurrences) /\
    forall h',
      Stateful.stored a (Stateful.Occurrences (occurrences ++ [o])) h h' ->
      Forall2 (fun entry pair =>
                 fst entry = fst pair /\
                 nth_error h' (snd entry) = Some (Stateful.Occurrences (snd pair)))
              entries (MapPush index value o).
Proof.
  induction 1 as [|[k a0] [pk occ] entries index [K C] F IH];
    cbn [Stateful.entryOf MapPush map snd fst] in *; [discriminate|].
  intros N E. subst pk. inversion N as [|? ? N1 N2]; subst.
  destruct (str_eqb k value).
  - injection E as ->. exists occ. split; [exact C|]. intros h' [S1 S2]. constructor.
    + split; [reflexivity|exact S1].
    + eapply entries_kept; [exact F|]. intros b x I. apply S2. intros ->. auto.
  - destruct (IH N2 E) as (occurrences & A & P). exists occurrences. split; [exact A|].
    intros h' S. constructor.
    + split; [reflexivity|]. apply (proj2 S); [|exact C].
      cbn [snd]. intros ->. apply N1. eapply entryOf_In, E.
    + apply P, S.
Qed.

(** Pushing to the array of a value that the [Map] has not. *)
Lemma MapPush_new (h : Stateful.heap) (value : jsstring) (o : Occurrence.t)
    (entries : list (jsstring * Stateful.ref)) (index : ValueIndex) :
  Forall2 (fun entry pair =>
             fst entry = fst pair /\
             nth_error h (snd entry) = Some (Stateful.Occurrences (snd pair)))
          entries index ->
  Stateful.entryOf value entries = None ->
  MapPush index value o = index ++ [(value, [o])].
Proof.
  induction 1 as [|[k a0] [pk occ] entries index [K C] F IH];
    cbn [Stateful.entryOf MapPush fst] in *; [reflexivity|].
  subst pk. destruct (str_eqb k value); [discriminate|].
  intros E. rewrite (IH E). reflexivity.
Qed.

Lemma entries_lt (h : Stateful.heap) (entries : list (jsstring * Stateful.ref))
    (index : ValueIndex) :
  Forall2 (fun entry pair =>
             fst entry = fst pair /\
             nth_error h (snd entry) = Some (Stateful.Occurrences (snd pair)))
          entries index ->
  forall a, In a (map snd entries) ->
    a < length h /\ exists occurrences, nth_error h a = Some (Stateful.Occurrences occurrences).
Proof.
  induction 1 as [|entry pair entries index [K C] _ IH]; cbn [map In]; [tauto|].
  intros a [<-|I]; [|apply IH, I]. split; [eapply cell_lt, C|eauto].
Qed.

Lemma pushOccurrence_heap (index : Stateful.ref) (value : jsstring) (o : Occurrence.t)
    (entries : list (jsstring * Stateful.ref)) (pairs : ValueIndex) (h : Stateful.heap) :
  nth_error h index = Some (Stateful.MapObject entries) ->
  Stateful.indexAt entries pairs h ->
  Stateful.wp (Stateful.pushOccurrence index value o) h
    (fun c h' =>
       c = Stateful.Returns tt /\
       (exists entries',
           nth_error h' index = Some (Stateful.MapObject entries') /\
           Stateful.indexAt entries' (MapPush pairs value o) h') /\
       forall a items, nth_error h a = Some (Stateful.Samplers items) ->
                       nth_error h' a = Some (Stateful.Samplers items)).
Proof.
  intros M [F N]. unfold Stateful.pushOccurrence.
  apply wp_bind. eapply wp_load; [exact M|]. cbv beta iota.
  apply wp_bind.
  destruct (Stateful.entryOf value entries) as [a|] eqn:E.
  - destruct (MapPush_found h value o a _ _ F N E) as (occurrences & A & P).
    apply wp_ret, wp_bind. eapply wp_load; [exact A|]. cbv beta iota.
    eapply wp_store; [exact A|]. intros h1 S. split; [reflexivity|]. split.
    + exists entries. split.
      * apply (proj2 S); [congruence|exact M].
      * split; [apply P, S|exact N].
    + intros b items B. apply (proj2 S); [congruence|exact B].
  - rewrite (MapPush_new h value o _ _ F E).
    apply wp_bind, wp_new. intros h1 (N1 & L1 & F1).
    apply wp_bind. eapply wp_store; [apply F1, M|]. intros h2 [M2 F2].
    apply wp_ret, wp_bind.
    pose proof (cell_lt _ _ _ M) as Lt.
    eapply wp_load; [apply F2; [lia|exact L1]|]. cbv beta iota.
    eapply wp_store; [apply F2; [lia|exact L1]|]. intros h3 [A3 F3].
    split; [reflexivity|]. split.
    + exists (entries ++ [(value, length h)]). split.
      * apply F3; [lia|exact M2].
      * split.
        -- apply Forall2_app.
           ++ eapply entries_kept; [exact F|]. intros a x I H.
              destruct (entries_lt _ _ _ F a I) as (Lta & occ & C).
              apply F3; [lia|]. apply F2; [congruence|]. apply F1, H.
           ++ constructor; [|constructor]. split; [reflexivity|exact A3].
        -- rewrite map_app. cbn [map snd]. apply NoDup_app; [exact N| | ].
           ++ constructor; [simpl; tauto|constructor].
           ++ intros a I [<-|[]].
              destruct (entries_lt _ _ _ F _ I) as (Lta & _). lia.
    + intros b items B. pose proof (cell_lt _ _ _ B).
      apply F3; [lia|]. apply F2; [congruence|]. apply F1, B.
Qed.

(** The index: the [Map] and its arrays hold what the pure function gives,
    and the array of the samplers is as it was. *)
Lemma buildValueIndex_heap (samplers : Stateful.ref) (items : list Sampler.t)
    (h : Stateful.heap) :
  nth_error h samplers = Some (Stateful.Samplers items) ->
  Stateful.wp (Stateful.buildValueIndex samplers) h
    (fun c h' =>
       exists index entries,
         c = Stateful.Returns index /\
         nth_error h' index = Some (Stateful.MapObject entries) /\
         Stateful.indexAt entries (buildValueIndex items) h' /\
         nth_error h' samplers = Some (Stateful.Samplers items)).
Proof.
  intros H. unfold Stateful.buildValueIndex.
  apply wp_bind, wp_new. intros h0 (N0 & L0 & F0).
  apply wp_bind. eapply wp_load; [apply F0, H|]. cbv beta iota.
  apply wp_bind.
  set (I := fun (pairs : ValueIndex) (h' : Stateful.heap) =>
              (exists entries,
                  nth_error h' (length h) = Some (Stateful.MapObject entries) /\
                  Stateful.indexAt entries pairs h') /\
              forall a l, nth_error h a = Some (Stateful.Samplers l) ->
                          nth_error h' a = Some (Stateful.Samplers l)).
  eapply wp_mono.
  - apply (forEachM_fold I _ indexSampler items).
    + intros sampler pairs k _ K. unfold indexSampler.
      apply (forEachM_fold I _
               (fun index value =>
                  if isIgnorable value then index
                  else MapPush index value (occurrenceOf sampler))); [|exact K].
      intros value pairs' k' _ [(entries & M & A) S]. destruct (isIgnorable value).
      * apply wp_ret. split; [reflexivity|]. split; eauto.
      * eapply wp_mono; [apply (pushOccurrence_heap _ _ _ _ _ _ M A)|].
        intros c h' (-> & P & S'). split; [reflexivity|]. split; [exact P|].
        intros a l B. apply S', S, B.
    + split.
      * exists []. split; [exact L0|]. split; constructor.
      * intros a l B. apply F0, B.
  - intros c h' [-> [(entries & M & A) S]]. apply wp_ret.
    exists (length h), entries. repeat split; try assumption; try apply A.
    apply S, H.
Qed.

Lemma suggestions_loop (h0 : Stateful.heap) (entries : list (jsstring * Stateful.ref))
    (pairs : ValueIndex) :
  Forall2 (fun entry pair =>
             fst entry = fst pair /\
             nth_error h0 (snd entry) = Some (Stateful.Occurrences (snd pair)))
          entries pairs ->
  forall acc h,
    nth_error h (length h0) = Some (Stateful.Suggestions acc) ->
    (forall a x, nth_error h0 a = Some x -> nth_error h a = Some x) ->
    Stateful.wp
      (Stateful.forEachM
         (fun entry =>
            Stateful.bindM (Stateful.load (snd entry))
              (fun o =>
                 match o with
                 | Stateful.Occurrences occurrences =>
                     Stateful.pushSuggestion (length h0) (suggest (fst entry, occurrences))
                 | _ => Stateful.throw TypeError
                 end))
         entries) h
      (fun c h' =>
         c = Stateful.Returns tt /\
         nth_error h' (length h0) = Some (Stateful.Suggestions (acc ++ map suggest pairs)) /\
         forall a x, nth_error h0 a = Some x -> nth_error h' a = Some x).
Proof.
  induction 1 as [|[k a0] [pk occ] entries pairs [K C] F IH]; intros acc h S E;
    cbn [Stateful.forEachM map fst snd] in *.
  - apply wp_ret. rewrite app_nil_r. auto.
  - subst pk. apply wp_bind, wp_bind. eapply wp_load; [apply E, C|]. cbv beta iota.
    unfold Stateful.pushSuggestion.
    apply wp_bind. eapply wp_load; [exact S|]. cbv beta iota.
    eapply wp_store; [exact S|]. intros h1 [S1 F1].
    eapply wp_mono.
    + apply IH; [exact S1|]. intros a x B. pose proof (cell_lt _ _ _ B).
      apply F1; [lia|]. apply E, B.
    + intros c h' (-> & S' & E'). split; [reflexivity|]. split; [|exact E'].
      rewrite S', <- app_assoc. reflexivity.
Qed.

(** The suggestions: a new array of what the pure function gives. *)
Lemma buildCorrelationSuggestions_heap (index : Stateful.ref)
    (entries : list (jsstring * Stateful.ref)) (pairs : ValueIndex) (h : Stateful.heap) :
  nth_error h index = Some (Stateful.MapObject entries) ->
  Stateful.indexAt entries pairs h ->
  Stateful.wp (Stateful.buildCorrelationSuggestions index) h
    (fun c h' =>
       exists suggestions,
         c = Stateful.Returns suggestions /\
         nth_error h' suggestions =
           Some (Stateful.Suggestions (buildCorrelationSuggestions pairs)) /\
         forall a x, nth_error h a = Some x -> nth_error h' a = Some x).
Proof.
  intros M [F _]. unfold Stateful.buildCorrelationSuggestions.
  apply wp_bind, wp_new. intros h0 (N0 & L0 & F0).
  apply wp_bind. eapply wp_load; [apply F0, M|]. cbv beta iota.
  apply wp_bind. eapply wp_mono.
  - apply (suggestions_loop h entries pairs F [] h0 L0 F0).
  - intros c h' (-> & S & E). apply wp_ret.
    exists (length h). split; [reflexivity|]. split; [exact S|exact E].
Qed.

(** ** Two invocations *)

Section Determinism.
Variable existsSync : jsstring -> bool.
Variable readFileSync : jsstring -> outcome jsstring.
Variable parseStringPromise : jsstring -> outcome jsval.
Variable basename : jsstring -> jsstring.

(** Whatever the heap holds, the engine completes as the pure function
    says. *)
Lemma analyzeJMXForCorrelation_heap (jmxFilePath : jsstring) (h : Stateful.heap) :
  Stateful.wp
    (Stateful.analyzeJMXForCorrelation existsSync readFileSync parseStringPromise
       basename jmxFilePath) h
    (fun c _ =>
       c = Stateful.completionOf
             (analyzeJMXForCorrelation existsSync readFileSync parseStringPromise
                basename jmxFilePath)).
Proof.
  unfold Stateful.analyzeJMXForCorrelation, analyzeJMXForCorrelation.
  destruct (existsSync jmxFilePath); cbn [negb]; [|apply wp_throw; reflexivity].
  apply wp_bind, wp_lift.
  destruct (readFileSync jmxFilePath) as [xml|e]; cbn [Stateful.completionOf bind];
    [|reflexivity].
  apply wp_bind, wp_lift.
  destruct (parseStringPromise xml) as [parsed|e]; cbn [Stateful.completionOf bind];
    [|reflexivity].
  apply wp_bind, wp_new. intros h0 (N0 & L0 & F0).
  apply wp_bind, wp_new. intros h1 (N1 & L1 & F1).
  apply wp_bind. eapply wp_mono.
  - apply (collectHTTPSamplers_heap (length h) (length h0) parsed
             {| index := 0; result := [] |}).
    split; [apply F1, L0|exact L1].
  - intros c h2. unfold Stateful.post.
    destruct (collectHTTPSamplers parsed _) as [st|e]; cbn [bind];
      [|intros ->; reflexivity].
    intros ([] & -> & [R O]).
    apply wp_bind. eapply wp_mono; [apply buildValueIndex_heap, R|].
    intros c h3 (index & entries & -> & M & A & R3).
    apply wp_bind. eapply wp_mono; [apply (buildCorrelationSuggestions_heap _ _ _ _ M A)|].
    intros c h4 (suggestions & -> & S & E).
    apply wp_bind. eapply wp_load; [apply E, R3|]. cbv beta iota.
    apply wp_bind. eapply wp_load; [exact S|]. cbv beta iota.
    apply wp_ret. reflexivity.
Qed.

(** C8: the engine is deterministic.  For every document and every heap,
    two invocations of the engine on the document, the second on the heap
    that the first left, complete alike: both return the same Report, or
    both throw the same exception, and neither fails to terminate.  The
    completion is the outcome of the pure [analyzeJMXForCorrelation],
    whatever the heap holds: the counter, the arrays, the [Set], the [Map]
    and the regular expressions of an invocation are new objects, and an
    invocation reads no object that it has not written. *)
Theorem analyze_deterministic (jmxFilePath : jsstring) (h : Stateful.heap) :
  let engine :=
    Stateful.analyzeJMXForCorrelation existsSync readFileSync parseStringPromise basename in
  let (first, h') := engine jmxFilePath h in
  let (second, _) := engine jmxFilePath h' in
  first = second /\
  first = Stateful.completionOf
            (analyzeJMXForCorrelation existsSync readFileSync parseStringPromise
               basename jmxFilePath).
Proof.
  intros engine. subst engine.
  pose proof (analyzeJMXForCorrelation_heap jmxFilePath h) as A.
  unfold Stateful.wp in A.
  destruct (Stateful.analyzeJMXForCorrelation _ _ _ _ jmxFilePath h) as [first h'].
  pose proof (analyzeJMXForCorrelation_heap jmxFilePath h') as B.
  unfold Stateful.wp in B.
  destruct (Stateful.analyzeJMXForCorrelation _ _ _ _ jmxFilePath h') as [second h''].
  split; congruence.
Qed.
End Determinism.

(** [exec] keeps the place of the search in the regular expression: three
    calls on one object give the first match, the second, and [null]. *)
Example exec_lastIndex_example :
  let text := js "123456 654321" in
  let h := [Stateful.RegExp numRegex 0] in
  let (first, h1) := Stateful.exec 0 text h in
  let (second, h2) := Stateful.exec 0 text h1 in
  let (third, h3) := Stateful.exec 0 text h2 in
  first = Stateful.Returns (Some (js "123456")) /\ h1 = [Stateful.RegExp numRegex 6] /\
  second = Stateful.Returns (Some (js "654321")) /\ h2 = [Stateful.RegExp numRegex 13] /\
  third = Stateful.Returns None /\ h3 = h.
Proof. vm_compute. repeat split. Qed.

(** The Login and GetProfile document, analyzed twice: the first invocation
    leaves its 18 objects on the heap, the counter at 2 among them, and the
    second returns the same Report. *)
Example analyze_twice_example :
  let engine :=
    Stateful.analyzeJMXForCorrelation (fun _ => true) (fun _ => Ok [])
      (fun _ => Ok loginDocument) (fun p => p) in
  let (first, h) := engine (js "login.jmx") [] in
  let (second, h') := engine (js "login.jmx") h in
  first = Stateful.completionOf (analyzeDocument loginDocument (js "login.jmx")) /\
  second = first /\
  nth_error h 1 = Some (Stateful.Order 2) /\
  length h = 18 /\
  length h' = 36.
Proof. vm_compute. repeat split. Qed.

(** * Further properties *)

(** ** What the patterns match *)

Lemma stripPrefix_app (p s s' : jsstring) : stripPrefix p s = Some s' -> s = p ++ s'.
Proof.
  revert s; induction p as [|x p IH]; intros s; simpl.
  - intros E; injection E as ->; reflexivity.
  - destruct s as [|y s]; [discriminate|].
    destruct (N.eqb_spec x y) as [->|]; [|discriminate].
    intros E. rewrite (IH _ E). reflexivity.
Qed.

Lemma startsWith_app (p r : jsstring) : startsWith (p ++ r) p = true.
Proof.
  unfold startsWith. induction p as [|x p IH]; simpl; [reflexivity|].
  rewrite N.eqb_refl. exact IH.
Qed.

Lemma repeatMatcher_sound (R : jsstring -> Prop) (cls : char16 -> bool)
    (k : option char16 -> jsstring -> option nat) :
  (forall prev s n, k prev s = Some n -> R (firstn n s)) ->
  forall s lo hi prev n,
    repeatMatcher cls lo hi k prev s = Some n ->
    exists a b,
      firstn n s = a ++ b /\ forallb cls a = true /\ quantMin lo hi <= length a /\
      (forall h, hi = Some h -> length a <= h) /\ R b.
Proof.
  intros Hk.
  assert (Stop : forall s lo hi prev n,
             (exhausted hi = true \/ lo = 0) -> k prev s = Some n ->
             exists a b,
               firstn n s = a ++ b /\ forallb cls a = true /\
               quantMin lo hi <= length a /\
               (forall h, hi = Some h -> length a <= h) /\ R b).
  { intros s lo hi prev n C E. exists [], (firstn n s).
    repeat split; [| |eapply Hk; eassumption].
    - destruct C as [C| ->].
      + destruct hi as [[|h]|]; try discriminate. simpl. lia.
      + destruct hi; simpl; lia.
    - simpl. intros; lia. }
  induction s as [|c s IH]; intros lo hi prev n; simpl.
  - destruct (exhausted hi) eqn:X; [apply Stop; auto|].
    destruct (Nat.eqb_spec lo 0) as [->|]; [apply Stop; auto|discriminate].
  - destruct (exhausted hi) eqn:X; [apply Stop; auto|].
    assert (Stop' : (if (lo =? 0)%nat then k prev (c :: s) else None) = Some n ->
                    exists a b,
                      firstn n (c :: s) = a ++ b /\ forallb cls a = true /\
                      quantMin lo hi <= length a /\
                      (forall h, hi = Some h -> length a <= h) /\ R b).
    { destruct (Nat.eqb_spec lo 0) as [->|]; [apply Stop; auto|discriminate]. }
    destruct (cls c) eqn:C; [|exact Stop'].
    destruct (repeatMatcher cls (pred lo) (option_map pred hi) k (Some c) s)
      as [m|] eqn:M; [|exact Stop'].
    intros E; injection E as <-.
    destruct (IH _ _ _ _ M) as (a & b & F & A & L & H & Rb).
    exists (c :: a), b. simpl. rewrite F, C, A. repeat split; try assumption.
    + destruct hi as [h|]; simpl in *; lia.
    + intros h ->. destruct h as [|h]; [discriminate|].
      specialize (H h eq_refl). lia.
Qed.

(** The matcher is sound: what it matches, the pattern recognizes. *)
Lemma matchNodes_sound (p : pattern) :
  forall prev s n, matchNodes p prev s = Some n -> recognizes p (firstn n s).
Proof.
  induction p as [|[| | |l|cls lo hi] p IH]; intros prev s n; simpl.
  - intros E; injection E as <-; reflexivity.
  - destruct prev; [discriminate|]. apply IH.
  - destruct s; [|discriminate]. apply IH.
  - destruct (xorb _ _); [|discriminate]. apply IH.
  - destruct (stripPrefix l s) as [s'|] eqn:P; [|discriminate].
    destruct (matchNodes p (lastOr prev l) s') as [m|] eqn:M; [|discriminate].
    simpl. intros E; injection E as <-.
    apply stripPrefix_app in P. subst s. exists (firstn m s'). split.
    + rewrite firstn_app_2. reflexivity.
    + eapply IH, M.
  - intros E. eapply repeatMatcher_sound in E; [exact E|]. exact IH.
Qed.

(** Every string of the [exec] loop is a piece of the text. *)
Lemma execAll_substring (p : pattern) (m : jsstring) :
  forall s prev skip,
    In m (execAll p prev s skip) -> exists pre post, s = pre ++ m ++ post.
Proof.
  induction s as [|c s IH]; intros prev skip; simpl; [tauto|].
  assert (Rest : forall prev' skip',
             In m (execAll p prev' s skip') ->
             exists pre post, c :: s = pre ++ m ++ post).
  { intros prev' skip' H. destruct (IH _ _ H) as (pre & post & ->).
    exists (c :: pre), post. reflexivity. }
  destruct skip as [|k]; [|apply Rest].
  destruct (matchNodes p prev (c :: s)) as [n|] eqn:M; [|apply Rest].
  intros [<-|H]; [|eapply Rest, H].
  exists [], (skipn n (c :: s)). simpl app. symmetry. apply firstn_skipn.
Qed.

(** X1.  Every sub-match [extractLiterals] returns is a contiguous piece of
    the text it was given. *)
Theorem extractLiterals_substring (text m : jsstring) :
  In m (extractLiterals text) -> exists pre post, text = pre ++ m ++ post.
Proof.
  unfold extractLiterals. destruct text as [|c text]; [contradiction|].
  intros H. apply in_flat_map in H. destruct H as (r & _ & H).
  eapply execAll_substring, H.
Qed.

Lemma extractLiterals_substring_witness :
  In (js "status") (extractLiterals (js "/orders/123?status=true")) /\
  exists pre post, js "/orders/123?status=true" = pre ++ js "status" ++ post.
Proof.
  assert (H : In (js "status") (extractLiterals (js "/orders/123?status=true")))
    by (vm_compute; auto).
  split; [exact H|].
  exact (extractLiterals_substring (js "/orders/123?status=true") (js "status") H).
Defined.

Lemma dashedHex_last (n : nat) (a : jsstring) :
  length a = n -> forallb isHexDigit a = true -> dashedHex [n] a = true.
Proof.
  intros L H. cbn [dashedHex]. rewrite L, Nat.leb_refl, Nat.eqb_refl.
  rewrite <- L, firstn_all, H. reflexivity.
Qed.

Lemma dashedHex_group (n m : nat) (sizes : list nat) (a rest : jsstring) :
  length a = n -> forallb isHexDigit a = true ->
  dashedHex (m :: sizes) rest = true ->
  dashedHex (n :: m :: sizes) (a ++ js "-" ++ rest) = true.
Proof.
  intros L H R.
  change (dashedHex (n :: m :: sizes) (a ++ js "-" ++ rest)) with
    ((n <=? length (a ++ js "-" ++ rest))%nat &&
     forallb isHexDigit (firstn n (a ++ js "-" ++ rest)) &&
     match skipn n (a ++ js "-" ++ rest) with
     | c :: rest' => isChar "-" c && dashedHex (m :: sizes) rest'
     | [] => false
     end).
  rewrite <- L, firstn_app, skipn_app, Nat.sub_diag, firstn_all, skipn_all.
  cbn [firstn skipn app]. rewrite app_nil_r, H, length_app.
  change (js "-" ++ rest) with (ch "-" :: rest). cbv iota. rewrite R.
  replace (length a <=? length a + length (ch "-" :: rest))%nat with true
    by (symmetry; apply Nat.leb_le; lia).
  reflexivity.
Qed.

Lemma exact_length (n : nat) (a : jsstring) :
  quantMin n (Some n) <= length a -> (forall h, Some n = Some h -> length a <= h) ->
  length a = n.
Proof.
  intros L H. specialize (H n eq_refl). simpl in L. lia.
Qed.

Lemma recognizes_uuid (m : jsstring) : recognizes uuidRegex m -> looksLikeUUID m = true.
Proof.
  rewrite looksLikeUUID_shape. unfold shapeUUID. cbn [uuidRegex uuidBody app recognizes hex dash].
  intros (a1 & r1 & -> & H1 & L1 & B1 & r1' & -> &
          a2 & r2 & -> & H2 & L2 & B2 & r2' & -> &
          a3 & r3 & -> & H3 & L3 & B3 & r3' & -> &
          a4 & r4 & -> & H4 & L4 & B4 & r4' & -> &
          a5 & r5 & -> & H5 & L5 & B5 & ->).
  pose proof (fun l => forallb_eq _ _ l hex_ignoreCase) as E.
  rewrite E in H1. rewrite E in H2. rewrite E in H3. rewrite E in H4. rewrite E in H5.
  rewrite app_nil_r.
  repeat (apply dashedHex_group; [apply exact_length; assumption|assumption|]).
  apply dashedHex_last; [apply exact_length|]; assumption.
Qed.

Lemma recognizes_numeric (m : jsstring) :
  recognizes numRegex m -> looksLikeNumericId m = true.
Proof.
  rewrite looksLikeNumericId_shape. unfold shapeNumeric.
  cbn [numRegex recognizes]. intros (a & b & -> & H & L & B & ->).
  rewrite app_nil_r, H. specialize (B 14 eq_refl). simpl in L.
  apply andb_true_iff; split; [|reflexivity].
  apply andb_true_iff; split; apply Nat.leb_le; lia.
Qed.

Lemma recognizes_alphanumeric (m : jsstring) :
  recognizes alphaNumRegex m -> looksLikeAlphaNumeric m = true.
Proof.
  rewrite looksLikeAlphaNumeric_shape. unfold shapeAlphaNumeric.
  cbn [alphaNumRegex recognizes]. intros (a & b & -> & H & L & B & ->).
  rewrite app_nil_r, H. specialize (B 20 eq_refl). simpl in L.
  apply andb_true_iff; split; [|reflexivity].
  apply andb_true_iff; split; apply Nat.leb_le; lia.
Qed.

Lemma dots_app (a b : jsstring) : dots (a ++ b) = dots a + dots b.
Proof. apply count_occ_app. Qed.

Lemma recognizes_jwt (m : jsstring) :
  recognizes jwtRegex m -> startsWith m (js "eyJ") = true /\ 2 <= dots m.
Proof.
  cbn [jwtRegex recognizes].
  intros (r0 & -> & a & r1 & -> & _ & _ & _ & r1' & -> &
          b & r2 & -> & _ & _ & _ & r2' & -> & c & r3 & -> & _).
  split; [apply startsWith_app|].
  rewrite !dots_app. change (dots (js ".")) with 1. lia.
Qed.

Lemma extractLiterals_recognized (text m : jsstring) :
  In m (extractLiterals text) ->
  recognizes uuidRegex m \/ recognizes jwtRegex m \/
  recognizes numRegex m \/ recognizes alphaNumRegex m.
Proof.
  unfold extractLiterals. destruct text as [|c text]; [contradiction|].
  intros H. apply in_flat_map in H. destruct H as (r & Hr & H).
  apply execAll_In in H. destruct H as (prev & s & n & M & ->).
  apply matchNodes_sound in M. simpl in Hr.
  destruct Hr as [<-|[<-|[<-|[<-|[]]]]]; auto.
Qed.

(** X2.  Every sub-match [extractLiterals] returns has the shape of the
    pattern that found it: it satisfies [looksLikeUUID], [looksLikeNumericId]
    or [looksLikeAlphaNumeric], or it begins with "eyJ" and has at least two
    dots. *)
Theorem extractLiterals_shapes (text m : jsstring) :
  In m (extractLiterals text) ->
  looksLikeUUID m = true \/ looksLikeNumericId m = true \/
  looksLikeAlphaNumeric m = true \/
  (startsWith m (js "eyJ") = true /\ 2 <= dots m).
Proof.
  intros H. destruct (extractLiterals_recognized text m H) as [M|[M|[M|M]]].
  - left. apply recognizes_uuid, M.
  - right; right; right. apply recognizes_jwt, M.
  - right; left. apply recognizes_numeric, M.
  - right; right; left. apply recognizes_alphanumeric, M.
Qed.

Lemma extractLiterals_shapes_witness :
  In (js "eyJa.b.c.d") (extractLiterals (js "t=eyJa.b.c.d")) /\
  (looksLikeUUID (js "eyJa.b.c.d") = true \/ looksLikeNumericId (js "eyJa.b.c.d") = true \/
   looksLikeAlphaNumeric (js "eyJa.b.c.d") = true \/
   (startsWith (js "eyJa.b.c.d") (js "eyJ") = true /\ 2 <= dots (js "eyJa.b.c.d"))).
Proof.
  assert (H : In (js "eyJa.b.c.d") (extractLiterals (js "t=eyJa.b.c.d")))
    by (vm_compute; auto).
  split; [exact H|].
  exact (extractLiterals_shapes (js "t=eyJa.b.c.d") (js "eyJa.b.c.d") H).
Defined.

(** X3.  A sub-match of the pattern suite is tagged UNKNOWN only when it is
    a match of the JWT pattern with more than two dots: the pattern admits
    dots inside a segment, [looksLikeJWT] counts exactly three segments. *)
Theorem extractLiterals_unknown (text m : jsstring) :
  In m (extractLiterals text) ->
  classifyValue m = UNKNOWN ->
  startsWith m (js "eyJ") = true /\ 3 <= dots m.
Proof.
  intros H U. unfold classifyValue in U.
  destruct (looksLikeJWT m) eqn:J; [discriminate|].
  destruct (looksLikeUUID m) eqn:I; [discriminate|].
  destruct (looksLikeNumericId m) eqn:N; [discriminate|].
  destruct (looksLikeAlphaNumeric m) eqn:A; [discriminate|].
  destruct (extractLiterals_recognized text m H) as [M|[M|[M|M]]].
  - apply recognizes_uuid in M. congruence.
  - apply recognizes_jwt in M. destruct M as [S D]. split; [assumption|].
  rewrite looksLikeJWT_dots in J. unfold prefixAndTwoDots in J.
    rewrite S in J. cbn [andb] in J. apply Nat.eqb_neq in J. unfold dots in *. lia.
  - apply recognizes_numeric in M. congruence.
  - apply recognizes_alphanumeric in M. congruence.
Qed.

Lemma extractLiterals_unknown_witness :
  In (js "eyJa.b.c.d") (extractLiterals (js "t=eyJa.b.c.d")) /\
  classifyValue (js "eyJa.b.c.d") = UNKNOWN /\
  startsWith (js "eyJa.b.c.d") (js "eyJ") = true /\ 3 <= dots (js "eyJa.b.c.d").
Proof.
  assert (H : In (js "eyJa.b.c.d") (extractLiterals (js "t=eyJa.b.c.d")))
    by (vm_compute; auto).
  assert (U : classifyValue (js "eyJa.b.c.d") = UNKNOWN) by (vm_compute; reflexivity).
  split; [exact H|]. split; [exact U|].
  exact (extractLiterals_unknown (js "t=eyJa.b.c.d") (js "eyJa.b.c.d") H U).
Defined.

(** ** The values of a request *)

Lemma literal_significant (text m : jsstring) :
  In m (extractLiterals text) -> isIgnorable m = false.
Proof.
  unfold extractLiterals. destruct text as [|c text]; [contradiction|].
  intros H. apply in_flat_map in H. destruct H as (r & Hr & H).
  apply execAll_In in H. destruct H as (prev & s & n & M & ->).
  simpl in Hr.
  destruct Hr as [<-|[<-|[<-|[<-|[]]]]];
    (refine (proj2 (proj2 (proj2 (proj2 (literal_not_ignorable _ _ _ _ _ _ M)))));
     [simpl; lia | reflexivity]).
Qed.

Lemma SetAdd_significant (values : list jsstring) (v : jsstring) :
  allSignificant values -> isIgnorable v = false -> allSignificant (SetAdd values v).
Proof.
  intros H Hv x. unfold SetAdd. destruct (existsb (str_eqb v) values); [apply H|].
  intros I. apply in_app_or in I. destruct I as [I|[<-|[]]]; auto.
Qed.

Lemma addLiterals_significant (values : list jsstring) (text : jsstring) :
  allSignificant values -> allSignificant (addLiterals values text).
Proof.
  unfold addLiterals. intros H.
  assert (L : forall m, In m (extractLiterals text) -> isIgnorable m = false)
    by (intros m; apply literal_significant).
  revert values H. induction (extractLiterals text) as [|m ms IH]; intros values H;
    simpl; [assumption|].
  apply IH; [intros; apply L; right; assumption|].
  apply SetAdd_significant; [assumption|]. apply L. left. reflexivity.
Qed.

Lemma addQueryValues_significant (values : list jsstring) (fullPath : jsstring) :
  allSignificant values -> allSignificant (addQueryValues values fullPath).
Proof.
  unfold addQueryValues.
  destruct (split (ch "?") fullPath) as [|a [|[|c q] rest]]; try (intros; assumption).
  generalize (URLSearchParams_values (c :: q)). intros vs. revert values.
  induction vs as [|v vs IH]; intros values H; simpl; [assumption|].
  apply IH. destruct (isIgnorable v) eqn:E; [assumption|].
  apply SetAdd_significant; assumption.
Qed.

Lemma addArgument_significant (values : list jsstring) (arg : jsval)
    (values' : list jsstring) :
  allSignificant values -> addArgument values arg = Ok values' -> allSignificant values'.
Proof.
  intros H. unfold addArgument.
  destruct (namedStringProp arg _) as [valProp|]; simpl; [|discriminate].
  destruct (trimmedText valProp) as [[valText|]|]; simpl; try discriminate.
  - intros E; injection E as <-. apply addLiterals_significant.
    destruct valText as [|c t]; [assumption|].
    destruct (isIgnorable (c :: t)) eqn:E; [assumption|].
    apply SetAdd_significant; assumption.
  - intros E; injection E as <-; assumption.
Qed.

Lemma extractRequestValues_allSignificant (sampler : jsval) (values : list jsstring) :
  extractRequestValues sampler = Ok values -> allSignificant values.
Proof.
  unfold extractRequestValues.
  destruct (namedStringProp sampler _) as [pathProp|]; simpl; [|discriminate].
  destruct (trimmedText pathProp) as [text|]; simpl; [|discriminate].
  apply (forEach_invariant allSignificant); [apply addArgument_significant|].
  destruct text as [fullPath|]; [|intros v []].
  apply addLiterals_significant, addQueryValues_significant. intros v [].
Qed.

(** X4.  The values of a request are a set of significant values: none is
    ignorable, none is listed twice. *)
Theorem extractRequestValues_significant (sampler : jsval) (values : list jsstring) :
  extractRequestValues sampler = Ok values ->
  NoDup values /\ forall v, In v values -> isIgnorable v = false.
Proof.
  intros E. split.
  - eapply extractRequestValues_NoDup, E.
  - eapply extractRequestValues_allSignificant, E.
Qed.

Lemma extractRequestValues_significant_witness :
  NoDup [js "eyJabc.def.ghi"; js "eyJabc"] /\
  forall v, In v [js "eyJabc.def.ghi"; js "eyJabc"] -> isIgnorable v = false.
Proof.
  apply (extractRequestValues_significant
           (httpSampler "Login"%string "POST"%string String.EmptyString
                        [argument "token"%string "eyJabc.def.ghi"%string])).
  vm_compute. reflexivity.
Defined.

(** ** The walk, again *)

Lemma collectHTTPSamplers_invariant (I : walk -> Prop) :
  (forall st s st', I st -> pushSampler st s = Ok st' -> I st') ->
  forall node st st', I st -> collectHTTPSamplers node st = Ok st' -> I st'.
Proof.
  intros Hp node.
  induction node as [s|props IH|elems IH] using jsval_ind; intros st st' H;
    cbn [collectHTTPSamplers].
  - intros E; injection E as <-; assumption.
  - match goal with |- bind ?m _ = _ -> _ => destruct m as [st1|] eqn:P end;
      cbn [bind]; [|discriminate].
    apply (forEach_invariant_each I); [exact IH|].
    destruct (lookup (js "HTTPSamplerProxy") props) as [[x|ps|samplers]|];
      cbn [truthy] in P.
    + destruct x; [injection P as <-; assumption|]. eapply Hp; eassumption.
    + eapply Hp; eassumption.
    + eapply (forEach_invariant I); [apply Hp| |]; eassumption.
    + injection P as <-; assumption.
  - apply (forEach_invariant_each I); assumption.
Qed.

Lemma collectHTTPSamplers_significant (node : jsval) (st : walk) :
  collectHTTPSamplers node emptyWalk = Ok st -> valuesSignificant st.
Proof.
  apply (collectHTTPSamplers_invariant valuesSignificant); [|constructor].
  intros st0 s st' H. unfold pushSampler.
  destruct (extractRequestValues s) as [values|] eqn:E; simpl; [|discriminate].
  intros X; injection X as <-. unfold valuesSignificant. cbn [result].
  apply Forall_app. split; [assumption|]. constructor; [|constructor].
  apply (extractRequestValues_NoDup s) in E as ND.
  cbn [Sampler.requestValues]. revert E. clear.
  unfold extractRequestValues.
  destruct (namedStringProp s _) as [pathProp|]; simpl; [|discriminate].
  destruct (trimmedText pathProp) as [text|]; simpl; [|discriminate].
  apply (forEach_invariant allSignificant); [apply addArgument_significant|].
  destruct text as [fullPath|]; [|intros v []].
  apply addLiterals_significant, addQueryValues_significant. intros v [].
Qed.

Lemma collectHTTPSamplers_names (node : jsval) (st : walk) :
  collectHTTPSamplers node emptyWalk = Ok st -> namesTruthy st.
Proof.
  apply (collectHTTPSamplers_invariant namesTruthy); [|constructor].
  intros st0 s st' H. unfold pushSampler.
  destruct (extractRequestValues s) as [values|]; simpl; [|discriminate].
  intros X; injection X as <-. unfold namesTruthy. cbn [result].
  apply Forall_app. split; [assumption|]. constructor; [|constructor].
  cbn [Sampler.name].
  destruct (getOpt (get s (js "$")) (js "testname")) as [v|] eqn:T; [|reflexivity].
  destruct (truthy (Some v)) eqn:V; [assumption|reflexivity].
Qed.

(** X5.  The counter is shared by the whole walk.  Walking a node leaves
    the samplers collected before in place and appends one sampler for each
    sampler the walk finds in the node -- what a node holds under
    [HTTPSamplerProxy] first, then what its properties hold, in turn --
    with the name and the values of that sampler, numbered from the counter
    on; the counter advances by their number.  In a regular document the
    samplers found are the [HTTPSamplerProxy] elements of the node, each
    once. *)
Theorem collectHTTPSamplers_counts (node : jsval) (st st' : walk) :
  collectHTTPSamplers node st = Ok st' ->
  exists new,
    result st' = result st ++ new /\
    index st' = index st + length new /\
    map Sampler.order new = seq (S (index st)) (length new) /\
    Forall2 pushedFrom (proxiesOf node) new /\
    (regular node = true -> Permutation (requestNodes node) (proxiesOf node)).
Proof.
  rewrite collectHTTPSamplers_proxies. intros E.
  apply forEach_pushSampler in E. destruct E as (new & R & I & O & F).
  exists new. rewrite <- (Forall2_length F). repeat split; try assumption.
  intros H. symmetry. apply proxiesOf_requestNodes, H.
Qed.

Lemma collectHTTPSamplers_counts_witness :
  exists new,
    [Sampler.mk 2 (JStr (js "Earlier")) [];
     Sampler.mk 3 (JStr (js "Second")) [js "second"];
     Sampler.mk 4 (JStr (js "Sampler-4")) [];
     Sampler.mk 5 (JStr (js "First")) [js "abc12345"]]
    = [Sampler.mk 2 (JStr (js "Earlier")) []] ++ new /\
    5 = 2 + length new /\
    map Sampler.order new = seq 3 (length new) /\
    Forall2 pushedFrom (proxiesOf nestedDocument) new /\
    (regular nestedDocument = true ->
     Permutation (requestNodes nestedDocument) (proxiesOf nestedDocument)).
Proof.
  apply (collectHTTPSamplers_counts nestedDocument
           {| index := 2; result := [Sampler.mk 2 (JStr (js "Earlier")) []] |}
           {| index := 5;
              result := [Sampler.mk 2 (JStr (js "Earlier")) [];
                         Sampler.mk 3 (JStr (js "Second")) [js "second"];
                         Sampler.mk 4 (JStr (js "Sampler-4")) [];
                         Sampler.mk 5 (JStr (js "First")) [js "abc12345"]] |}).
  vm_compute. reflexivity.
Defined.

(** X20.  The numbers are not those of the order of the tree.  Where a
    sampler [first] lies in a tree ahead of a sampler [second] that its
    parent holds, as a sampler inside a controller does, the walk numbers
    [second] 1 and [first] 2. *)
Theorem nested_numbered_last (first second : list (jsstring * jsval)) (st : walk) :
  proxiesOf (JObj first) = [] ->
  proxiesOf (JObj second) = [] ->
  requestNodes (JObj first) = [] ->
  requestNodes (JObj second) = [] ->
  collectHTTPSamplers (controllerDocument (JObj first) (JObj second)) emptyWalk = Ok st ->
  requestNodes (controllerDocument (JObj first) (JObj second)) = [JObj first; JObj second] /\
  exists s1 s2,
    result st = [s1; s2] /\
    Sampler.order s1 = 1 /\ pushedFrom (JObj second) s1 /\
    Sampler.order s2 = 2 /\ pushedFrom (JObj first) s2.
Proof.
  intros P1 P2 R1 R2. rewrite collectHTTPSamplers_proxies. split.
  - unfold controllerDocument.
    change (requestNodes (JObj [(js "hashTree", JObj [(js "HTTPSamplerProxy", JObj first)]);
                                (js "HTTPSamplerProxy", JObj second)]))
      with (([] ++ (([JObj first] ++ requestNodes (JObj first)) ++ []))
            ++ ([JObj second] ++ requestNodes (JObj second)) ++ []).
    rewrite R1, R2. reflexivity.
  - assert (X : proxiesOf (controllerDocument (JObj first) (JObj second))
                = [JObj second; JObj first]).
    { unfold controllerDocument.
      change (proxiesOf (JObj [(js "hashTree", JObj [(js "HTTPSamplerProxy", JObj first)]);
                               (js "HTTPSamplerProxy", JObj second)]))
        with ([JObj second] ++
              ([JObj first] ++ (proxiesOf (JObj first) ++ []))
              ++ (proxiesOf (JObj second) ++ [])).
      rewrite P1, P2. reflexivity. }
    rewrite X in H. apply forEach_pushSampler in H.
    destruct H as (new & N & _ & O & F). cbn [emptyWalk result index app length] in *.
    inversion F as [|x s1 l new' F1 F']; subst.
    inversion F' as [|x s2 l new'' F2 F'']; subst.
    inversion F''; subst.
    match goal with H : [s1; s2] = result st |- _ => rewrite <- H in * end.
    cbn [map seq length] in O. injection O as O1 O2.
    exists s1, s2. auto.
Qed.

Lemma nested_numbered_last_witness :
  requestNodes nestedPair
  = [httpSampler "First"%string "GET"%string "/items/abc12345"%string [];
     httpSampler "Second"%string "GET"%string "/second"%string []] /\
  exists s1 s2,
    [Sampler.mk 1 (JStr (js "Second")) [js "second"];
     Sampler.mk 2 (JStr (js "First")) [js "abc12345"]] = [s1; s2] /\
    Sampler.order s1 = 1 /\
    pushedFrom (httpSampler "Second"%string "GET"%string "/second"%string []) s1 /\
    Sampler.order s2 = 2 /\
    pushedFrom (httpSampler "First"%string "GET"%string "/items/abc12345"%string []) s2.
Proof.
  apply (nested_numbered_last
           _ _
           {| index := 2;
              result := [Sampler.mk 1 (JStr (js "Second")) [js "second"];
                         Sampler.mk 2 (JStr (js "First")) [js "abc12345"]] |});
    vm_compute; reflexivity.
Defined.

(** ** The report, again *)

Lemma filter_all {A : Type} (f : A -> bool) (l : list A) :
  (forall x, In x l -> f x = true) -> filter f l = l.
Proof.
  induction l as [|x l IH]; simpl; intros H; [reflexivity|].
  rewrite (H x) by auto. rewrite IH by auto. reflexivity.
Qed.

Lemma valuesSignificant_flat (st : walk) :
  valuesSignificant st ->
  forall v, In v (flat_map Sampler.requestValues (result st)) -> significant v = true.
Proof.
  unfold valuesSignificant. rewrite Forall_forall. intros H v I.
  apply in_flat_map in I. destruct I as (s & Hs & Hv).
  unfold significant. rewrite (H s Hs v Hv). reflexivity.
Qed.

(** X6.  The suggestions of a Report are those of the distinct values of
    its requests, in first-seen order, one suggestion for each: no value is
    suggested twice, and the defensive filter of [buildValueIndex] drops
    nothing.  In a regular document [samplersScanned] is the number of
    [HTTPSamplerProxy] elements. *)
Theorem report_distinct_values (existsSync : jsstring -> bool)
    (readFileSync : jsstring -> outcome jsstring)
    (parseStringPromise : jsstring -> outcome jsval)
    (basename : jsstring -> jsstring) (jmxFilePath : jsstring) (report : Report) :
  analyzeJMXForCorrelation existsSync readFileSync parseStringPromise basename jmxFilePath
  = Ok report ->
  exists xml parsed st,
    readFileSync jmxFilePath = Ok xml /\
    parseStringPromise xml = Ok parsed /\
    collectHTTPSamplers parsed emptyWalk = Ok st /\
    map detectedValue (suggestions report) =
    firstSeen (flat_map Sampler.requestValues (result st)) /\
    NoDup (map detectedValue (suggestions report)) /\
    correlationCandidates report =
    length (firstSeen (flat_map Sampler.requestValues (result st))) /\
    (regular parsed = true -> samplersScanned report = length (requestNodes parsed)).
Proof.
  intros A. apply analyze_Ok in A.
  destruct A as (xml & parsed & st & _ & R & P & C & ->).
  exists xml, parsed, st.
  cbn [suggestions correlationCandidates samplersScanned].
  assert (K : map detectedValue (buildCorrelationSuggestions (buildValueIndex (result st)))
              = firstSeen (flat_map Sampler.requestValues (result st))).
  { rewrite suggestions_keys, buildValueIndex_keys.
    rewrite filter_all; [reflexivity|].
    apply valuesSignificant_flat, (collectHTTPSamplers_significant parsed), C. }
  repeat split; try assumption.
  - rewrite suggestions_keys. apply buildValueIndex_keys_NoDup.
  - rewrite <- K. rewrite length_map. reflexivity.
  - intros G. rewrite collectHTTPSamplers_proxies in C.
    apply forEach_pushSampler in C. destruct C as (new & N & _ & _ & F).
    rewrite N. cbn [emptyWalk result app]. rewrite <- (Forall2_length F).
    apply Permutation_length, proxiesOf_requestNodes, G.
Qed.

Lemma report_distinct_values_witness :
  exists xml parsed st,
    (fun _ : jsstring => Ok (@nil char16)) (js "repeat.jmx") = Ok xml /\
    (fun _ : jsstring => Ok repeatDocument) xml = Ok parsed /\
    collectHTTPSamplers parsed emptyWalk = Ok st /\
    map detectedValue (suggestions repeatReport) =
    firstSeen (flat_map Sampler.requestValues (result st)) /\
    NoDup (map detectedValue (suggestions repeatReport)) /\
    correlationCandidates repeatReport =
    length (firstSeen (flat_map Sampler.requestValues (result st))) /\
    (regular parsed = true -> samplersScanned repeatReport = length (requestNodes parsed)).
Proof.
  apply (report_distinct_values
           (fun _ => true) (fun _ => Ok []) (fun _ => Ok repeatDocument) (fun p => p)
           (js "repeat.jmx") repeatReport).
  vm_compute. reflexivity.
Defined.

(** A sampler without content that is the only one of its parent is an
    element of the document, and the engine does not scan it. *)
Example lone_empty_sampler_example :
  length (requestNodes (testPlan [JStr []])) = 1 /\
  regular (testPlan [JStr []]) = false /\
  analyzeDocument (testPlan [JStr []]) (js "empty.jmx") =
  Ok {| jmxFile := js "empty.jmx"; samplersScanned := 0; correlationCandidates := 0;
        suggestions := [] |}.
Proof. repeat split; vm_compute; reflexivity. Qed.

Lemma uses_In (v : jsstring) (s : Sampler.t) :
  uses v s = true <-> In v (Sampler.requestValues s).
Proof. apply existsb_str_eqb. Qed.

(** X7.  Nothing is omitted and nothing is invented: every value of every
    request has a suggestion that names the request's sampler; every
    suggestion is used by at least one sampler and by no more than were
    scanned, and no sampler name in it is empty. *)
Theorem report_complete (existsSync : jsstring -> bool)
    (readFileSync : jsstring -> outcome jsstring)
    (parseStringPromise : jsstring -> outcome jsval)
    (basename : jsstring -> jsstring) (jmxFilePath : jsstring) (report : Report) :
  analyzeJMXForCorrelation existsSync readFileSync parseStringPromise basename jmxFilePath
  = Ok report ->
  exists xml parsed st,
    readFileSync jmxFilePath = Ok xml /\
    parseStringPromise xml = Ok parsed /\
    collectHTTPSamplers parsed emptyWalk = Ok st /\
    (forall s v,
        In s (result st) -> In v (Sampler.requestValues s) ->
        exists suggestion,
          In suggestion (suggestions report) /\ detectedValue suggestion = v /\
          In (Sampler.name s) (usedInSamplers suggestion)) /\
    (forall suggestion,
        In suggestion (suggestions report) ->
        usedInSamplers suggestion <> [] /\
        length (usedInSamplers suggestion) <= samplersScanned report /\
        forall n, In n (usedInSamplers suggestion) -> truthy (Some n) = true).
Proof.
  intros A. apply analyze_Ok in A.
  destruct A as (xml & parsed & st & _ & R & P & C & ->).
  exists xml, parsed, st. cbn [suggestions samplersScanned].
  pose proof (collectHTTPSamplers_ok parsed emptyWalk st emptyWalk_ok C) as [_ W].
  pose proof (collectHTTPSamplers_significant parsed st C) as V.
  pose proof (collectHTTPSamplers_names parsed st C) as N.
  repeat split; try assumption.
  - intros s v Hs Hv.
    assert (Sv : isIgnorable v = false).
    { unfold valuesSignificant in V. rewrite Forall_forall in V. apply (V s Hs v Hv). }
    assert (F : In s (filter (uses v) (result st))).
    { apply filter_In. split; [assumption|]. apply uses_In, Hv. }
    destruct (buildValueIndex_has_key (result st) v Sv) as [occs H].
    { intros E. rewrite E in F. contradiction. }
    exists (suggest (v, occs)). split; [|split; [reflexivity|]].
    + apply (in_map suggest) in H. exact H.
    + cbn [suggest usedInSamplers].
      rewrite (buildValueIndex_entry _ _ _ W H), map_map.
      apply (in_map (fun x => Occurrence.samplerName (occurrenceOf x))) in F. exact F.
  - unfold buildCorrelationSuggestions in H. apply in_map_iff in H.
    destruct H as ([k occs] & <- & H). cbn [suggest usedInSamplers].
    rewrite (buildValueIndex_entry _ _ _ W H).
    assert (K : In k (keys (buildValueIndex (result st))))
      by (apply (in_map fst) in H; exact H).
    rewrite buildValueIndex_keys in K. apply firstSeen_incl, filter_In in K.
    destruct K as [K _]. apply in_flat_map in K. destruct K as (s & Hs & Hk).
    assert (F : In s (filter (uses k) (result st))).
    { apply filter_In. split; [assumption|]. apply uses_In, Hk. }
    intros E. apply map_eq_nil in E. apply map_eq_nil in E. rewrite E in F. contradiction.
  - unfold buildCorrelationSuggestions in H. apply in_map_iff in H.
    destruct H as ([k occs] & <- & H). cbn [suggest usedInSamplers].
    rewrite (buildValueIndex_entry _ _ _ W H), !length_map. apply filter_length_le.
  - intros n I. unfold buildCorrelationSuggestions in H. apply in_map_iff in H.
    destruct H as ([k occs] & <- & H). cbn [suggest usedInSamplers] in I.
    rewrite (buildValueIndex_entry _ _ _ W H), map_map in I.
    apply in_map_iff in I. destruct I as (s & <- & Hs). apply filter_In in Hs.
    unfold namesTruthy in N. rewrite Forall_forall in N. apply N, Hs.
Qed.

Lemma report_complete_witness :
  exists xml parsed st,
    (fun _ : jsstring => Ok (@nil char16)) (js "repeat.jmx") = Ok xml /\
    (fun _ : jsstring => Ok repeatDocument) xml = Ok parsed /\
    collectHTTPSamplers parsed emptyWalk = Ok st /\
    (forall s v,
        In s (result st) -> In v (Sampler.requestValues s) ->
        exists suggestion,
          In suggestion (suggestions repeatReport) /\ detectedValue suggestion = v /\
          In (Sampler.name s) (usedInSamplers suggestion)) /\
    (forall suggestion,
        In suggestion (suggestions repeatReport) ->
        usedInSamplers suggestion <> [] /\
        length (usedInSamplers suggestion) <= samplersScanned repeatReport /\
        forall n, In n (usedInSamplers suggestion) -> truthy (Some n) = true).
Proof.
  apply (report_complete
           (fun _ => true) (fun _ => Ok []) (fun _ => Ok repeatDocument) (fun p => p)
           (js "repeat.jmx") repeatReport).
  vm_compute. reflexivity.
Defined.

(** ** Confidence, again *)

(** X8.  More occurrences never lower the confidence of a value. *)
Theorem calculateConfidence_monotone (O : Type) (v : jsstring) (once more : list O) :
  length once <= length more ->
  rank (calculateConfidence v once) <= rank (calculateConfidence v more).
Proof.
  intros L. unfold calculateConfidence.
  destruct (Nat.leb_spec 3 (length once)), (Nat.leb_spec 3 (length more));
    try lia; simpl; try lia.
  destruct (looksLikeJWT v || looksLikeUUID v); simpl; [lia|].
  destruct (looksLikeNumericId v); simpl; lia.
Qed.

Lemma calculateConfidence_monotone_witness :
  rank (calculateConfidence (js "abc12345") [1]) <=
  rank (calculateConfidence (js "abc12345") [1; 2; 3]).
Proof.
  apply (calculateConfidence_monotone nat (js "abc12345") [1] [1; 2; 3]). simpl. lia.
Defined.

(** ** Listing tests *)

Lemma endsWith_iff (s suffix : jsstring) :
  endsWith s suffix = true <-> exists stem, s = stem ++ suffix.
Proof.
  unfold endsWith. split.
  - intros H. apply andb_true_iff in H. destruct H as [_ H].
    apply str_eqb_eq in H. exists (firstn (length s - length suffix) s).
    set (k := length s - length suffix) in *. rewrite <- H.
    symmetry. apply firstn_skipn.
  - intros [stem ->]. rewrite length_app.
    replace (length stem + length suffix - length suffix) with (length stem) by lia.
    rewrite skipn_app, skipn_all, Nat.sub_diag. simpl.
    rewrite str_eqb_refl, andb_true_r. apply Nat.leb_le. lia.
Qed.

(** X9.  [listTests] returns the directory entries whose name ends with
    ".jmx", each as often as the directory lists it and in directory
    order, and nothing else. *)
Theorem listTests_jmx (readdirSync : list jsstring) (f : jsstring) :
  (In f (listTests readdirSync) <->
   In f readdirSync /\ exists stem, f = stem ++ js ".jmx") /\
  count_occ (list_eq_dec N.eq_dec) (listTests readdirSync) f =
  (if endsWith f (js ".jmx") then count_occ (list_eq_dec N.eq_dec) readdirSync f else 0).
Proof.
  unfold listTests. split.
  - rewrite filter_In, endsWith_iff. reflexivity.
  - induction readdirSync as [|g l IH]; simpl.
    + destruct (endsWith f (js ".jmx")); reflexivity.
    + destruct (list_eq_dec N.eq_dec g f) as [->|NE].
      * destruct (endsWith f (js ".jmx")) eqn:E; simpl.
        -- destruct (list_eq_dec N.eq_dec f f); [|congruence]. rewrite IH. reflexivity.
        -- exact IH.
      * destruct (endsWith g (js ".jmx")); simpl; [|exact IH].
        destruct (list_eq_dec N.eq_dec g f); [congruence|exact IH].
Qed.

(** ** The two parsers *)

Lemma pushSampler_agree (s : jsval) (st st' : walk) (w : ParseJMX.state) :
  pushSampler st s = Ok st' -> agree st w -> agree st' (ParseJMX.pushDescriptor w s).
Proof.
  unfold pushSampler, ParseJMX.pushDescriptor, agree.
  destruct (extractRequestValues s); simpl; [|discriminate].
  intros E [C L]; injection E as <-. cbn [index result].
  rewrite !map_app, L, C. split; reflexivity.
Qed.

Lemma forEach_pushSampler_agree (samplers : list jsval) :
  forall st st' w,
    forEach pushSampler samplers st = Ok st' -> agree st w ->
    agree st' (fold_left ParseJMX.pushDescriptor samplers w).
Proof.
  induction samplers as [|s samplers IH]; intros st st' w; simpl.
  - intros E; injection E as <-; auto.
  - destruct (pushSampler st s) as [st1|] eqn:P; simpl; [|discriminate].
    intros E A. eapply IH; [exact E|]. eapply pushSampler_agree; eassumption.
Qed.

Lemma forEach_agree {A : Type} (f : A -> jsval) (xs : list A) :
  Forall (fun x => agrees (f x)) xs ->
  forall st st' w,
    forEach (fun st x => collectHTTPSamplers (f x) st) xs st = Ok st' -> agree st w ->
    agree st' (fold_left (fun w x => ParseJMX.walk (f x) w) xs w).
Proof.
  induction 1 as [|x xs Hx _ IH]; intros st st' w; simpl.
  - intros E; injection E as <-; auto.
  - destruct (collectHTTPSamplers (f x) st) as [st1|] eqn:C; simpl; [|discriminate].
    intros E G. eapply IH; [exact E|]. eapply Hx; eassumption.
Qed.

Lemma agrees_all (node : jsval) : agrees node.
Proof.
  induction node as [s|props IH|elems IH] using jsval_ind; intros st st' w;
    cbn [collectHTTPSamplers ParseJMX.walk].
  - intros E; injection E as <-; auto.
  - match goal with |- bind ?m _ = _ -> _ => destruct m as [st1|] eqn:P end;
      cbn [bind]; [|discriminate].
    intros E A. eapply (forEach_agree snd props IH); [exact E|].
    destruct (lookup (js "HTTPSamplerProxy") props) as [[x|ps|samplers]|];
      cbn [truthy ParseJMX.asArray] in *.
    + destruct x; [injection P as <-; assumption|].
      cbn [fold_left]. eapply pushSampler_agree; eassumption.
    + cbn [fold_left]. eapply pushSampler_agree; eassumption.
    + eapply forEach_pushSampler_agree; eassumption.
    + injection P as <-; assumption.
  - intros E A. eapply (forEach_agree (fun x => x) elems IH); eassumption.
Qed.

(** X10.  On a test plan the two parsers of the repository agree: when the
    correlation engine returns a Report, [parseJMX] returns as many
    descriptors as samplers were scanned, with the same order numbers and
    names, in the same order. *)
Theorem parseJMX_agrees (existsSync : jsstring -> bool)
    (readFileSync : jsstring -> outcome jsstring)
    (parseStringPromise : jsstring -> outcome jsval)
    (basename : jsstring -> jsstring) (jmxFilePath xml : jsstring)
    (plan : jsval) (report : Report) :
  readFileSync jmxFilePath = Ok xml ->
  parseStringPromise xml = Ok (JObj [(js "jmeterTestPlan", plan)]) ->
  analyzeJMXForCorrelation existsSync readFileSync parseStringPromise basename jmxFilePath
  = Ok report ->
  exists descriptors st,
    ParseJMX.parseJMX readFileSync (ParseJMX.tree parseStringPromise) jmxFilePath
    = Ok descriptors /\
    collectHTTPSamplers plan emptyWalk = Ok st /\
    map labelOfDescriptor descriptors = map labelOfSampler (result st) /\
    length descriptors = samplersScanned report.
Proof.
  intros R P A. apply analyze_Ok in A.
  destruct A as (xml' & parsed & st & _ & R' & P' & C & ->).
  rewrite R in R'. injection R' as <-. rewrite P in P'. injection P' as <-.
  assert (C' : collectHTTPSamplers plan emptyWalk = Ok st).
  { revert C. cbn [collectHTTPSamplers forEach snd].
    replace (lookup (js "HTTPSamplerProxy") [(js "jmeterTestPlan", plan)])
      with (@None jsval) by reflexivity.
    cbn [bind]. destruct (collectHTTPSamplers plan emptyWalk); cbn [bind]; auto. }
  assert (G : agree st (ParseJMX.walk plan
                          {| ParseJMX.counter := 0; ParseJMX.samplers := [] |})).
  { apply (agrees_all plan emptyWalk st _ C'). split; reflexivity. }
  exists (ParseJMX.samplers
            (ParseJMX.walk plan {| ParseJMX.counter := 0; ParseJMX.samplers := [] |})), st.
  unfold ParseJMX.parseJMX, ParseJMX.tree. rewrite R. cbn [bind]. rewrite P. cbn [bind].
  replace (get (JObj [(js "jmeterTestPlan", plan)]) (js "jmeterTestPlan"))
    with (Some plan) by reflexivity.
  destruct G as [_ G]. repeat split; try assumption.
  cbn [samplersScanned]. apply (f_equal (@length _)) in G.
  rewrite !length_map in G. exact G.
Qed.

Lemma parseJMX_agrees_witness :
  exists descriptors st,
    ParseJMX.parseJMX (fun _ => Ok []) (ParseJMX.tree (fun _ => Ok repeatDocument))
                      (js "repeat.jmx")
    = Ok descriptors /\
    collectHTTPSamplers (planOf repeatDocument) emptyWalk = Ok st /\
    map labelOfDescriptor descriptors = map labelOfSampler (result st) /\
    length descriptors = samplersScanned repeatReport.
Proof.
  apply (parseJMX_agrees (fun _ => true) (fun _ => Ok []) (fun _ => Ok repeatDocument)
                         (fun p => p) (js "repeat.jmx") [] (planOf repeatDocument)).
  - reflexivity.
  - reflexivity.
  - vm_compute. reflexivity.
Defined.

(** ** The descriptors of parseJMX *)

Lemma extractArguments_values (sampler : jsval) (a : ParseJMX.Argument) :
  In a (ParseJMX.extractArguments sampler) -> truthy (Some (ParseJMX.argValue a)) = true.
Proof.
  unfold ParseJMX.extractArguments.
  destruct (get sampler (js "elementProp")) as [e|]; [|contradiction].
  destruct (negb (truthy (Some e))); [contradiction|].
  match goal with |- context [getOpt (getOpt ?b _) _] => generalize b end.
  intros argBlock.
  destruct (getOpt (getOpt argBlock _) _) as [ps|]; [|contradiction].
  destruct (negb (truthy (Some ps))); [contradiction|].
  intros H. apply in_flat_map in H. destruct H as (p & _ & H).
  destruct (truthy (Some (ParseJMX.findStringProp p (js "Argument.value")))) eqn:T;
    [|contradiction].
  destruct H as [<-|[]]. exact T.
Qed.

Lemma pushDescriptor_ok (w : ParseJMX.state) (s : jsval) :
  stateOk w -> stateOk (ParseJMX.pushDescriptor w s).
Proof.
  intros [O D]. unfold ParseJMX.pushDescriptor, stateOk.
  cbn [ParseJMX.counter ParseJMX.samplers]. split.
  - rewrite map_app, O, seq_S. reflexivity.
  - apply Forall_app. split; [assumption|]. constructor; [|constructor].
    unfold descriptorOk.
    cbn [ParseJMX.name ParseJMX.method ParseJMX.path ParseJMX.arguments ParseJMX.raw].
    repeat split; [|apply extractArguments_values].
    destruct (getOpt (get s (js "$")) (js "testname")) as [v|]; [|reflexivity].
    destruct (truthy (Some v)) eqn:V; [assumption|reflexivity].
Qed.

Lemma fold_invariant {A S : Type} (I : S -> Prop) (f : S -> A -> S) (xs : list A) :
  Forall (fun x => forall st, I st -> I (f st x)) xs ->
  forall st, I st -> I (fold_left f xs st).
Proof.
  induction 1 as [|x xs Hx _ IH]; intros st H; simpl; auto.
Qed.

Lemma walk_ok (node : jsval) : forall w, stateOk w -> stateOk (ParseJMX.walk node w).
Proof.
  induction node as [s|props IH|elems IH] using jsval_ind; intros w H;
    cbn [ParseJMX.walk].
  - assumption.
  - apply (fold_invariant stateOk); [exact IH|].
    destruct (lookup (js "HTTPSamplerProxy") props) as [s|]; [|assumption].
    destruct (truthy (Some s)); [|assumption].
    apply (fold_invariant stateOk); [|assumption].
    apply Forall_forall. intros x _ st. apply pushDescriptor_ok.
  - apply (fold_invariant stateOk); assumption.
Qed.

(** X11.  The descriptors [parseJMX] returns are numbered 1, 2, ... in
    order; each has a non-empty name, the method, path and arguments read
    from its [raw] sampler, and no argument with an empty or absent value. *)
Theorem parseJMX_descriptors (readFileSync : jsstring -> outcome jsstring)
    (parseStringPromise : jsstring -> outcome (option jsval))
    (jmxPath : jsstring) (descriptors : list ParseJMX.Descriptor) :
  ParseJMX.parseJMX readFileSync parseStringPromise jmxPath = Ok descriptors ->
  map ParseJMX.order descriptors = seq 1 (length descriptors) /\
  Forall descriptorOk descriptors.
Proof.
  unfold ParseJMX.parseJMX.
  destruct (readFileSync jmxPath) as [xml|] eqn:R; cbn [bind]; [|discriminate].
  destruct (parseStringPromise xml) as [[jmx|]|] eqn:P; cbn [bind]; try discriminate.
  intros E; injection E as <-.
  assert (W : stateOk match get jmx (js "jmeterTestPlan") with
                      | Some plan =>
                          ParseJMX.walk plan
                            {| ParseJMX.counter := 0; ParseJMX.samplers := [] |}
                      | None => {| ParseJMX.counter := 0; ParseJMX.samplers := [] |}
                      end).
  { assert (W0 : stateOk {| ParseJMX.counter := 0; ParseJMX.samplers := [] |})
      by (split; constructor).
    destruct (get jmx (js "jmeterTestPlan")); [apply walk_ok|]; exact W0. }
  destruct W as [O D]. split; [|assumption].
  rewrite O. f_equal. apply (f_equal (@length _)) in O.
  rewrite length_map, length_seq in O. auto.
Qed.

Lemma parseJMX_descriptors_witness :
  map ParseJMX.order repeatDescriptors = seq 1 (length repeatDescriptors) /\
  Forall descriptorOk repeatDescriptors.
Proof.
  apply (parseJMX_descriptors (fun _ => Ok []) (fun _ => Ok (Some repeatDocument))
                              (js "repeat.jmx")).
  vm_compute. reflexivity.
Defined.



(** ** One string property *)

(** X12.  A sampler with exactly one string property (an object, not an
    array) and no arguments: [parseJMX] reads its path, the correlation
    engine does not see it and extracts no value. *)
Theorem single_stringProp_dropped (sampler : jsval) (props : list (jsstring * jsval))
    (text : jsstring) :
  get sampler (js "stringProp") = Some (JObj props) ->
  hasName (js "HTTPSampler.path") (JObj props) = true ->
  lookup (js "_") props = Some (JStr text) ->
  text <> [] ->
  lookup (js "find") props = None ->
  lookup (js "HTTPSampler.path") props = None ->
  get sampler (js "elementProp") = None ->
  ParseJMX.getStringProp sampler (js "HTTPSampler.path") = JStr text /\
  extractRequestValues sampler = Ok [].
Proof.
  intros S N T NE F P E. split.
  - unfold ParseJMX.getStringProp. rewrite S.
    cbn [truthy ParseJMX.asArray find]. rewrite N. cbn [getOpt get]. rewrite T.
    unfold ParseJMX.orEmpty. destruct text; [congruence|reflexivity].
  - unfold extractRequestValues, namedStringProp. rewrite S, F.
    cbn [bind truthy get]. rewrite P. cbn [trimmedText getOpt bind].
    rewrite E. reflexivity.
Qed.

Lemma single_stringProp_dropped_witness :
  ParseJMX.getStringProp loneSampler (js "HTTPSampler.path") = JStr (js "/orders/1234567") /\
  extractRequestValues loneSampler = Ok [].
Proof.
  apply (single_stringProp_dropped loneSampler loneProps (js "/orders/1234567"));
    try reflexivity.
  discriminate.
Defined.

(** ** Escaping XML *)

Lemma replaceAll_app (c : Ascii.ascii) (by_ a b : jsstring) :
  Postman.replaceAll c by_ (a ++ b) = Postman.replaceAll c by_ a ++ Postman.replaceAll c by_ b.
Proof. apply flat_map_app. Qed.

Lemma escapeXml_one (x : char16) : Postman.escapeXml [x] = Postman.escapeChar x.
Proof.
  unfold Postman.escapeXml, Postman.escapeChar, Postman.replaceAll. cbn [flat_map].
  destruct (isChar "&" x) eqn:A; [apply N.eqb_eq in A; subst x; reflexivity|].
  destruct (isChar "<" x) eqn:L; [apply N.eqb_eq in L; subst x; reflexivity|].
  destruct (isChar ">" x) eqn:G; [apply N.eqb_eq in G; subst x; reflexivity|].
  destruct (isChar Postman.quote x) eqn:Q; [apply N.eqb_eq in Q; subst x; reflexivity|].
  cbn [app flat_map]. rewrite L. cbn [app flat_map]. rewrite G.
  cbn [app flat_map]. rewrite Q. reflexivity.
Qed.

Lemma escapeXml_app (a b : jsstring) :
  Postman.escapeXml (a ++ b) = Postman.escapeXml a ++ Postman.escapeXml b.
Proof. unfold Postman.escapeXml. rewrite !replaceAll_app. reflexivity. Qed.

(** The four replacements in sequence are one pass over the characters. *)
Lemma escapeXml_chars (s : jsstring) :
  Postman.escapeXml s = flat_map Postman.escapeChar s.
Proof.
  induction s as [|x s IH]; [reflexivity|].
  change (x :: s) with ([x] ++ s). rewrite escapeXml_app, escapeXml_one, IH. reflexivity.
Qed.

(** X13.  The output of [escapeXml] has no [<], no [>] and no double quote,
    and is the input itself exactly when the input has none of the four
    characters it replaces. *)
Theorem escapeXml_clean (s : jsstring) :
  (forall c, In c (Postman.escapeXml s) ->
             isChar "<" c = false /\ isChar ">" c = false /\ isChar Postman.quote c = false) /\
  (Postman.escapeXml s = s <->
   forall c, In c s ->
             isChar "&" c = false /\ isChar "<" c = false /\ isChar ">" c = false /\
             isChar Postman.quote c = false).
Proof.
  rewrite escapeXml_chars. split.
  - intros c H. apply in_flat_map in H. destruct H as (x & _ & H).
    unfold Postman.escapeChar in H.
    destruct (isChar "&" x); [|destruct (isChar "<" x) eqn:L;
      [|destruct (isChar ">" x) eqn:G; [|destruct (isChar Postman.quote x) eqn:Q]]];
      simpl in H;
      repeat match goal with
             | H : _ \/ _ |- _ => destruct H as [<-|H]
             | H : False |- _ => destruct H
             end; auto.
  - induction s as [|x s IH]; [simpl; split; [intros _ c []|reflexivity]|].
    cbn [flat_map]. split.
    + intros E.
      assert (X : Postman.escapeChar x = [x] /\ flat_map Postman.escapeChar s = s).
      { assert (L : length (flat_map Postman.escapeChar s) >= length s).
        { clear. induction s as [|y s IH]; simpl; [lia|]. rewrite length_app.
          assert (1 <= length (Postman.escapeChar y)); [|lia].
          unfold Postman.escapeChar.
          destruct (isChar "&" y), (isChar "<" y), (isChar ">" y),
            (isChar Postman.quote y); simpl; lia. }
        apply (f_equal (@length _)) in E as EL. rewrite length_app in EL. simpl in EL.
        unfold Postman.escapeChar in *.
        destruct (isChar "&" x); [simpl in EL; lia|].
        destruct (isChar "<" x); [simpl in EL; lia|].
        destruct (isChar ">" x); [simpl in EL; lia|].
        destruct (isChar Postman.quote x); [simpl in EL; lia|].
        simpl in E. injection E as E. auto. }
      destruct X as [X1 X2]. pose proof (proj1 IH X2) as X3.
      intros c [->|H]; [|auto].
      unfold Postman.escapeChar in X1.
      destruct (isChar "&" c); [discriminate|].
      destruct (isChar "<" c); [discriminate|].
      destruct (isChar ">" c); [discriminate|].
      destruct (isChar Postman.quote c); [discriminate|]. auto.
    + intros H. destruct (H x (or_introl eq_refl)) as (A & L & G & Q).
      unfold Postman.escapeChar at 1. rewrite A, L, G, Q. simpl. f_equal.
      apply (proj2 IH). intros c Hc. apply H. right. exact Hc.
Qed.

Lemma unescape_char (x : char16) (rest : jsstring) :
  Postman.unescapeXml (Postman.escapeChar x ++ rest) = x :: Postman.unescapeXml rest.
Proof.
  unfold Postman.unescapeXml, Postman.escapeChar.
  destruct (isChar "&" x) eqn:A.
  { apply N.eqb_eq in A. subst x.
    change (js "&amp;" ++ rest) with (ch "&" :: js "amp;" ++ rest).
    cbn [Postman.unescapeFrom].
    replace (Postman.entityAt (ch "&" :: js "amp;" ++ rest)) with (Some (ch "&", 4))
      by reflexivity.
    reflexivity. }
  destruct (isChar "<" x) eqn:L.
  { apply N.eqb_eq in L. subst x.
    change (js "&lt;" ++ rest) with (ch "&" :: js "lt;" ++ rest).
    cbn [Postman.unescapeFrom].
    replace (Postman.entityAt (ch "&" :: js "lt;" ++ rest)) with (Some (ch "<", 3))
      by reflexivity.
    reflexivity. }
  destruct (isChar ">" x) eqn:G.
  { apply N.eqb_eq in G. subst x.
    change (js "&gt;" ++ rest) with (ch "&" :: js "gt;" ++ rest).
    cbn [Postman.unescapeFrom].
    replace (Postman.entityAt (ch "&" :: js "gt;" ++ rest)) with (Some (ch ">", 3))
      by reflexivity.
    reflexivity. }
  destruct (isChar Postman.quote x) eqn:Q.
  { apply N.eqb_eq in Q. subst x.
    change (js "&quot;" ++ rest) with (ch "&" :: js "quot;" ++ rest).
    cbn [Postman.unescapeFrom].
    replace (Postman.entityAt (ch "&" :: js "quot;" ++ rest))
      with (Some (ch Postman.quote, 5)) by reflexivity.
    reflexivity. }
  cbn [app Postman.unescapeFrom].
  assert (E : Postman.entityAt (x :: rest) = None).
  { unfold Postman.entityAt, startsWith.
    change (js "&amp;") with (ch "&" :: js "amp;").
    change (js "&lt;") with (ch "&" :: js "lt;").
    change (js "&gt;") with (ch "&" :: js "gt;").
    change (js "&quot;") with (ch "&" :: js "quot;").
    cbn [stripPrefix]. unfold isChar in A. rewrite N.eqb_sym, A. reflexivity. }
  rewrite E. reflexivity.
Qed.

(** X14.  Escaping loses nothing: reading the four entities back gives the
    input, so two different strings never have the same escaped form. *)
Theorem escapeXml_round_trip (s t : jsstring) :
  Postman.unescapeXml (Postman.escapeXml s) = s /\
  (Postman.escapeXml s = Postman.escapeXml t -> s = t).
Proof.
  assert (R : forall u, Postman.unescapeXml (Postman.escapeXml u) = u).
  { intros u. rewrite escapeXml_chars. induction u as [|x u IH]; [reflexivity|].
    cbn [flat_map]. rewrite unescape_char, IH. reflexivity. }
  split; [apply R|]. intros E. rewrite <- (R s), <- (R t), E. reflexivity.
Qed.

Example escapeXml_example :
  Postman.escapeXml (js "a<b & c>d") = js "a&lt;b &amp; c&gt;d" /\
  Postman.escapeXml (js "&lt;") = js "&amp;lt;".
Proof. split; vm_compute; reflexivity. Qed.

(** ** Removing duplicate suggestions *)

Section Duplicates.
Variable A : Type.
Variable stringify : A -> jsstring.

Lemma findIndex_In (p : A -> bool) (l : list A) (j : nat) :
  RunJMeter.findIndex p l = Some j -> j < length l.
Proof.
  revert j. induction l as [|y l IH]; intros j; simpl; [discriminate|].
  destruct (p y); [intros E; injection E as <-; lia|].
  destruct (RunJMeter.findIndex p l) as [i|]; [|discriminate].
  simpl. intros E; injection E as <-. specialize (IH i eq_refl). lia.
Qed.

Lemma findIndex_app (p : A -> bool) (pre l : list A) :
  RunJMeter.findIndex p (pre ++ l) =
  match RunJMeter.findIndex p pre with
  | Some j => Some j
  | None => option_map (Nat.add (length pre)) (RunJMeter.findIndex p l)
  end.
Proof.
  induction pre as [|y pre IH]; simpl.
  - destruct (RunJMeter.findIndex p l); reflexivity.
  - destruct (p y); [reflexivity|]. rewrite IH.
    destruct (RunJMeter.findIndex p pre); [reflexivity|].
    destruct (RunJMeter.findIndex p l); reflexivity.
Qed.

Lemma findIndex_none (p : A -> bool) (l : list A) :
  RunJMeter.findIndex p l = None <-> existsb p l = false.
Proof.
  induction l as [|y l IH]; simpl; [tauto|].
  destruct (p y); simpl; [split; discriminate|].
  rewrite <- IH. destruct (RunJMeter.findIndex p l); simpl; split; congruence.
Qed.

Lemma removeDuplicates_from (rest : list A) :
  forall pre,
    map stringify
        (map snd (filter (RunJMeter.firstOfItsText stringify (pre ++ rest))
                         (combine (seq (length pre) (length rest)) rest))) =
    filter (fun k => negb (existsb (str_eqb k) (map stringify pre)))
           (firstSeen (map stringify rest)).
Proof.
  induction rest as [|x r IH]; intros pre; [reflexivity|].
  cbn [length seq combine filter map firstSeen].
  specialize (IH (pre ++ [x])).
  rewrite <- app_assoc, length_app, Nat.add_1_r in IH. cbn [app] in IH.
  assert (F : filter (fun k => negb (existsb (str_eqb k) (map stringify (pre ++ [x]))))
                     (firstSeen (map stringify r)) =
              filter (fun k => negb (existsb (str_eqb k) (map stringify pre)))
                     (filter (fun y => negb (str_eqb (stringify x) y))
                             (firstSeen (map stringify r)))).
  { rewrite filter_filter. apply filter_ext. intros k.
    rewrite map_app, existsb_app. simpl. rewrite orb_false_r, negb_orb.
    rewrite (str_eqb_sym k (stringify x)). apply andb_comm. }
  rewrite F in IH. clear F.
  unfold RunJMeter.firstOfItsText at 1. cbn [fst snd]. rewrite findIndex_app.
  assert (X : existsb (fun y => str_eqb (stringify y) (stringify x)) pre =
              existsb (str_eqb (stringify x)) (map stringify pre)).
  { clear. induction pre as [|y pre IH]; simpl; [reflexivity|].
    rewrite IH, (str_eqb_sym (stringify y)). reflexivity. }
  destruct (RunJMeter.findIndex (fun y => str_eqb (stringify y) (stringify x)) pre)
    as [j|] eqn:J.
  - pose proof (findIndex_In _ _ _ J) as Lj.
    assert (NE : (length pre =? j)%nat = false) by (apply Nat.eqb_neq; lia).
    rewrite NE.
    assert (E : existsb (str_eqb (stringify x)) (map stringify pre) = true).
    { rewrite <- X. destruct (existsb _ pre) eqn:Ex; [reflexivity|].
      apply findIndex_none in Ex. congruence. }
    rewrite E. cbn [negb]. exact IH.
  - cbn [RunJMeter.findIndex]. rewrite str_eqb_refl. cbn [option_map].
    rewrite Nat.add_0_r, Nat.eqb_refl.
    apply findIndex_none in J. rewrite X in J. rewrite J. cbn [negb map snd].
    f_equal. exact IH.
Qed.

(** X15.  Removing duplicates keeps, of the suggestions with the same JSON
    text, the first one only: the JSON texts of the result are the distinct
    JSON texts of the input in first-seen order. *)
Theorem removeDuplicates_first (suggestions : list A) :
  map stringify (RunJMeter.removeDuplicates stringify suggestions) =
  firstSeen (map stringify suggestions).
Proof.
  etransitivity; [exact (removeDuplicates_from suggestions [])|]. simpl.
  induction (firstSeen (map stringify suggestions)) as [|k l IH]; simpl; congruence.
Qed.
End Duplicates.

Example removeDuplicates_example :
  RunJMeter.removeDuplicates (fun n => numberToString n) [3; 1; 3; 2; 1] = [3; 1; 2].
Proof. vm_compute. reflexivity. Qed.

(** ** Nothing of a request is left out *)

Lemma SetAdd_incl (values : list jsstring) (x v : jsstring) :
  In v values -> In v (SetAdd values x).
Proof.
  unfold SetAdd. destruct (existsb (str_eqb x) values); [auto|].
  intros H. apply in_or_app. auto.
Qed.

Lemma SetAdd_In (values : list jsstring) (x : jsstring) : In x (SetAdd values x).
Proof.
  unfold SetAdd. destruct (existsb (str_eqb x) values) eqn:E.
  - apply existsb_str_eqb, E.
  - apply in_or_app. right. left. reflexivity.
Qed.

Lemma fold_SetAdd_incl (l values : list jsstring) (v : jsstring) :
  In v values \/ In v l -> In v (fold_left SetAdd l values).
Proof.
  revert values. induction l as [|x l IH]; intros values; simpl.
  - intros [H|[]]; exact H.
  - intros [H|[<-|H]]; apply IH; auto using SetAdd_incl, SetAdd_In.
Qed.

(** A path with one [?] at most splits into what precedes it and what
    follows it. *)
Lemma split_once (sep : char16) (s : jsstring) :
  count_occ N.eq_dec s sep <= 1 ->
  match split sep s with
  | [_] => afterFirst sep s = []
  | [_; query] => query = afterFirst sep s
  | _ => False
  end.
Proof.
  induction s as [|c s IH]; [reflexivity|].
  cbn [count_occ split afterFirst].
  destruct (N.eq_dec c sep) as [->|NE].
  - rewrite N.eqb_refl. intros H. assert (Z : count_occ N.eq_dec s sep = 0) by lia.
    clear IH H. assert (S1 : split sep s = [s]).
    { induction s as [|d s IH]; [reflexivity|]. cbn [count_occ] in Z.
      destruct (N.eq_dec d sep) as [->|ND]; [discriminate|].
      cbn [split]. apply N.eqb_neq in ND. rewrite ND, (IH Z). reflexivity. }
    rewrite S1. reflexivity.
  - apply N.eqb_neq in NE. rewrite NE. intros H. specialize (IH H).
    destruct (split sep s) as [|a [|b [|x rest]]]; try contradiction; exact IH.
Qed.

Lemma addQueryValues_incl (values : list jsstring) (fullPath v : jsstring) :
  In v values -> In v (addQueryValues values fullPath).
Proof.
  unfold addQueryValues.
  destruct (split (ch "?") fullPath) as [|a [|[|c q] rest]]; auto.
  generalize (URLSearchParams_values (c :: q)). intros vs. revert values.
  induction vs as [|x vs IH]; intros values H; simpl; [assumption|].
  apply IH. destruct (isIgnorable x); auto using SetAdd_incl.
Qed.

Lemma addQueryValues_In (values : list jsstring) (fullPath v : jsstring) :
  count_occ N.eq_dec fullPath (ch "?") <= 1 ->
  In v (queryParameters fullPath) -> isIgnorable v = false ->
  In v (addQueryValues values fullPath).
Proof.
  intros C. apply split_once in C. unfold addQueryValues, queryParameters.
  destruct (split (ch "?") fullPath) as [|a [|q [|x rest]]]; try contradiction.
  - rewrite C. intros [].
  - rewrite <- C. destruct q as [|c q]; [intros []|].
    generalize (URLSearchParams_values (c :: q)). intros vs. revert values.
    induction vs as [|x vs IH]; intros values; simpl; [intros []|].
    intros [->|H] I.
    + rewrite I. clear IH. generalize (SetAdd_In values v).
      generalize (SetAdd values v). induction vs as [|y vs IH]; intros l H; simpl; auto.
      apply IH. destruct (isIgnorable y); auto using SetAdd_incl.
    + apply IH; assumption.
Qed.

Lemma addText_incl (values : list jsstring) (text : option jsstring) (v : jsstring) :
  In v values -> In v (addText values text).
Proof.
  destruct text as [t|]; [|auto]. cbn [addText]. unfold addLiterals. intros H.
  apply fold_SetAdd_incl. left.
  destruct t; [assumption|]. destruct (isIgnorable _); auto using SetAdd_incl.
Qed.

Lemma fold_addText_incl (texts : list (option jsstring)) (values : list jsstring)
    (v : jsstring) :
  In v values -> In v (fold_left addText texts values).
Proof.
  revert values. induction texts as [|t texts IH]; intros values H; simpl; [assumption|].
  apply IH, addText_incl, H.
Qed.

Lemma fold_addText_In (texts : list (option jsstring)) (values : list jsstring)
    (t : jsstring) :
  In (Some t) texts ->
  (isIgnorable t = false -> In t (fold_left addText texts values)) /\
  (forall m, In m (extractLiterals t) -> In m (fold_left addText texts values)).
Proof.
  revert values. induction texts as [|x texts IH]; intros values; [intros []|].
  intros [->|H]; [|apply IH, H]. cbn [fold_left addText]. unfold addLiterals. split.
  - intros I. apply fold_addText_incl, fold_SetAdd_incl. left.
    destruct t as [|c t]; [discriminate|]. rewrite I. apply SetAdd_In.
  - intros m Hm. apply fold_addText_incl, fold_SetAdd_incl. right. exact Hm.
Qed.

(** The arguments [parseJMX] reads are arguments of the sampler. *)
Lemma extractArguments_nodes (sampler : jsval) (a : ParseJMX.Argument) :
  In a (ParseJMX.extractArguments sampler) ->
  exists arg, In arg (argumentNodes sampler) /\ ParseJMX.argValue a = valueOf arg /\
              truthy (Some (valueOf arg)) = true.
Proof.
  unfold ParseJMX.extractArguments, argumentNodes.
  destruct (get sampler (js "elementProp")) as [e|] eqn:G; [|intros []].
  destruct (truthy (Some e)); cbn [negb]; [|intros []].
  set (argBlock := match e with
                   | JArr elems => find (hasName (js "HTTPsampler.Arguments")) elems
                   | _ => if hasName (js "HTTPsampler.Arguments") e then Some e else None
                   end).
  assert (B : forall block, argBlock = Some block ->
                            In block (childrenOf (js "elementProp") sampler) /\
                            exists props, block = JObj props).
  { intros block. unfold argBlock, childrenOf. rewrite G.
    destruct e as [s|props|elems].
    - discriminate.
    - destruct (hasName _ _) eqn:H; [|discriminate]. intros X; injection X as <-.
      split; [left; reflexivity|eauto].
    - intros F. apply find_some in F. destruct F as [I H].
      split; [exact I|apply hasName_object in H; exact H]. }
  destruct argBlock as [block|]; [|intros []].
  destruct (B block eq_refl) as [I [bprops ->]]. cbn [getOpt get].
  destruct (lookup (js "collectionProp") bprops) as [coll|] eqn:C; [|intros []].
  cbn [getOpt]. destruct (get coll (js "elementProp")) as [ps|] eqn:P; [|intros []].
  destruct (truthy (Some ps)); cbn [negb]; [|intros []].
  intros H. apply in_flat_map in H. destruct H as (p & Hp & H).
  fold (valueOf p) in H.
  destruct (truthy (Some (valueOf p))) eqn:T; [|destruct H].
  destruct H as [<-|[]]. exists p. split; [|auto].
  apply in_flat_map. exists (JObj bprops). split; [exact I|].
  apply in_flat_map. exists coll. split.
  - unfold childrenOf. cbn [get]. rewrite C.
    destruct coll as [s|cprops|colls]; try (left; reflexivity). discriminate.
  - unfold childrenOf. rewrite P. destruct ps; exact Hp.
Qed.

(** What the literal set holds of a path and of an argument value. *)
Lemma literalSet_path (path : jsstring) (argumentValues : list jsval) :
  (forall m, In m (extractLiterals (trim path)) ->
             In m (literalSet (JStr path) argumentValues)) /\
  (count_occ N.eq_dec (trim path) (ch "?") <= 1 ->
   forall v, In v (queryParameters (trim path)) -> isIgnorable v = false ->
             In v (literalSet (JStr path) argumentValues)).
Proof.
  unfold literalSet. destruct path as [|c path].
  - split; [intros m []|intros _ v []].
  - cbn [textOf]. split.
    + intros m Hm. apply fold_addText_incl. unfold addLiterals.
      apply fold_SetAdd_incl. right. exact Hm.
    + intros C v Hv I. apply fold_addText_incl. unfold addLiterals.
      apply fold_SetAdd_incl. left. apply addQueryValues_In; assumption.
Qed.

(** X16.  On a sampler written the way JMeter writes it the engine leaves
    nothing out of what [parseJMX] reads: it returns values, and among them
    are the sub-matches of the path, and for every argument its value,
    trimmed, unless that is ignorable, and the sub-matches of the value. *)
Theorem extractRequestValues_complete (sampler : jsval) :
  listShaped sampler = true ->
  exists values,
    extractRequestValues sampler = Ok values /\
    (forall path m,
        pathOf sampler = JStr path -> In m (extractLiterals (trim path)) -> In m values) /\
    (forall argument text,
        In argument (ParseJMX.extractArguments sampler) ->
        ParseJMX.argValue argument = JStr text ->
        (isIgnorable (trim text) = false -> In (trim text) values) /\
        (forall m, In m (extractLiterals (trim text)) -> In m values)).
Proof.
  intros L. rewrite (extractRequestValues_listShaped sampler L).
  eexists. split; [reflexivity|]. split.
  - intros path m ->. apply literalSet_path.
  - intros a text Ha V. apply extractArguments_nodes in Ha.
    destruct Ha as (arg & I & E & T). rewrite V in E.
    apply fold_addText_In. apply in_map_iff. exists (JStr text). split.
    + rewrite <- E in T. destruct text as [|c text]; [discriminate|reflexivity].
    + rewrite E. apply in_map, I.
Qed.

Lemma extractRequestValues_complete_witness :
  exists values,
    extractRequestValues nextSampler = Ok values /\
    (forall path m,
        pathOf nextSampler = JStr path -> In m (extractLiterals (trim path)) ->
        In m values) /\
    (forall argument text,
        In argument (ParseJMX.extractArguments nextSampler) ->
        ParseJMX.argValue argument = JStr text ->
        (isIgnorable (trim text) = false -> In (trim text) values) /\
        (forall m, In m (extractLiterals (trim text)) -> In m values)).
Proof.
  apply (extractRequestValues_complete nextSampler). vm_compute. reflexivity.
Defined.

(** X19.  On a sampler written the way JMeter writes it, whose path has one
    [?] at most, the engine leaves out no parameter of the query: every
    value [URLSearchParams] reads in what follows the [?] is among the
    values of the request, unless it is ignorable. *)
Theorem query_parameters_complete (sampler : jsval) (path : jsstring) :
  listShaped sampler = true ->
  pathOf sampler = JStr path ->
  count_occ N.eq_dec (trim path) (ch "?") <= 1 ->
  exists values,
    extractRequestValues sampler = Ok values /\
    forall v, In v (queryParameters (trim path)) -> isIgnorable v = false -> In v values.
Proof.
  intros L P C. rewrite (extractRequestValues_listShaped sampler L), P.
  eexists. split; [reflexivity|]. apply literalSet_path, C.
Qed.

Lemma query_parameters_complete_witness :
  exists values,
    extractRequestValues nextSampler = Ok values /\
    forall v,
      In v (queryParameters (trim (js " /orders/1234567?sid=k9x7&t=true"))) ->
      isIgnorable v = false -> In v values.
Proof.
  apply (query_parameters_complete nextSampler (js " /orders/1234567?sid=k9x7&t=true"));
    vm_compute; [reflexivity|reflexivity|lia].
Defined.

Example nextSampler_example :
  extractRequestValues nextSampler
  = Ok [js "k9x7"; js "1234567"; js "orders"; js "alice smith 99x"; js "4111111111111"] /\
  pathOf nextSampler = JStr (js " /orders/1234567?sid=k9x7&t=true") /\
  queryParameters (js "/orders/1234567?sid=k9x7&t=true") = [js "k9x7"; js "true"] /\
  map ParseJMX.argValue (ParseJMX.extractArguments nextSampler)
  = [JStr (js "alice smith 99x "); JStr (js "4111111111111")].
Proof. repeat split; vm_compute; reflexivity. Qed.

(** Of a second [?] on, the engine reads no parameter. *)
Example second_question_mark_example :
  queryParameters (js "/a?x=1?token=abcd1234") = [js "1?token=abcd1234"] /\
  addQueryValues [] (js "/a?x=1?token=abcd1234") = [].
Proof. split; vm_compute; reflexivity. Qed.

(** X18.  A sampler with several [elementProp] children: the engine reads
    none of its arguments, whatever they are; its values are those of its
    path alone. *)
Theorem elementProp_list_dropped (sampler : jsval) (blocks : list jsval) :
  get sampler (js "elementProp") = Some (JArr blocks) ->
  lone (js "stringProp") sampler = false ->
  isText (pathOf sampler) = true ->
  extractRequestValues sampler = Ok (literalSet (pathOf sampler) []).
Proof.
  intros G L T.
  pose proof (namedStringProp_read sampler (js "HTTPSampler.path") L) as R.
  change (ParseJMX.findStringProp sampler (js "HTTPSampler.path"))
    with (pathOf sampler) in R.
  specialize (R T). unfold extractRequestValues, literalSet.
  destruct (namedStringProp sampler (js "HTTPSampler.path")) as [prop|]; cbn [bind] in *;
    [|discriminate].
  rewrite R, G. reflexivity.
Qed.

Lemma elementProp_list_dropped_witness :
  extractRequestValues filesSampler = Ok [] /\
  map ParseJMX.argValue (ParseJMX.extractArguments filesSampler)
  = [JStr (js "eyJabc.def.ghi")].
Proof.
  split; [|vm_compute; reflexivity].
  apply (elementProp_list_dropped filesSampler
           [JObj [attributes [("name", "HTTPsampler.Files"); ("elementType", "HTTPFileArgs")]%string];
            snd (arguments [argument "token"%string "eyJabc.def.ghi"%string])]);
    reflexivity.
Defined.
